(** * Article-Analyzer: the rate-limited classification pipeline

    A shallow embedding of [article_analyzer.py] and the properties of its
    throttle, backoff, snippet extraction, link association and per-page
    orchestration.

    Conventions.
    - Instants and durations are integers counting microseconds, the
      resolution of [datetime]; [seconds n] is [n] seconds.
    - [datetime.now()] is an explicit argument [now] of the throttle's
      operations; a coroutine that sleeps reports the durations it slept.
    - A Python exception is a value of [exn]; code that may raise returns
      [exn + A]. *)

From Stdlib Require Import ZArith String Ascii List Bool Lia.
From stdpp Require Import base option list strings gmap.

Local Open Scope string_scope.
Local Open Scope list_scope.
Local Open Scope Z_scope.

(** ** Exceptions *)

Inductive exn_class :=
| ValueError | KeyError | TypeError | AttributeError | JSONDecodeError
| QuotaError | TransientError | NavigationError | PlaywrightError
| OverflowError.

Record exn := Exn { exn_kind : exn_class; exn_str : string }.

(** ** Time *)

Definition seconds (n : Z) : Z := n * 1000000.

Definition total (sleeps : list Z) : Z := fold_right Z.add 0 sleeps.

(** ** RateLimitHandler *)

Module RateLimit.

Record RateLimitHandler := mkRateLimitHandler {
  max_requests_per_minute : Z;
  requests_timestamps : list Z;
  quota_exceeded : bool;
  quota_reset_time : option Z;
  max_backoff : Z;
  error_count : nat
}.

(** [__init__]; [max_backoff_seconds] is kept in microseconds. *)
Definition init (max_requests_per_minute max_backoff_seconds : Z) : RateLimitHandler :=
  {| max_requests_per_minute := max_requests_per_minute;
     requests_timestamps := [];
     quota_exceeded := false;
     quota_reset_time := None;
     max_backoff := seconds max_backoff_seconds;
     error_count := 0 |}.

(** Python's [min] over a list: [ValueError] on the empty one. *)
Fixpoint list_min (d : Z) (l : list Z) : Z :=
  match l with
  | [] => d
  | t :: l' => list_min (Z.min d t) l'
  end.

Definition py_min (l : list Z) : exn + Z :=
  match l with
  | [] => inl (Exn ValueError "min() arg is an empty sequence")
  | t :: l' => inr (list_min t l')
  end.

(** What one call of a throttle coroutine did: the handler it leaves, the
    durations passed to [asyncio.sleep], in order, and whether it raised. *)
Record waited := Waited {
  handler : RateLimitHandler;
  sleeps : list Z;
  raised : option exn
}.

(** Lines 55-62 of [wait_if_needed]: the cooldown block. *)
Definition cooldown_block (now : Z) (h : RateLimitHandler) : RateLimitHandler * list Z :=
  match quota_exceeded h, quota_reset_time h with
  | true, Some reset =>
      if now <? reset then (h, [reset - now])
      else (mkRateLimitHandler (max_requests_per_minute h) (requests_timestamps h)
              false None (max_backoff h) (error_count h), [])
  | _, _ => (h, [])
  end.

(** Lines 64-65: the timestamps strictly younger than 60 seconds. *)
Definition prune (now : Z) (ts : list Z) : list Z :=
  List.filter (fun t => now - seconds 60 <? t) ts.

(** Lines 64-72 of [wait_if_needed]: the sliding-window block. [now] is
    the instant read on entry, also after the cooldown block has slept. *)
Definition window_block (now : Z) (h : RateLimitHandler) : waited :=
  let kept := prune now (requests_timestamps h) in
  let h' := mkRateLimitHandler (max_requests_per_minute h) kept
              (quota_exceeded h) (quota_reset_time h) (max_backoff h) (error_count h) in
  if Z.of_nat (length kept) >=? max_requests_per_minute h then
    match py_min kept with
    | inl e => Waited h' [] (Some e)
    | inr oldest =>
        let wait_time := seconds 60 - (now - oldest) in
        if wait_time >? 0 then Waited h' [wait_time] None else Waited h' [] None
    end
  else Waited h' [] None.

Definition wait_if_needed (now : Z) (h : RateLimitHandler) : waited :=
  let '(h1, s1) := cooldown_block now h in
  let w := window_block now h1 in
  Waited (handler w) (s1 ++ sleeps w) (raised w).

Definition reset_backoff (h : RateLimitHandler) : RateLimitHandler :=
  mkRateLimitHandler (max_requests_per_minute h) (requests_timestamps h)
    (quota_exceeded h) (quota_reset_time h) (max_backoff h) 0%nat.

Definition record_request (now : Z) (h : RateLimitHandler) : RateLimitHandler :=
  reset_backoff
    (mkRateLimitHandler (max_requests_per_minute h) (requests_timestamps h ++ [now])
       (quota_exceeded h) (quota_reset_time h) (max_backoff h) (error_count h)).

(** [retry_delay_seconds if retry_delay_seconds else 3600]: [None] and a
    zero hint are both falsy. *)
Definition retry_delay_or_default (retry_delay : option Z) : Z :=
  match retry_delay with
  | Some d => if d =? 0 then seconds 3600 else d
  | None => seconds 3600
  end.

Definition handle_quota_error (now : Z) (retry_delay : option Z)
    (h : RateLimitHandler) : RateLimitHandler :=
  mkRateLimitHandler (max_requests_per_minute h) (requests_timestamps h)
    true (Some (now + retry_delay_or_default retry_delay))
    (max_backoff h) (error_count h).

(** The value of [min(2 ** k + jitter, max_backoff)], with the draw
    [jitter] of [random.uniform(0, 1)] given in microseconds. *)
Definition exponential_delay (k : nat) (jitter max_backoff : Z) : Z :=
  Z.min (seconds (2 ^ Z.of_nat k) + jitter) max_backoff.

(** The largest float is below [2 ** 1024]. *)
Definition float_max_exp : nat := 1024.

(** [min(2 ** error_count + random.uniform(0, 1), max_backoff)]: the
    power is an integer and the draw a float, so that the sum converts
    the power to a float, which raises [OverflowError] from [2 ** 1024]
    on, before [min] is reached. *)
Definition backoff_delay (error_count : nat) (jitter max_backoff : Z) : exn + Z :=
  if (float_max_exp <=? error_count)%nat
  then inl (Exn OverflowError "int too large to convert to float")
  else inr (exponential_delay error_count jitter max_backoff).

(** [backoff]: sleeps for the delay, then counts the error; when the
    delay cannot be computed, nothing is slept and the count stays.
    [asyncio.sleep] returns at once on a delay that is not positive. *)
Definition backoff (jitter : Z) (h : RateLimitHandler) : waited :=
  match backoff_delay (error_count h) jitter (max_backoff h) with
  | inl e => Waited h [] (Some e)
  | inr delay =>
      Waited
        (mkRateLimitHandler (max_requests_per_minute h) (requests_timestamps h)
           (quota_exceeded h) (quota_reset_time h) (max_backoff h) (S (error_count h)))
        [delay] None
  end.

(** A burst of requests against the throttle alone: each request awaits
    its slot, spends [latency] in the call, records the request, and
    [gap] passes before the next one.  Returns the instant and handler
    after the burst and every duration slept on the way. *)
Fixpoint burst (sched : list (nat * nat)) (now : Z) (h : RateLimitHandler)
    : exn + (Z * RateLimitHandler * list Z) :=
  match sched with
  | [] => inr (now, h, [])
  | (latency, gap) :: sched' =>
      let w := wait_if_needed now h in
      match raised w with
      | Some e => inl e
      | None =>
          let called := now + total (sleeps w) + Z.of_nat latency in
          match burst sched' (called + Z.of_nat gap) (record_request called (handler w)) with
          | inl e => inl e
          | inr (now', h', sl) => inr (now', h', sleeps w ++ sl)
          end
      end
  end.

Definition elapsed (sched : list (nat * nat)) : Z :=
  total (map (fun p => Z.of_nat (fst p) + Z.of_nat (snd p)) sched).

End RateLimit.

(** ** Python strings *)

Module PyStr.

Definition is_upper (c : ascii) : bool :=
  ((65 <=? nat_of_ascii c) && (nat_of_ascii c <=? 90))%nat.

Definition lower_char (c : ascii) : ascii :=
  if is_upper c then ascii_of_nat (nat_of_ascii c + 32) else c.

(** [str.lower], on ASCII letters. *)
Fixpoint lower (s : string) : string :=
  match s with
  | EmptyString => EmptyString
  | String c s' => String (lower_char c) (lower s')
  end.

(** [kw in s]. *)
Fixpoint contains (kw s : string) : bool :=
  String.prefix kw s ||
  match s with
  | EmptyString => false
  | String _ s' => contains kw s'
  end.

(** [s[:n]]. *)
Fixpoint slice_to (n : nat) (s : string) : string :=
  match n, s with
  | S n', String c s' => String c (slice_to n' s')
  | _, _ => EmptyString
  end.

Definition nonempty (s : string) : bool :=
  match s with EmptyString => false | _ => true end.

(** Whitespace of [str.strip], [str.split] and the pattern [\s]. *)
Definition is_space (c : ascii) : bool :=
  let n := nat_of_ascii c in
  (((9 <=? n) && (n <=? 13)) || ((28 <=? n) && (n <=? 32)))%nat.

Fixpoint lstrip (s : string) : string :=
  match s with
  | EmptyString => EmptyString
  | String c s' => if is_space c then lstrip s' else s
  end.

Fixpoint rstrip (s : string) : string :=
  match s with
  | EmptyString => EmptyString
  | String c s' =>
      match rstrip s' with
      | EmptyString => if is_space c then EmptyString else String c EmptyString
      | r => String c r
      end
  end.

Definition strip (s : string) : string := rstrip (lstrip s).

(** [sep.join(parts)]. *)
Definition join (sep : string) (parts : list string) : string :=
  String.concat sep parts.

(** [s.split()]: the maximal runs without whitespace; [cur] is the run
    being read. *)
Fixpoint split_from (cur : string) (s : string) : list string :=
  match s with
  | EmptyString => if nonempty cur then [cur] else []
  | String c s' =>
      if is_space c
      then (if nonempty cur then cur :: split_from EmptyString s'
            else split_from EmptyString s')
      else split_from (cur +:+ String c EmptyString) s'
  end.

Definition split (s : string) : list string := split_from EmptyString s.

(** [re.sub(r"\s+", " ", s)]; [in_run] says that the previous character
    was whitespace. *)
Fixpoint collapse_from (in_run : bool) (s : string) : string :=
  match s with
  | EmptyString => EmptyString
  | String c s' =>
      if is_space c
      then (if in_run then collapse_from true s'
            else String " "%char (collapse_from true s'))
      else String c (collapse_from false s')
  end.

Definition collapse_whitespace (s : string) : string := collapse_from false s.

(** [any(kw in text for kw in keywords)]. *)
Definition any_in (keywords : list string) (text : string) : bool :=
  existsb (fun kw => contains kw text) keywords.

Definition quote : string := String (ascii_of_nat 34) EmptyString.
Definition newline : string := String (ascii_of_nat 10) EmptyString.

End PyStr.

(** ** Categories *)

Definition CATEGORY_LIST : list string :=
  ["About Us"; "Products & Services"; "Leadership/Team";
   "Blog/News/Press Release"; "Contact/Support";
   "Privacy/Legal"; "Careers/Jobs"; "Other"].

Definition CATEGORY_KEYWORDS : gmap string (list string) :=
  list_to_map
    [("About Us", ["about us"; "our story"; "who we are"]);
     ("Products & Services", ["product"; "service"; "solution"]);
     ("Leadership/Team", ["our team"; "leadership"; "ceo"; "founder"]);
     ("Blog/News/Press Release", ["blog"; "news"; "press"]);
     ("Contact/Support", ["contact"; "support"; "help"; "reach"]);
     ("Privacy/Legal", ["privacy"; "terms"; "policy"]);
     ("Careers/Jobs", ["career"; "job"; "hiring"]);
     ("Other", [])].

(** [CATEGORY_KEYWORDS.get(category, [])]. *)
Definition keywords_of (category : string) : list string :=
  default [] (CATEGORY_KEYWORDS !! category).

(** ** Markup, as BeautifulSoup presents it *)

Module Soup.
Import PyStr.

(** A parsed document: strings and tags, tag names in lower case. *)
#[warnings="-register-all"]
Inductive node :=
| NavigableString (s : string)
| Tag (name : string) (attrs : list (string * string)) (contents : list node).

(** Markup is given by the tree that [BeautifulSoup(html, 'html.parser')]
    builds from it; the soup is the root holding the top-level nodes. *)
Definition markup := list node.

Definition BeautifulSoup (html : markup) : node := Tag "[document]" [] html.

(** The elements below a node, in document order: a node comes before
    its contents, which come before its next sibling. *)
Fixpoint descendants (n : node) : list node :=
  match n with
  | NavigableString _ => []
  | Tag _ _ cs => List.flat_map (fun c => c :: descendants c) cs
  end.

Fixpoint all_strings (n : node) : list string :=
  match n with
  | NavigableString s => [s]
  | Tag _ _ cs => List.flat_map all_strings cs
  end.

(** [n.get_text(sep, strip=True)]: the strings below [n], each stripped,
    the empty ones dropped, joined by [sep]. *)
Definition get_text (sep : string) (n : node) : string :=
  join sep (List.filter nonempty (map strip (all_strings n))).

Definition is_tag (names : list string) (n : node) : bool :=
  match n with
  | NavigableString _ => false
  | Tag name _ _ => existsb (String.eqb name) names
  end.

(** [class_=cls]: [cls] is one of the whitespace-separated classes. *)
Definition has_class (cls : string) (n : node) : bool :=
  match n with
  | NavigableString _ => false
  | Tag _ attrs _ =>
      existsb (fun kv => String.eqb (fst kv) "class"
                         && existsb (String.eqb cls) (split (snd kv))) attrs
  end.

(** [soup.find_all(names)] and [soup.find(name)]. *)
Definition find_all (names : list string) (soup : node) : list node :=
  List.filter (is_tag names) (descendants soup).

Definition find (name : string) (soup : node) : option node :=
  head (find_all [name] soup).

(** [soup.find('div', class_=cls)]. *)
Definition find_div_class (cls : string) (soup : node) : option node :=
  head (List.filter (has_class cls) (find_all ["div"] soup)).

(** [el.decompose()] for every [el] of [soup.find_all(tag)]. *)
Fixpoint remove_tag (tag : string) (n : node) : node :=
  match n with
  | NavigableString _ => n
  | Tag name attrs cs =>
      Tag name attrs
        ((fix go (l : list node) : list node :=
            match l with
            | [] => []
            | c :: l' => if is_tag [tag] c then go l' else remove_tag tag c :: go l'
            end) cs)
  end.

End Soup.

(** ** extract_snippet *)

Section Snippet.
Import PyStr Soup.

(** Lines 127-131.  [elems] is what is left of the document, in document
    order: the loop over [find_all(['h1','h2','h3'])] visits its headings
    in turn, and [heading.find_all_next(['p','div'], limit=3)] reads the
    elements that follow the heading. *)
Fixpoint snippet_from_headings (keywords : list string) (elems : list node)
    : option string :=
  match elems with
  | [] => None
  | heading :: following =>
      if is_tag ["h1"; "h2"; "h3"] heading
         && any_in keywords (lower (get_text " " heading))
      then Some (slice_to 500
                   (join " " (map (get_text " ")
                                (take 3 (List.filter (is_tag ["p"; "div"]) following)))))
      else snippet_from_headings keywords following
  end.

(** Lines 134-145: [article], then [main]. *)
Definition snippet_from_container (keywords : list string) (container : option node)
    : option string :=
  match container with
  | Some el =>
      let text := get_text " " el in
      if any_in keywords (lower text) then Some (slice_to 500 text) else None
  | None => None
  end.

(** Lines 148-153: the conventional content classes, in order. *)
Fixpoint snippet_from_classes (keywords : list string) (soup : node)
    (classes : list string) : option string :=
  match classes with
  | [] => None
  | cls :: classes' =>
      match snippet_from_container keywords (find_div_class cls soup) with
      | Some s => Some s
      | None => snippet_from_classes keywords soup classes'
      end
  end.

Definition content_classes : list string :=
  ["post-content"; "entry-content"; "article-body"; "content"].

Definition extract_snippet (html : markup) (category : string) : string :=
  let soup := BeautifulSoup html in
  let keywords := keywords_of category in
  match snippet_from_headings keywords (descendants soup) with
  | Some s => s
  | None =>
  match snippet_from_container keywords (find "article" soup) with
  | Some s => s
  | None =>
  match snippet_from_container keywords (find "main" soup) with
  | Some s => s
  | None =>
  match snippet_from_classes keywords soup content_classes with
  | Some s => s
  | None => EmptyString
  end end end end.

End Snippet.

(** The texts the tiers of [extract_snippet] match keywords against: the
    headings of levels 1 to 3, and the containers of the later tiers
    (the first [article], the first [main], the first [div] of each
    conventional class). *)
Section Tiers.
Import PyStr Soup.

Definition heading_texts (html : markup) : list string :=
  map (get_text " ") (find_all ["h1"; "h2"; "h3"] (BeautifulSoup html)).

Definition containers (html : markup) : list (option node) :=
  [find "article" (BeautifulSoup html); find "main" (BeautifulSoup html)]
  ++ map (fun cls => find_div_class cls (BeautifulSoup html)) content_classes.

Definition container_texts (html : markup) : list string :=
  List.flat_map (fun c => match c with Some el => [get_text " " el] | None => [] end)
    (containers html).

Definition matches_keyword (category : string) (text : string) : bool :=
  any_in (keywords_of category) (lower text).

End Tiers.

(** ** JSON values, as [json.loads] returns them *)

#[warnings="-register-all"]
Inductive json :=
| JNull
| JBool (b : bool)
| JNum (n : Z)
| JStr (s : string)
| JArr (items : list json)
| JObj (members : list (string * json)).

Module PyJson.

Fixpoint lookup (key : string) (members : list (string * json)) : option json :=
  match members with
  | [] => None
  | (k, v) :: members' => if String.eqb k key then Some v else lookup key members'
  end.

(** [obj[key]]. *)
Definition getitem (obj : json) (key : string) : exn + json :=
  match obj with
  | JObj members =>
      match lookup key members with
      | Some v => inr v
      | None => inl (Exn KeyError ("'" +:+ key +:+ "'"))
      end
  | JArr _ => inl (Exn TypeError "list indices must be integers or slices, not str")
  | JStr _ => inl (Exn TypeError "string indices must be integers")
  | _ => inl (Exn TypeError "object is not subscriptable")
  end.

(** [obj.get(key, default)]. *)
Definition get (obj : json) (key : string) (default : json) : exn + json :=
  match obj with
  | JObj members =>
      match lookup key members with
      | Some v => inr v
      | None => inr default
      end
  | _ => inl (Exn AttributeError "object has no attribute 'get'")
  end.

Fixpoint chars (s : string) : list json :=
  match s with
  | EmptyString => []
  | String c s' => JStr (String c EmptyString) :: chars s'
  end.

(** [for cat in value]: the items of a list, the keys of a dict, the
    characters of a string. *)
Definition iter (value : json) : exn + list json :=
  match value with
  | JArr items => inr items
  | JObj members => inr (map (fun kv => JStr (fst kv)) members)
  | JStr s => inr (chars s)
  | _ => inl (Exn TypeError "object is not iterable")
  end.

End PyJson.

(** ** Regular expressions of the classification calls *)

Module Re.

(** The suffix of [s] that starts at the first [c]. *)
Fixpoint from_first (c : ascii) (s : string) : option string :=
  match s with
  | EmptyString => None
  | String a s' => if Ascii.eqb a c then Some s else from_first c s'
  end.

(** The prefix of [s] that ends at the last [c]. *)
Fixpoint upto_last (c : ascii) (s : string) : option string :=
  match s with
  | EmptyString => None
  | String a s' =>
      match upto_last c s' with
      | Some r => Some (String a r)
      | None => if Ascii.eqb a c then Some (String a EmptyString) else None
      end
  end.

(** [re.search(opening .* closing, s, re.DOTALL)] and [match.group()]:
    the leftmost opening bracket that a closing one follows, up to the
    last closing one. *)
Definition search (opening closing : ascii) (s : string) : option string :=
  match from_first opening s with
  | Some (String a rest) =>
      match upto_last closing rest with
      | Some body => Some (String a body)
      | None => None
      end
  | _ => None
  end.

End Re.

(** ** Collaborators *)

(** An element handle of the rendered page: [get_attribute('href')] and
    [inner_text()]. *)
Record ElementHandle := {
  get_attribute : exn + option string;
  inner_text : exn + string
}.

(** What the rendering engine serves for a requested URL. *)
Record Page := {
  goto : exn + unit;
  load_time : N;
  wait_for_timeout : exn + unit;
  page_url : string;
  page_content : exn + Soup.markup;
  query_selector_all : exn + list ElementHandle;
  page_close : exn + unit
}.

Record ParseResult := { scheme : string; netloc : string }.

(** The services the analyzer calls: the language model ([llm_invoke n]
    is the outcome of the call made after [n] earlier ones), the JSON
    decoder, the random source, [urllib] and the browser context. *)
Record Env := {
  llm_invoke : nat -> string -> exn + string;
  llm_latency : nat -> N;
  json_loads : string -> exn + json;
  random_uniform : nat -> Z;
  urljoin : string -> string -> exn + string;
  urlparse : string -> exn + ParseResult;
  new_page : nat -> exn + unit;
  page_for : string -> Page
}.

(** ** Fallible computations *)

Definition and_then {A B : Type} (r : exn + A) (k : A -> exn + B) : exn + B :=
  match r with
  | inl e => inl e
  | inr a => k a
  end.

Notation "x <-! r ;; k" := (and_then r (fun x => k))
  (at level 100, r at next level, right associativity).

(** ** associate_links *)

Section Links.
Import PyStr.
Context (env : Env).

Definition member (k : string) (keys : list string) : bool :=
  existsb (String.eqb k) keys.

(** Inserting a key into a dict: a key already present keeps its place. *)
Definition insert_key (keys : list string) (k : string) : list string :=
  if member k keys then keys else keys ++ [k].

(** [list(dict.fromkeys(matches))]: the keys in insertion order. *)
Definition dict_fromkeys (matches : list string) : list string :=
  fold_left insert_key matches [].

(** Lines 165-176: the loop over the anchors. *)
Fixpoint collect_matches (base_url domain : string) (keywords : list string)
    (anchors : list ElementHandle) (matches : list string) : exn + list string :=
  match anchors with
  | [] => inr matches
  | a :: anchors' =>
      href <-! get_attribute a ;;
      text <-! inner_text a ;;
      let text := lower text in
      match href with
      | None | Some EmptyString =>
          collect_matches base_url domain keywords anchors' matches
      | Some href =>
          abs_url <-! urljoin env base_url href ;;
          parsed <-! urlparse env abs_url ;;
          if nonempty (netloc parsed) && negb (String.eqb (netloc parsed) domain)
          then collect_matches base_url domain keywords anchors' matches
          else
            let full_text := lower href +:+ " " +:+ text in
            if any_in keywords full_text
            then collect_matches base_url domain keywords anchors' (matches ++ [abs_url])
            else collect_matches base_url domain keywords anchors' matches
      end
  end.

(** Lines 160-178: the body of the [try]. *)
Definition associate_links_try (page : Page) (base_url category : string)
    : exn + list string :=
  anchors <-! query_selector_all page ;;
  base <-! urlparse env base_url ;;
  let domain := netloc base in
  let keywords := keywords_of category in
  matches <-! collect_matches base_url domain keywords anchors [] ;;
  inr (take 5 (dict_fromkeys matches)).

Definition associate_links (page : Page) (base_url category : string) : list string :=
  match associate_links_try page base_url category with
  | inr links => links
  | inl _ => []
  end.

End Links.

(** A URL that parses and has no host, or the host [domain]. *)
Definition same_site (env : Env) (domain : string) (u : string) : Prop :=
  exists parsed, urlparse env u = inr parsed /\
                 (netloc parsed = EmptyString \/ netloc parsed = domain).

(** ** The analyzer *)

Record CategoryContent := {
  entry_name : string;
  entry_text : string;
  entry_links : list string
}.

(** The record [analyze_url] returns; [errors] is [None] for Python's
    [None]. *)
Record PageResult := {
  URL : string;
  site_type : json;
  extracted_web_content : string;
  content : list CategoryContent;
  errors : option string
}.

(** What a run has done so far: the clock, the shared throttle, the
    number of calls of the model and of [backoff], every duration slept,
    and the page handles created and not yet closed. *)
Record World := mkWorld {
  clock : Z;
  rate_limiter : RateLimit.RateLimitHandler;
  llm_calls : nat;
  backoffs : nat;
  slept : list Z;
  pages_created : nat;
  open_pages : list nat
}.

(** A coroutine: it may raise, and what it did before raising stays done. *)
Definition M (A : Type) : Type := World -> (exn + A) * World.

Definition ret {A : Type} (a : A) : M A := fun w => (inr a, w).

Definition bind {A B : Type} (m : M A) (k : A -> M B) : M B :=
  fun w =>
    match m w with
    | (inr a, w') => k a w'
    | (inl e, w') => (inl e, w')
    end.

Definition lift {A : Type} (r : exn + A) : M A := fun w => (r, w).

Definition try_except {A : Type} (body : M A) (handler : exn -> M A) : M A :=
  fun w =>
    match body w with
    | (inl e, w') => handler e w'
    | (inr a, w') => (inr a, w')
    end.

Notation "x <- m ;; k" := (bind m (fun x => k))
  (at level 100, m at next level, right associativity).

Section Analyzer.
Import PyStr Soup.
Context (env : Env).

Definition advance (d : Z) : M unit :=
  fun w => (inr tt, mkWorld (clock w + d) (rate_limiter w) (llm_calls w) (backoffs w)
                      (slept w) (pages_created w) (open_pages w)).

(** [await self.rate_limiter.wait_if_needed()]. *)
Definition limiter_wait_if_needed : M unit :=
  fun w =>
    let r := RateLimit.wait_if_needed (clock w) (rate_limiter w) in
    (match RateLimit.raised r with Some e => inl e | None => inr tt end,
     mkWorld (clock w + total (RateLimit.sleeps r)) (RateLimit.handler r)
       (llm_calls w) (backoffs w) (slept w ++ RateLimit.sleeps r)
       (pages_created w) (open_pages w)).

(** [self.rate_limiter.record_request()]. *)
Definition limiter_record_request : M unit :=
  fun w =>
    (inr tt, mkWorld (clock w) (RateLimit.record_request (clock w) (rate_limiter w))
               (llm_calls w) (backoffs w) (slept w) (pages_created w) (open_pages w)).

(** [await self.rate_limiter.backoff()], with the next draw of the
    random source, which is taken before the delay is computed. *)
Definition limiter_backoff : M unit :=
  fun w =>
    let r := RateLimit.backoff (random_uniform env (backoffs w)) (rate_limiter w) in
    (match RateLimit.raised r with Some e => inl e | None => inr tt end, mkWorld (clock w + Z.max 0 (total (RateLimit.sleeps r))) (RateLimit.handler r)
               (llm_calls w) (S (backoffs w)) (slept w ++ RateLimit.sleeps r)
               (pages_created w) (open_pages w)).

(** [await asyncio.to_thread(self.llm.invoke, ...)] and [response.content]. *)
Definition invoke (prompt : string) : M string :=
  fun w =>
    (llm_invoke env (llm_calls w) prompt,
     mkWorld (clock w + Z.of_N (llm_latency env (llm_calls w))) (rate_limiter w)
       (S (llm_calls w)) (backoffs w) (slept w) (pages_created w) (open_pages w)).

Definition indent : string := "            ".

Definition categories_prompt (text : string) : string :=
  newline +:+ indent
  +:+ "Given the following content, extract matching categories from this list:"
  +:+ newline +:+ indent +:+ join ", " CATEGORY_LIST
  +:+ newline +:+ indent +:+ "Return JSON: [{" +:+ quote +:+ "category_name" +:+ quote
  +:+ ": " +:+ quote +:+ "..." +:+ quote +:+ ", " +:+ quote +:+ "text" +:+ quote
  +:+ ": " +:+ quote +:+ quote +:+ "}]"
  +:+ newline +:+ indent +:+ "Content: " +:+ slice_to 3000 text
  +:+ newline +:+ indent.

Definition site_type_prompt (text : string) : string :=
  newline +:+ indent
  +:+ "Classify this site into one: [blog, news, company, ecommerce, portfolio, forum, educational, medical, other]"
  +:+ newline +:+ indent +:+ "Return JSON: {" +:+ quote +:+ "site_type" +:+ quote
  +:+ ": " +:+ quote +:+ "..." +:+ quote +:+ "}"
  +:+ newline +:+ indent +:+ "Content: " +:+ slice_to 3000 text
  +:+ newline +:+ indent.

(** [get_categories] with [attempts] turns of [for attempt in range(3)]
    left: the slot is awaited outside the [try]; the call, the record and
    the parse are inside it; the handler backs off and the loop goes on,
    unless [backoff] itself raises, which leaves the function; line 205
    follows the loop. *)
Fixpoint get_categories_loop (attempts : nat) (text : string) : M json :=
  match attempts with
  | O => ret (JArr [])
  | S attempts' =>
      _ <- limiter_wait_if_needed ;;
      let prompt := categories_prompt text in
      try_except
        (response <- invoke prompt ;;
         _ <- limiter_record_request ;;
         match Re.search "["%char "]"%char (strip response) with
         | Some group => lift (json_loads env group)
         | None => ret (JArr [])
         end)
        (fun _ =>
           _ <- limiter_backoff ;;
           get_categories_loop attempts' text)
  end.

Definition get_categories (text : string) : M json := get_categories_loop 3 text.

(** [get_site_type], likewise; line 226 follows the loop. *)
Fixpoint get_site_type_loop (attempts : nat) (text : string) : M json :=
  match attempts with
  | O => ret (JStr "other")
  | S attempts' =>
      _ <- limiter_wait_if_needed ;;
      let prompt := site_type_prompt text in
      try_except
        (response <- invoke prompt ;;
         _ <- limiter_record_request ;;
         match Re.search "{"%char "}"%char (strip response) with
         | Some group =>
             decoded <- lift (json_loads env group) ;;
             lift (PyJson.get decoded "site_type" (JStr "other"))
         | None => ret (JStr "other")
         end)
        (fun _ =>
           _ <- limiter_backoff ;;
           get_site_type_loop attempts' text)
  end.

Definition get_site_type (text : string) : M json := get_site_type_loop 3 text.

(** The shape the two loops share, for reasoning about both at once:
    [parse] is what the [try] makes of a response (lines 200-201,
    respectively 221-222) and [fallback] what follows the loop. *)
Definition parse_categories (response : string) : exn + json :=
  match Re.search "["%char "]"%char (strip response) with
  | Some group => json_loads env group
  | None => inr (JArr [])
  end.

Definition parse_site_type (response : string) : exn + json :=
  match Re.search "{"%char "}"%char (strip response) with
  | Some group =>
      decoded <-! json_loads env group ;;
      PyJson.get decoded "site_type" (JStr "other")
  | None => inr (JStr "other")
  end.

Fixpoint classify (attempts : nat) (prompt : string)
    (parse : string -> exn + json) (fallback : json) : M json :=
  match attempts with
  | O => ret fallback
  | S attempts' =>
      _ <- limiter_wait_if_needed ;;
      try_except
        (response <- invoke prompt ;;
         _ <- limiter_record_request ;;
         lift (parse response))
        (fun _ =>
           _ <- limiter_backoff ;;
           classify attempts' prompt parse fallback)
  end.

(** An attempt that ends in the handler: the call raises, or the parse
    of its response does. *)
Definition attempt_raises (parse : string -> exn + json) (n : nat) (prompt : string)
    : bool :=
  match llm_invoke env n prompt with
  | inl _ => true
  | inr response => match parse response with inl _ => true | inr _ => false end
  end.

(** A response without a bracketed fragment, or whose fragment does not
    decode. *)
Definition malformed (opening closing : ascii) (response : string) : bool :=
  match Re.search opening closing (strip response) with
  | None => true
  | Some group => match json_loads env group with inl _ => true | inr _ => false end
  end.

(** An attempt whose call raises or whose response is malformed. *)
Definition failed_attempt (opening closing : ascii) (n : nat) (prompt : string) : bool :=
  match llm_invoke env n prompt with
  | inl _ => true
  | inr response => malformed opening closing response
  end.

(** [validate_url]. *)
Definition validate_url (target : string) : exn + bool :=
  parsed <-! urlparse env target ;;
  inr (existsb (String.eqb (scheme parsed)) ["http"; "https"]).

(** Lines 239-243: the text given to the model. *)
Definition clean_text (html : markup) : string :=
  let soup := fold_left (fun soup tag => remove_tag tag soup)
                ["script"; "style"; "nav"; "footer"; "aside"] (BeautifulSoup html) in
  collapse_whitespace (get_text " " soup).

(** Lines 249-254: one turn of the loop over the categories.  A name that
    is no string is no key of [CATEGORY_KEYWORDS]: unhashable (a list, a
    dict) it makes the lookup raise; otherwise it has no keyword, so that
    snippet and links are empty and nothing is appended. *)
Definition assemble_one (html : markup) (page : Page) (final_url : string)
    (cat : json) (structured_content : list CategoryContent)
    : exn + list CategoryContent :=
  name <-! PyJson.getitem cat "category_name" ;;
  match name with
  | JStr name =>
      let snippet := extract_snippet html name in
      let links := associate_links env page final_url name in
      if nonempty snippet || negb (bool_decide (links = []))
      then inr (structured_content ++ [Build_CategoryContent name snippet links])
      else inr structured_content
  | JArr _ | JObj _ => inl (Exn TypeError "unhashable type")
  | _ => inr structured_content
  end.

Fixpoint assemble (html : markup) (page : Page) (final_url : string)
    (categories : list json) (structured_content : list CategoryContent)
    : exn + list CategoryContent :=
  match categories with
  | [] => inr structured_content
  | cat :: categories' =>
      structured_content <-! assemble_one html page final_url cat structured_content ;;
      assemble html page final_url categories' structured_content
  end.

(** [await self.context.new_page()]: a new handle, open until closed. *)
Definition context_new_page : M nat :=
  fun w =>
    match new_page env (pages_created w) with
    | inl e => (inl e, w)
    | inr _ =>
        (inr (pages_created w),
         mkWorld (clock w) (rate_limiter w) (llm_calls w) (backoffs w) (slept w)
           (S (pages_created w)) (pages_created w :: open_pages w))
    end.

(** [await page.close()]. *)
Definition close (handle : nat) (page : Page) : M unit :=
  fun w =>
    match page_close page with
    | inl e => (inl e, w)
    | inr _ =>
        (inr tt,
         mkWorld (clock w) (rate_limiter w) (llm_calls w) (backoffs w) (slept w)
           (pages_created w) (List.filter (fun h => negb (Nat.eqb h handle)) (open_pages w)))
    end.

Definition error_result (target : string) (description : string) : PageResult :=
  {| URL := target; site_type := JStr "other"; extracted_web_content := EmptyString;
     content := []; errors := Some description |}.

(** Lines 230-264: the body of the [try] of [analyze_url]. *)
Definition analyze_url_try (target : string) : M PageResult :=
  valid <- lift (validate_url target) ;;
  if negb valid then ret (error_result target "Invalid URL")
  else
    handle <- context_new_page ;;
    let page := page_for env target in
    _ <- lift (goto page) ;;
    _ <- advance (Z.of_N (load_time page)) ;;
    _ <- lift (wait_for_timeout page) ;;
    _ <- advance (seconds 2) ;;
    let final_url := page_url page in
    html <- lift (page_content page) ;;
    let text := clean_text html in
    categories <- get_categories text ;;
    site_type <- get_site_type text ;;
    categories <- lift (PyJson.iter categories) ;;
    structured_content <- lift (assemble html page final_url categories []) ;;
    _ <- close handle page ;;
    ret {| URL := final_url; site_type := site_type; extracted_web_content := text;
           content := structured_content; errors := None |}.

(** [analyze_url]: whatever the body raises becomes an error record. *)
Definition analyze_url (target : string) (w : World) : PageResult * World :=
  match analyze_url_try target w with
  | (inr result, w') => (result, w')
  | (inl e, w') => (error_result target (exn_str e), w')
  end.

End Analyzer.

(** ** Reference collaborators

    [urllib.parse] and [json], for URLs and JSON texts of the plain kind:
    URLs without parameters or control characters, JSON without escapes,
    fractions or exponents (the decoder rejects those). *)

Module Urllib.
Import PyStr.

Definition is_alpha (c : ascii) : bool :=
  let n := nat_of_ascii c in
  (((65 <=? n) && (n <=? 90)) || ((97 <=? n) && (n <=? 122)))%nat.

Definition is_digit (c : ascii) : bool :=
  let n := nat_of_ascii c in ((48 <=? n) && (n <=? 57))%nat.

Definition is_scheme_char (c : ascii) : bool :=
  is_alpha c || is_digit c
  || Ascii.eqb c "+"%char || Ascii.eqb c "-"%char || Ascii.eqb c "."%char.

Fixpoint all_chars (p : ascii -> bool) (s : string) : bool :=
  match s with
  | EmptyString => true
  | String c s' => p c && all_chars p s'
  end.

Fixpoint has_char (c : ascii) (s : string) : bool :=
  match s with
  | EmptyString => false
  | String a s' => Ascii.eqb a c || has_char c s'
  end.

(** [s.split(c, 1)] when [c] occurs in [s]. *)
Fixpoint split_once (c : ascii) (s : string) : option (string * string) :=
  match s with
  | EmptyString => None
  | String a s' =>
      if Ascii.eqb a c then Some (EmptyString, s')
      else match split_once c s' with
           | Some (before, after) => Some (String a before, after)
           | None => None
           end
  end.

(** [s.split(c)]. *)
Fixpoint split_on (c : ascii) (s : string) : list string :=
  match s with
  | EmptyString => [EmptyString]
  | String a s' =>
      if Ascii.eqb a c then EmptyString :: split_on c s'
      else match split_on c s' with
           | first :: others => String a first :: others
           | [] => [String a EmptyString]
           end
  end.

(** [_splitnetloc]: up to the first of [/], [?] and [#]. *)
Fixpoint split_netloc (s : string) : string * string :=
  match s with
  | EmptyString => (EmptyString, EmptyString)
  | String a s' =>
      if Ascii.eqb a "/"%char || Ascii.eqb a "?"%char || Ascii.eqb a "#"%char
      then (EmptyString, s)
      else let '(host, rest) := split_netloc s' in (String a host, rest)
  end.

Record SplitResult := {
  sp_scheme : string;
  sp_netloc : string;
  sp_path : string;
  sp_query : string;
  sp_fragment : string
}.

Definition urlsplit (target default_scheme : string) : exn + SplitResult :=
  let '(scheme, rest) :=
    match split_once ":"%char target with
    | Some (String a before, after) =>
        if is_alpha a && all_chars is_scheme_char before
        then (lower (String a before), after)
        else (default_scheme, target)
    | _ => (default_scheme, target)
    end in
  let '(netloc, rest) :=
    match rest with
    | String "/"%char (String "/"%char rest') => split_netloc rest'
    | _ => (EmptyString, rest)
    end in
  if xorb (has_char "["%char netloc) (has_char "]"%char netloc)
  then inl (Exn ValueError "Invalid IPv6 URL")
  else
    let '(rest, fragment) :=
      match split_once "#"%char rest with
      | Some (before, after) => (before, after)
      | None => (rest, EmptyString)
      end in
    let '(path, query) :=
      match split_once "?"%char rest with
      | Some (before, after) => (before, after)
      | None => (rest, EmptyString)
      end in
    inr (Build_SplitResult scheme netloc path query fragment).

Definition uses_relative : list string :=
  [EmptyString; "ftp"; "http"; "gopher"; "nntp"; "imap"; "wais"; "file"; "https"; "shttp";
   "mms"; "prospero"; "rtsp"; "rtspu"; "sftp"; "svn"; "svn+ssh"; "ws"; "wss"].

Definition uses_netloc : list string :=
  [EmptyString; "ftp"; "http"; "gopher"; "nntp"; "telnet"; "imap"; "wais"; "file"; "mms";
   "https"; "shttp"; "snews"; "prospero"; "rtsp"; "rtspu"; "rsync"; "svn";
   "svn+ssh"; "sftp"; "nfs"; "git"; "git+ssh"; "ws"; "wss"].

Definition among (s : string) (l : list string) : bool := existsb (String.eqb s) l.

Definition starts_with (prefix s : string) : bool := String.prefix prefix s.

Definition urlunsplit (r : SplitResult) : string :=
  let target := sp_path r in
  let target :=
    if nonempty (sp_netloc r)
       || (nonempty (sp_scheme r) && among (sp_scheme r) uses_netloc
           && negb (starts_with "//" target))
    then "//" +:+ sp_netloc r
         +:+ (if nonempty target && negb (starts_with "/" target)
              then "/" +:+ target else target)
    else target in
  let target := if nonempty (sp_scheme r) then sp_scheme r +:+ ":" +:+ target else target in
  let target := if nonempty (sp_query r) then target +:+ "?" +:+ sp_query r else target in
  if nonempty (sp_fragment r) then target +:+ "#" +:+ sp_fragment r else target.

(** The loop of [urljoin] over the path segments. *)
Fixpoint resolve_segments (segments resolved : list string) : list string :=
  match segments with
  | [] => resolved
  | seg :: segments' =>
      if String.eqb seg ".." then resolve_segments segments' (removelast resolved)
      else if String.eqb seg "." then resolve_segments segments' resolved
      else resolve_segments segments' (resolved ++ [seg])
  end.

(** [segments[1:-1] = filter(None, segments[1:-1])]. *)
Definition drop_inner_empty (segments : list string) : list string :=
  match segments with
  | first :: (_ :: _) as others =>
      first :: List.filter nonempty (removelast others) ++ [List.last others EmptyString]
  | _ => segments
  end.

Definition urljoin (base target : string) : exn + string :=
  if negb (nonempty base) then inr target
  else if negb (nonempty target) then inr base
  else
    b <-! urlsplit base EmptyString ;;
    u <-! urlsplit target (sp_scheme b) ;;
    if negb (String.eqb (sp_scheme u) (sp_scheme b)) || negb (among (sp_scheme u) uses_relative)
    then inr target
    else if among (sp_scheme u) uses_netloc && nonempty (sp_netloc u)
    then inr (urlunsplit u)
    else
      let netloc := if among (sp_scheme u) uses_netloc then sp_netloc b else sp_netloc u in
      if negb (nonempty (sp_path u))
      then inr (urlunsplit
                  (Build_SplitResult (sp_scheme u) netloc (sp_path b)
                     (if nonempty (sp_query u) then sp_query u else sp_query b)
                     (sp_fragment u)))
      else
        let base_parts := split_on "/"%char (sp_path b) in
        let base_parts :=
          if nonempty (List.last base_parts EmptyString)
          then removelast base_parts else base_parts in
        let segments :=
          if starts_with "/" (sp_path u) then split_on "/"%char (sp_path u)
          else drop_inner_empty (base_parts ++ split_on "/"%char (sp_path u)) in
        let resolved := resolve_segments segments [] in
        let resolved :=
          if among (List.last segments EmptyString) ["."; ".."]
          then resolved ++ [EmptyString] else resolved in
        let path := join "/" resolved in
        inr (urlunsplit
               (Build_SplitResult (sp_scheme u) netloc
                  (if nonempty path then path else "/")
                  (sp_query u) (sp_fragment u))).

Definition urlparse (target : string) : exn + ParseResult :=
  r <-! urlsplit target EmptyString ;;
  inr {| scheme := sp_scheme r; netloc := sp_netloc r |}.

End Urllib.

Module JsonDecoder.

Definition dquote : ascii := ascii_of_nat 34.

Definition is_ws (c : ascii) : bool :=
  let n := nat_of_ascii c in
  ((n =? 32) || (n =? 9) || (n =? 10) || (n =? 13))%nat.

Fixpoint skip_ws (s : string) : string :=
  match s with
  | EmptyString => EmptyString
  | String c s' => if is_ws c then skip_ws s' else s
  end.

(** The next character that is no whitespace, and what follows it. *)
Definition next (s : string) : option (ascii * string) :=
  match skip_ws s with
  | EmptyString => None
  | String c s' => Some (c, s')
  end.

(** After the opening quote: the characters up to the closing one. *)
Fixpoint scan_string (s : string) : option (string * string) :=
  match s with
  | EmptyString => None
  | String c s' =>
      if Ascii.eqb c dquote then Some (EmptyString, s')
      else if Ascii.eqb c "\"%char || (nat_of_ascii c <? 32)%nat then None
      else match scan_string s' with
           | Some (body, rest) => Some (String c body, rest)
           | None => None
           end
  end.

Fixpoint scan_digits (s : string) : string * string :=
  match s with
  | EmptyString => (EmptyString, EmptyString)
  | String c s' =>
      if Urllib.is_digit c
      then let '(digits, rest) := scan_digits s' in (String c digits, rest)
      else (EmptyString, s)
  end.

Fixpoint digits_value (acc : Z) (digits : string) : Z :=
  match digits with
  | EmptyString => acc
  | String c digits' => digits_value (10 * acc + (Z.of_nat (nat_of_ascii c) - 48)) digits'
  end.

Definition scan_number (s : string) : option (Z * string) :=
  let '(negative, s) :=
    match s with
    | String "-"%char s' => (true, s')
    | _ => (false, s)
    end in
  let '(digits, rest) := scan_digits s in
  let well_formed :=
    match digits with
    | EmptyString => false
    | String "0"%char (String _ _) => false
    | _ => true
    end in
  let continues :=
    match rest with
    | String c _ => Ascii.eqb c "."%char || Ascii.eqb c "e"%char || Ascii.eqb c "E"%char
    | EmptyString => false
    end in
  if well_formed && negb continues
  then Some (if negative then - digits_value 0 digits else digits_value 0 digits, rest)
  else None.

Definition scan_literal (word : string) (v : json) (s : string) : option (json * string) :=
  if String.prefix word s
  then Some (v, String.substring (String.length word) (String.length s) s)
  else None.

(** A key decoded again replaces the value and keeps its place. *)
Fixpoint set_member (key : string) (v : json) (members : list (string * json))
    : list (string * json) :=
  match members with
  | [] => [(key, v)]
  | (k, v') :: members' =>
      if String.eqb k key then (key, v) :: members'
      else (k, v') :: set_member key v members'
  end.

Fixpoint value (fuel : nat) (s : string) : option (json * string) :=
  match fuel with
  | O => None
  | S fuel' =>
      match next s with
      | None => None
      | Some (c, rest) =>
          if Ascii.eqb c "["%char then
            match next rest with
            | Some (c', rest') =>
                if Ascii.eqb c' "]"%char then Some (JArr [], rest')
                else match elements fuel' rest with
                     | Some (items, rest'') => Some (JArr items, rest'')
                     | None => None
                     end
            | None => None
            end
          else if Ascii.eqb c "{"%char then
            match next rest with
            | Some (c', rest') =>
                if Ascii.eqb c' "}"%char then Some (JObj [], rest')
                else match members fuel' rest [] with
                     | Some (ms, rest'') => Some (JObj ms, rest'')
                     | None => None
                     end
            | None => None
            end
          else if Ascii.eqb c dquote then
            match scan_string rest with
            | Some (body, rest') => Some (JStr body, rest')
            | None => None
            end
          else if Ascii.eqb c "t"%char then scan_literal "true" (JBool true) (String c rest)
          else if Ascii.eqb c "f"%char then scan_literal "false" (JBool false) (String c rest)
          else if Ascii.eqb c "n"%char then scan_literal "null" JNull (String c rest)
          else match scan_number (String c rest) with
               | Some (n, rest') => Some (JNum n, rest')
               | None => None
               end
      end
  end
with elements (fuel : nat) (s : string) : option (list json * string) :=
  match fuel with
  | O => None
  | S fuel' =>
      match value fuel' s with
      | Some (v, rest) =>
          match next rest with
          | Some (c, rest') =>
              if Ascii.eqb c ","%char then
                match elements fuel' rest' with
                | Some (vs, rest'') => Some (v :: vs, rest'')
                | None => None
                end
              else if Ascii.eqb c "]"%char then Some ([v], rest')
              else None
          | None => None
          end
      | None => None
      end
  end
with members (fuel : nat) (s : string) (acc : list (string * json))
    : option (list (string * json) * string) :=
  match fuel with
  | O => None
  | S fuel' =>
      match next s with
      | Some (q, rest) =>
          if Ascii.eqb q dquote then
            match scan_string rest with
            | Some (key, rest) =>
                match next rest with
                | Some (colon, rest) =>
                    if Ascii.eqb colon ":"%char then
                      match value fuel' rest with
                      | Some (v, rest) =>
                          match next rest with
                          | Some (c, rest') =>
                              if Ascii.eqb c ","%char
                              then members fuel' rest' (set_member key v acc)
                              else if Ascii.eqb c "}"%char
                              then Some (set_member key v acc, rest')
                              else None
                          | None => None
                          end
                      | None => None
                      end
                    else None
                | None => None
                end
            | None => None
            end
          else None
      | None => None
      end
  end.

(** [json.loads]. *)
Definition loads (s : string) : exn + json :=
  match value (2 * String.length s + 2) s with
  | Some (v, rest) =>
      match skip_ws rest with
      | EmptyString => inr v
      | _ => inl (Exn JSONDecodeError "Extra data")
      end
  | None => inl (Exn JSONDecodeError "Expecting value")
  end.

End JsonDecoder.

(** An environment with the reference [urllib] and [json], a browser that
    always hands out a page, a model without latency and a fixed jitter
    of half a second. *)
Definition reference_env (llm : nat -> string -> exn + string) (pages : string -> Page)
    : Env :=
  {| llm_invoke := llm;
     llm_latency := fun _ => 0%N;
     json_loads := JsonDecoder.loads;
     random_uniform := fun _ => 500000;
     urljoin := Urllib.urljoin;
     urlparse := Urllib.urlparse;
     new_page := fun _ => inr tt;
     page_for := pages |}.

(** The state at the start of a run of [Analyzer(rate_limit)]. *)
Definition start (rate_limit : Z) : World :=
  mkWorld 0 (RateLimit.init rate_limit 60) 0 0 [] 0 [].

(** ** Scenarios *)

Definition anchor (href text : string) : ElementHandle :=
  {| get_attribute := inr (Some href); inner_text := inr text |}.

(** A page that loads at once and serves [html] and [anchors]. *)
Definition static_page (final_url : string) (html : Soup.markup)
    (anchors : list ElementHandle) : Page :=
  {| goto := inr tt; load_time := 0%N; wait_for_timeout := inr tt;
     page_url := final_url; page_content := inr html;
     query_selector_all := inr anchors; page_close := inr tt |}.

(** A page whose navigation times out. *)
Definition timeout_page (target : string) : Page :=
  {| goto := inl (Exn NavigationError "Timeout 30000ms exceeded.");
     load_time := 30000000%N; wait_for_timeout := inr tt;
     page_url := target; page_content := inr [];
     query_selector_all := inr []; page_close := inr tt |}.

(** A support page with a mail link and a link into the site. *)
Definition support_page : Page :=
  static_page "https://example.com/"
    [Soup.Tag "h1" [] [Soup.NavigableString "Welcome"];
     Soup.Tag "p" [] [Soup.NavigableString "We are here for you."]]
    [anchor "mailto:support@example.com" "Email support";
     anchor "/help" "Help center"].

(** A page with an "About Us" heading, and a model that names that
    category and the site type. *)
Definition about_page : Page :=
  static_page "https://example.com/about"
    [Soup.Tag "h2" [] [Soup.NavigableString "About Us"];
     Soup.Tag "p" [] [Soup.NavigableString "We build things."]]
    [anchor "/company" "About us"; anchor "/company" "Who we are"].

Definition about_llm (n : nat) (prompt : string) : exn + string :=
  match n with
  | O => inr ("Here you go: [{" +:+ PyStr.quote +:+ "category_name" +:+ PyStr.quote +:+ ": "
              +:+ PyStr.quote +:+ "About Us" +:+ PyStr.quote +:+ ", " +:+ PyStr.quote +:+ "text"
              +:+ PyStr.quote +:+ ": " +:+ PyStr.quote +:+ PyStr.quote +:+ "}]")
  | _ => inr ("{" +:+ PyStr.quote +:+ "site_type" +:+ PyStr.quote +:+ ": "
              +:+ PyStr.quote +:+ "company" +:+ PyStr.quote +:+ "}")
  end.

(** Models that always fail with a quota error, always fail otherwise,
    and always answer in prose. *)
Definition quota_llm (n : nat) (prompt : string) : exn + string :=
  inl (Exn QuotaError "429 Resource has been exhausted (e.g. check quota).").

Definition failing_llm (n : nat) (prompt : string) : exn + string :=
  inl (Exn TransientError "503 The service is currently unavailable.").

Definition prose_llm (n : nat) (prompt : string) : exn + string :=
  inr "None of the listed categories applies to this page.".

(** The cap of the run's throttle. *)
Definition cap (w : World) : Z := RateLimit.max_requests_per_minute (rate_limiter w).

(** What the steps of the retry loop leave alone: the cap, the page
    handles, and a cooldown that is not active. *)
Definition preserved (w w' : World) : Prop :=
  cap w' = cap w /\
  pages_created w' = pages_created w /\
  open_pages w' = open_pages w /\
  (RateLimit.quota_exceeded (rate_limiter w) = false ->
   RateLimit.quota_exceeded (rate_limiter w') = false /\
   RateLimit.quota_reset_time (rate_limiter w')
   = RateLimit.quota_reset_time (rate_limiter w)).

(** ** The throttle over a run of requests *)

(** The requests of [log] made in the 60 seconds up to [t]. *)
Definition in_window (t u : Z) : bool := (t - seconds 60 <? u) && (u <=? t).

Definition requests_in_window (t : Z) (log : list Z) : nat :=
  length (List.filter (in_window t) log).

(** The instants at which the requests of a burst are recorded: what
    [RateLimit.burst] passes to [record_request], in order. *)
Fixpoint burst_log (sched : list (nat * nat)) (now : Z) (h : RateLimit.RateLimitHandler)
    : list Z :=
  match sched with
  | [] => []
  | (latency, gap) :: sched' =>
      let w := RateLimit.wait_if_needed now h in
      match RateLimit.raised w with
      | Some _ => []
      | None =>
          let called := now + total (RateLimit.sleeps w) + Z.of_nat latency in
          called :: burst_log sched' (called + Z.of_nat gap)
                      (RateLimit.record_request called (RateLimit.handler w))
      end
  end.

(** What the throttle keeps true of the requests [past] recorded so far,
    at the instant [now]: none lies in the future; of those younger than
    60 seconds it holds every timestamp; they are no more than the cap;
    no request had more than the cap in the 60 seconds up to it; and the
    list of timestamps holds at most one more than the cap. *)
Definition throttled (past : list Z) (now : Z) (h : RateLimit.RateLimitHandler) : Prop :=
  (forall u, In u past -> u <= now) /\
  RateLimit.prune now past = RateLimit.prune now (RateLimit.requests_timestamps h) /\
  Z.of_nat (length (RateLimit.prune now past)) <= RateLimit.max_requests_per_minute h /\
  (forall t, In t past ->
     Z.of_nat (requests_in_window t past) <= RateLimit.max_requests_per_minute h) /\
  Z.of_nat (length (RateLimit.requests_timestamps h))
    <= RateLimit.max_requests_per_minute h + 1.

(** The requests of [log] made after [a] and up to [b]. *)
Definition requests_between (a b : Z) (log : list Z) : nat :=
  length (List.filter (fun u => (a <? u) && (u <=? b)) log).

(** A model whose answers hold a bracketed fragment that is no JSON. *)
Definition garbled_llm (n : nat) (prompt : string) : exn + string :=
  inr "Sure: [About Us, Other] and {site_type: blog}".

(** What a stretch of a run has cost: at most [calls] calls of the model,
    no more backoffs than calls, and no time gained. *)
Definition spent (calls : nat) (w w' : World) : Prop :=
  (llm_calls w <= llm_calls w' <= llm_calls w + calls)%nat /\
  (backoffs w <= backoffs w')%nat /\
  (backoffs w' - backoffs w <= llm_calls w' - llm_calls w)%nat /\
  clock w <= clock w'.

(** An anchor that the loop keeps as [u]: it has a reference, which
    resolves to [u], on the site, and reference or text hold a keyword. *)
Definition kept_as (env : Env) (base_url domain : string) (keywords : list string)
    (a : ElementHandle) (u : string) : Prop :=
  exists href text parsed,
    get_attribute a = inr (Some href) /\ PyStr.nonempty href = true /\
    inner_text a = inr text /\
    urljoin env base_url href = inr u /\
    urlparse env u = inr parsed /\
    (PyStr.nonempty (netloc parsed) && negb (String.eqb (netloc parsed) domain)) = false /\
    PyStr.any_in keywords (PyStr.lower href +:+ " " +:+ PyStr.lower text) = true.

(** A page with a matching link and an anchor that went stale. *)
Definition stale_page : Page :=
  static_page "https://example.com/" []
    [anchor "/contact" "Contact us";
     {| get_attribute := inr (Some "/help");
        inner_text := inl (Exn PlaywrightError "Element is not attached to the DOM") |}].

(** ** The cleaned text *)

(** Lines 240-241: the soup after every [script], [style], [nav],
    [footer] and [aside] element was decomposed; [clean_text] takes its
    text from it. *)
Definition decomposed (tags : list string) (soup : Soup.node) : Soup.node :=
  fold_left (fun soup tag => Soup.remove_tag tag soup) tags soup.

Definition noise_tags : list string := ["script"; "style"; "nav"; "footer"; "aside"].

(** Whitespace in normal form: every whitespace character is a space
    and no two follow each other; [after_space] says that the previous
    character was one. *)
Fixpoint single_spaced_from (after_space : bool) (s : string) : bool :=
  match s with
  | EmptyString => true
  | String c s' =>
      if PyStr.is_space c
      then Ascii.eqb c " "%char && negb after_space && single_spaced_from true s'
      else single_spaced_from false s'
  end.

Definition single_spaced (s : string) : bool := single_spaced_from false s.

Definition starts_with_space (s : string) : bool :=
  match s with
  | EmptyString => false
  | String c _ => PyStr.is_space c
  end.

Fixpoint ends_with_space (s : string) : bool :=
  match s with
  | EmptyString => false
  | String c EmptyString => PyStr.is_space c
  | String _ s' => ends_with_space s'
  end.

(** ** What the assembly keeps *)

(** The names the loop of [analyze_url] reads from the categories, when
    each is an object with a string under ["category_name"]. *)
Definition category_names (categories : list json) : list string :=
  List.flat_map
    (fun cat => match PyJson.getitem cat "category_name" with
                | inr (JStr name) => [name]
                | _ => []
                end) categories.

(** Line 253: a snippet or a link was found for the name. *)
Definition found_something (env : Env) (html : Soup.markup) (page : Page)
    (final_url name : string) : bool :=
  PyStr.nonempty (extract_snippet html name)
  || negb (bool_decide (associate_links env page final_url name = [])).

Definition entry_for (env : Env) (html : Soup.markup) (page : Page)
    (final_url name : string) : CategoryContent :=
  {| entry_name := name;
     entry_text := extract_snippet html name;
     entry_links := associate_links env page final_url name |}.

(** A category the loop cannot use: no object, no ["category_name"], or
    a name that cannot be a key. *)
Definition unusable (cat : json) : Prop :=
  match PyJson.getitem cat "category_name" with
  | inl _ => True
  | inr (JArr _) | inr (JObj _) => True
  | inr _ => False
  end.

(** ** The batch driver *)

Definition default_urls : list string :=
  ["https://www.techcrunch.com"; "https://www.healthline.com"; "https://www.tesla.com";
   "https://www.nike.com"; "https://www.zendesk.com"; "https://www.ibm.com";
   "https://www.adobe.com"; "https://www.intel.com"; "https://www.forbes.com";
   "https://www.udemy.com"].

(** [load_urls].  [files path] is [None] when [os.path.exists(path)] is
    false, and otherwise what opening the file and reading its lines
    gives: the lines, or what [open] raises. *)
Definition load_urls (files : string -> option (exn + list string))
    (filepath : option string) : exn + list string :=
  match filepath with
  | Some path =>
      if PyStr.nonempty path then
        match files path with
        | Some read =>
            lines <-! read ;;
            inr (map PyStr.strip
                   (List.filter (fun l => PyStr.nonempty (PyStr.strip l)) lines))
        | None => inr default_urls
        end
      else inr default_urls
  | None => inr default_urls
  end.

(** Lines 301-307 of [main]: one [analyze_url] per URL, its record
    appended to [results], and two seconds of sleep after each. *)
Fixpoint process_urls (env : Env) (urls : list string) (results : list PageResult)
    (w : World) : list PageResult * World :=
  match urls with
  | [] => (results, w)
  | target :: urls' =>
      let '(result, w1) := analyze_url env target w in
      let '(_, w2) := advance (seconds 2) w1 in
      process_urls env urls' (results ++ [result]) w2
  end.

(** Lines 316-317: [not r["errors"]] holds of [None] and of the empty
    string. *)
Definition counted_as_success (r : PageResult) : bool :=
  match errors r with
  | None => true
  | Some description => negb (PyStr.nonempty description)
  end.

Definition success_count (results : list PageResult) : nat :=
  length (List.filter counted_as_success results).

Definition failure_count (results : list PageResult) : nat :=
  (length results - success_count results)%nat.

(** A file system with one list of URLs. *)
Definition one_file (path : string) (lines : list string)
    : string -> option (exn + list string) :=
  fun p => if String.eqb p path then Some (inr lines) else None.

(** A page whose content cannot be read, for a reason without words. *)
Definition wordless_page (target : string) : Page :=
  {| goto := inr tt; load_time := 0%N; wait_for_timeout := inr tt;
     page_url := target; page_content := inl (Exn PlaywrightError EmptyString);
     query_selector_all := inr []; page_close := inr tt |}.

(** The record of a page: a success with the page's final URL, or a
    failure with the URL as given. *)
Definition record_of (env : Env) (target : string) (r : PageResult) : Prop :=
  (errors r = None /\ URL r = page_url (page_for env target)) \/
  (exists description, errors r = Some description /\ URL r = target).

(** A record with an error description, empty or not. *)
Definition failed (r : PageResult) : bool :=
  match errors r with
  | None => false
  | Some _ => true
  end.

(** Every open page handle was created by the context. *)
Definition handles_known (w : World) : Prop :=
  forall h, In h (open_pages w) -> (h < pages_created w)%nat.

(** * Properties *)

(** ** The throttle *)

Section Throttle.
Import RateLimit.

Lemma total_app (a b : list Z) : total (a ++ b) = total a + total b.
Proof. unfold total. induction a as [|x a IH]; simpl; lia. Qed.

Lemma list_min_le_default (d : Z) (l : list Z) : list_min d l <= d.
Proof.
  revert d. induction l as [|t l IH]; intros d; simpl; [lia|].
  specialize (IH (Z.min d t)). lia.
Qed.

Lemma list_min_lower (d : Z) (l : list Z) (t : Z) :
  In t l -> list_min d l <= t.
Proof.
  revert d. induction l as [|x l IH]; intros d Hin; simpl in *; [contradiction|].
  destruct Hin as [->|Hin].
  - pose proof (list_min_le_default (Z.min d t) l). lia.
  - now apply IH.
Qed.

Lemma list_min_in (d : Z) (l : list Z) : In (list_min d l) (d :: l).
Proof.
  revert d. induction l as [|x l IH]; intros d; simpl; [now left|].
  destruct (IH (Z.min d x)) as [H|H].
  - rewrite <- H. destruct (Z.min_spec d x) as [[_ E]|[_ E]]; rewrite E; auto.
  - auto.
Qed.

Lemma py_min_spec (l : list Z) :
  l <> [] ->
  exists oldest, py_min l = inr oldest /\ In oldest l /\ forall t, In t l -> oldest <= t.
Proof.
  destruct l as [|x l]; [congruence|]. intros _.
  exists (list_min x l). split; [reflexivity|]. split.
  - apply list_min_in.
  - intros t [<-|Hin]; [apply list_min_le_default | now apply list_min_lower].
Qed.

Lemma prune_in (now t : Z) (ts : list Z) :
  In t (prune now ts) <-> In t ts /\ now - seconds 60 < t.
Proof. unfold prune. rewrite filter_In, Z.ltb_lt. tauto. Qed.

Lemma prune_all (now : Z) (ts : list Z) :
  (forall t, In t ts -> now - seconds 60 < t) -> prune now ts = ts.
Proof.
  unfold prune. induction ts as [|x ts IH]; intros H; simpl; [reflexivity|].
  assert (Hx : (now - seconds 60 <? x) = true) by (apply Z.ltb_lt, H; now left).
  rewrite Hx, IH; [reflexivity|]. intros t Ht. apply H. now right.
Qed.

Lemma cooldown_block_idle (now : Z) (h : RateLimitHandler) :
  quota_exceeded h = false -> cooldown_block now h = (h, []).
Proof. unfold cooldown_block. now intros ->. Qed.

(** The sliding-window block, case by case. *)
Lemma window_block_below (now : Z) (h : RateLimitHandler) :
  Z.of_nat (length (prune now (requests_timestamps h))) < max_requests_per_minute h ->
  sleeps (window_block now h) = [] /\ raised (window_block now h) = None.
Proof.
  intros Hlt. unfold window_block.
  destruct (Z.geb_spec (Z.of_nat (length (prune now (requests_timestamps h))))
              (max_requests_per_minute h)); [lia|]. now simpl.
Qed.

Lemma window_block_kept (now : Z) (h : RateLimitHandler) :
  requests_timestamps (handler (window_block now h)) = prune now (requests_timestamps h).
Proof.
  unfold window_block.
  destruct (_ >=? _); [|reflexivity].
  destruct (py_min _); [reflexivity|].
  now destruct (_ >? _).
Qed.

Lemma window_block_full (now : Z) (h : RateLimitHandler) :
  max_requests_per_minute h <= Z.of_nat (length (prune now (requests_timestamps h))) ->
  prune now (requests_timestamps h) <> [] ->
  exists oldest,
    In oldest (prune now (requests_timestamps h)) /\
    (forall t, In t (prune now (requests_timestamps h)) -> oldest <= t) /\
    sleeps (window_block now h) = [oldest + seconds 60 - now] /\
    raised (window_block now h) = None /\
    0 < oldest + seconds 60 - now /\
    ~ In oldest (prune (now + (oldest + seconds 60 - now)) (prune now (requests_timestamps h))).
Proof.
  intros Hge Hne.
  destruct (py_min_spec _ Hne) as (oldest & Hmin & Hin & Hle).
  exists oldest. unfold window_block.
  destruct (Z.geb_spec (Z.of_nat (length (prune now (requests_timestamps h))))
              (max_requests_per_minute h)); [|lia].
  rewrite Hmin.
  pose proof (proj1 (prune_in _ _ _) Hin) as [_ Hyoung].
  destruct (Z.gtb_spec (seconds 60 - (now - oldest)) 0); [|lia].
  simpl. repeat split; auto; try lia.
  - f_equal. lia.
  - rewrite prune_in. lia.
Qed.

(** A burst shorter than the window, against a throttle with room for all
    of it, never sleeps and leaves every request's timestamp in place. *)
Lemma burst_within_window (start : Z) (sched : list (nat * nat)) :
  forall (now : Z) (h : RateLimitHandler),
    quota_exceeded h = false ->
    (forall t, In t (requests_timestamps h) -> start <= t <= now) ->
    start <= now ->
    now + elapsed sched - start < seconds 60 ->
    Z.of_nat (length (requests_timestamps h) + length sched) <= max_requests_per_minute h ->
    exists h',
      burst sched now h = inr (now + elapsed sched, h', []) /\
      quota_exceeded h' = false /\
      max_requests_per_minute h' = max_requests_per_minute h /\
      length (requests_timestamps h') = (length (requests_timestamps h) + length sched)%nat /\
      (forall t, In t (requests_timestamps h') -> start <= t <= now + elapsed sched).
Proof.
  induction sched as [|[latency gap] sched IH]; intros now h Hq Hts Hstart Hel Hcap.
  - exists h. unfold elapsed; simpl. rewrite Z.add_0_r, Nat.add_0_r. auto.
  - assert (Hel' : elapsed ((latency, gap) :: sched)
                   = Z.of_nat latency + Z.of_nat gap + elapsed sched) by reflexivity.
    assert (Hpos : 0 <= elapsed sched).
    { clear. unfold elapsed. induction sched as [|p s IH]; simpl; lia. }
    assert (Hkeep : prune now (requests_timestamps h) = requests_timestamps h).
    { apply prune_all. intros t Ht. specialize (Hts t Ht). lia. }
    simpl in Hcap.
    assert (Hbelow : Z.of_nat (length (prune now (requests_timestamps h)))
                     < max_requests_per_minute h) by (rewrite Hkeep; lia).
    destruct (window_block_below now h Hbelow) as [Hs Hr].
    pose proof (window_block_kept now h) as Hk. rewrite Hkeep in Hk.
    assert (Hw : wait_if_needed now h
                 = Waited (handler (window_block now h)) [] None).
    { unfold wait_if_needed. rewrite (cooldown_block_idle now h Hq), Hs, Hr. reflexivity. }
    assert (Hqw : quota_exceeded (handler (window_block now h)) = false).
    { unfold window_block. destruct (_ >=? _); [|exact Hq].
      destruct (py_min _); [exact Hq|]. destruct (_ >? _); exact Hq. }
    assert (Hmw : max_requests_per_minute (handler (window_block now h))
                  = max_requests_per_minute h).
    { unfold window_block. destruct (_ >=? _); [|reflexivity].
      destruct (py_min _); [reflexivity|]. now destruct (_ >? _). }
    set (called := now + Z.of_nat latency).
    destruct (IH (called + Z.of_nat gap)
                 (record_request called (handler (window_block now h))))
      as (h' & Hb & Hq' & Hm' & Hlen & Hall).
    + exact Hqw.
    + simpl. rewrite Hk. intros t Ht. apply in_app_or in Ht.
      destruct Ht as [Ht|[<-|[]]]; [specialize (Hts t Ht)|]; subst called; lia.
    + subst called; lia.
    + subst called; lia.
    + simpl. rewrite Hk, length_app. simpl. rewrite Hmw. lia.
    + exists h'. simpl. rewrite Hw. simpl.
      replace (now + 0 + Z.of_nat latency) with called by (subst called; lia).
      rewrite Hb, Hel'. simpl in *. rewrite Hk, length_app in Hlen. simpl in Hlen.
      repeat split.
      * do 3 f_equal. subst called; lia.
      * exact Hq'.
      * now rewrite Hm'.
      * lia.
      * specialize (Hall t H). subst called. lia.
      * specialize (Hall t H). subst called. lia.
Qed.

(** C4. A fresh throttle with a cap of [N >= 1] requests per minute lets a
    burst of [N] requests (await a slot, call, record) through without
    sleeping when the burst takes less than the 60-second window, and the
    next [wait_if_needed] then sleeps once, for more than 0 and at most 60
    seconds.  In general, without cooldown, [wait_if_needed] keeps exactly
    the timestamps younger than 60 seconds, does not sleep while fewer
    than the cap remain, and otherwise sleeps until the oldest one kept
    leaves the window. *)
Theorem throttle_window_suspends (cap backoff_s t0 : Z) (sched : list (nat * nat)) :
  1 <= cap ->
  Z.of_nat (length sched) = cap ->
  elapsed sched < seconds 60 ->
  (exists h' w,
      burst sched t0 (init cap backoff_s) = inr (t0 + elapsed sched, h', []) /\
      sleeps (wait_if_needed (t0 + elapsed sched) h') = [w] /\
      raised (wait_if_needed (t0 + elapsed sched) h') = None /\
      0 < w <= seconds 60) /\
  (forall (now : Z) (h : RateLimitHandler),
      quota_exceeded h = false ->
      let kept := prune now (requests_timestamps h) in
      requests_timestamps (handler (wait_if_needed now h)) = kept /\
      (Z.of_nat (length kept) < max_requests_per_minute h ->
       sleeps (wait_if_needed now h) = []) /\
      (max_requests_per_minute h <= Z.of_nat (length kept) -> kept <> [] ->
       exists oldest,
         In oldest kept /\ (forall t, In t kept -> oldest <= t) /\
         sleeps (wait_if_needed now h) = [oldest + seconds 60 - now] /\
         0 < oldest + seconds 60 - now /\
         ~ In oldest (prune (now + (oldest + seconds 60 - now)) kept))).
Proof.
  intros Hcap Hlen Hel. split.
  - destruct (burst_within_window t0 sched t0 (init cap backoff_s))
      as (h' & Hb & Hq & Hm & Hl & Hall).
    { reflexivity. }
    { intros t []. }
    { lia. }
    { lia. }
    { simpl. lia. }
    simpl in Hm, Hl.
    set (now := t0 + elapsed sched) in *.
    assert (Hkeep : prune now (requests_timestamps h') = requests_timestamps h').
    { apply prune_all. intros t Ht. specialize (Hall t Ht). lia. }
    destruct (window_block_full now h') as (oldest & Hin & _ & Hs & Hr & Hpos & _).
    { rewrite Hkeep, Hl, Hm. lia. }
    { rewrite Hkeep. intros E. rewrite E in Hl. simpl in Hl. lia. }
    exists h', (oldest + seconds 60 - now).
    unfold wait_if_needed. rewrite (cooldown_block_idle now h' Hq), Hs, Hr.
    rewrite Hkeep in Hin. specialize (Hall oldest Hin).
    repeat split; auto; lia.
  - intros now h Hq kept. unfold wait_if_needed.
    rewrite (cooldown_block_idle now h Hq). simpl.
    split; [apply window_block_kept|]. split.
    + intros Hlt. now apply window_block_below.
    + intros Hge Hne.
      destruct (window_block_full now h Hge Hne) as (oldest & ? & ? & ? & ? & ? & ?).
      exists oldest. auto.
Qed.

(** A cap of two, two immediate requests: the third wait sleeps. *)
Lemma throttle_window_suspends_witness :
  (exists h' w,
      burst [(0%nat, 0%nat); (0%nat, 0%nat)] 0 (init 2 60)
        = inr (0 + elapsed [(0%nat, 0%nat); (0%nat, 0%nat)], h', []) /\
      sleeps (wait_if_needed (0 + elapsed [(0%nat, 0%nat); (0%nat, 0%nat)]) h') = [w] /\
      raised (wait_if_needed (0 + elapsed [(0%nat, 0%nat); (0%nat, 0%nat)]) h') = None /\
      0 < w <= seconds 60).
Proof.
  apply (throttle_window_suspends 2 60 0 [(0%nat, 0%nat); (0%nat, 0%nat)]);
    [lia | reflexivity | vm_compute; reflexivity].
Defined.




(** [handle_quota_error] itself does enter the cooldown: the flag is set
    and the expiry is the hint after now, or 3600 seconds after now when
    there is no hint or the hint is zero. *)
Lemma handle_quota_error_enters_cooldown (now : Z) (hint : option Z) (h : RateLimitHandler) :
  quota_exceeded (handle_quota_error now hint h) = true /\
  quota_reset_time (handle_quota_error now hint h)
  = Some (now + match hint with
                | Some d => if d =? 0 then seconds 3600 else d
                | None => seconds 3600
                end).
Proof. now split. Qed.

(** In cooldown with a full window, the window's wait, computed from the
    instant read on entry, follows the cooldown's. *)
Example cooldown_then_window :
  sleeps (wait_if_needed (seconds 1)
            (handle_quota_error 0 (Some (seconds 5)) (record_request 0 (init 1 60))))
  = [seconds 4; seconds 59].
Proof. reflexivity. Qed.

(** A cap of zero makes [wait_if_needed] raise: [min] of no timestamp. *)
Example zero_cap_raises :
  raised (wait_if_needed 0 (init 0 60))
  = Some (Exn ValueError "min() arg is an empty sequence").
Proof. reflexivity. Qed.

Lemma backoff_delay_in_range (k : nat) (jitter limit : Z) :
  (k < 1024)%nat -> backoff_delay k jitter limit = inr (exponential_delay k jitter limit).
Proof.
  intros Hk. unfold backoff_delay.
  replace (float_max_exp <=? k)%nat with false; [reflexivity|].
  symmetry. apply Nat.leb_gt. unfold float_max_exp. lia.
Qed.

Lemma backoff_delay_overflow (k : nat) (jitter limit : Z) :
  (1024 <= k)%nat ->
  backoff_delay k jitter limit = inl (Exn OverflowError "int too large to convert to float").
Proof.
  intros Hk. unfold backoff_delay.
  replace (float_max_exp <=? k)%nat with true; [reflexivity|].
  symmetry. apply Nat.leb_le. unfold float_max_exp. lia.
Qed.

Lemma backoff_in_range (jitter : Z) (h : RateLimitHandler) :
  (error_count h < 1024)%nat ->
  backoff jitter h
  = Waited
      (mkRateLimitHandler (max_requests_per_minute h) (requests_timestamps h)
         (quota_exceeded h) (quota_reset_time h) (max_backoff h) (S (error_count h)))
      [exponential_delay (error_count h) jitter (max_backoff h)] None.
Proof. intros Hk. unfold backoff. now rewrite backoff_delay_in_range. Qed.

Lemma backoff_overflow (jitter : Z) (h : RateLimitHandler) :
  (1024 <= error_count h)%nat ->
  backoff jitter h
  = Waited h [] (Some (Exn OverflowError "int too large to convert to float")).
Proof. intros Hk. unfold backoff. now rewrite backoff_delay_overflow. Qed.

(** Consecutive calls of [backoff] count up, as long as each returns. *)
Lemma backoff_counts_up (jitters : list Z) :
  forall h : RateLimitHandler,
    (error_count h + length jitters <= 1024)%nat ->
    error_count (fold_left (fun h j => handler (backoff j h)) jitters h)
    = (error_count h + length jitters)%nat.
Proof.
  induction jitters as [|j jitters IH]; intros h Hk; simpl in *; [lia|].
  rewrite IH; rewrite backoff_in_range by lia; simpl; lia.
Qed.

(** C9.  The specification has a delay for every attempt index.  The
    code has one only below index 1024.  There the delay of [backoff] at
    error count [k] is [min(2^k + jitter, max_backoff)]: it never exceeds
    [max_backoff]; it is non-negative when [max_backoff] is; whatever
    the draws of the jitter in [0, 1] second, the delay at [k] is at most
    the delay at any later count, hence so is its mean over any finite
    distribution of the jitter; [backoff] sleeps that delay and
    increments the count, and [record_request] sets the count back to
    zero, so that the next delay is again the first one of the schedule,
    [min(1 + jitter, max_backoff)].  From count 1024 on, which 1024
    calls of [backoff] in a row reach, the sum [2^k + jitter] has no
    float: [backoff] raises [OverflowError] before [min] can cap the
    delay; it does not sleep and leaves the count as it is, so that
    every later call raises as well. *)
Theorem backoff_delay_properties (h : RateLimitHandler) (jitter : Z) :
  0 <= jitter <= seconds 1 ->
  0 <= max_backoff h ->
  ((error_count h < 1024)%nat ->
   raised (backoff jitter h) = None /\
   sleeps (backoff jitter h)
     = [Z.min (seconds (2 ^ Z.of_nat (error_count h)) + jitter) (max_backoff h)] /\
   error_count (handler (backoff jitter h)) = S (error_count h)) /\
  (forall k, (k < 1024)%nat ->
     exists delay,
       backoff_delay k jitter (max_backoff h) = inr delay /\
       delay = Z.min (seconds (2 ^ Z.of_nat k) + jitter) (max_backoff h) /\
       0 <= delay <= max_backoff h) /\
  (forall (k k' : nat) (u u' delay delay' : Z),
      (k < k')%nat -> 0 <= u <= seconds 1 -> 0 <= u' <= seconds 1 ->
      backoff_delay k u (max_backoff h) = inr delay ->
      backoff_delay k' u' (max_backoff h) = inr delay' ->
      delay <= delay') /\
  (forall (k k' : nat) (draws : list Z),
      (k <= k')%nat -> (k' < 1024)%nat ->
      Forall (fun u => backoff_delay k u (max_backoff h)
                       = inr (exponential_delay k u (max_backoff h)) /\
                       backoff_delay k' u (max_backoff h)
                       = inr (exponential_delay k' u (max_backoff h))) draws /\
      total (map (fun u => exponential_delay k u (max_backoff h)) draws)
        <= total (map (fun u => exponential_delay k' u (max_backoff h)) draws)) /\
  (forall now,
      error_count (record_request now h) = 0%nat /\
      raised (backoff jitter (record_request now h)) = None /\
      sleeps (backoff jitter (record_request now h))
        = [Z.min (seconds 1 + jitter) (max_backoff h)]) /\
  ((1024 <= error_count h)%nat ->
   raised (backoff jitter h)
     = Some (Exn OverflowError "int too large to convert to float") /\
   sleeps (backoff jitter h) = [] /\
   handler (backoff jitter h) = h) /\
  (forall (cap backoff_s : Z) (jitters : list Z),
      length jitters = 1024%nat ->
      let h' := fold_left (fun h j => handler (backoff j h)) jitters (init cap backoff_s) in
      error_count h' = 1024%nat /\
      raised (backoff jitter h')
        = Some (Exn OverflowError "int too large to convert to float") /\
      handler (backoff jitter h') = h').
Proof.
  intros Hj Hm.
  assert (Hpow : forall k k' : nat, (k <= k')%nat ->
                   2 ^ Z.of_nat k <= 2 ^ Z.of_nat k').
  { intros k k' Hk. apply Z.pow_le_mono_r; lia. }
  assert (Hpos : forall k : nat, 1 <= 2 ^ Z.of_nat k).
  { intros k. change 1 with (2 ^ Z.of_nat 0). apply Hpow. lia. }
  split; [|split; [|split; [|split; [|split; [|split]]]]].
  - intros Hk. rewrite backoff_in_range by exact Hk. now split.
  - intros k Hk. eexists. split; [now apply backoff_delay_in_range|].
    split; [reflexivity|]. unfold exponential_delay.
    pose proof (Hpos k). unfold seconds in *. lia.
  - intros k k' u u' delay delay' Hk Hu Hu' Hd Hd'.
    assert (Hk' : (k' < 1024)%nat).
    { destruct (Nat.lt_ge_cases k' 1024) as [Hlt|Hge]; [exact Hlt|].
      rewrite backoff_delay_overflow in Hd' by exact Hge. discriminate. }
    rewrite backoff_delay_in_range in Hd by lia.
    rewrite backoff_delay_in_range in Hd' by lia.
    injection Hd as <-. injection Hd' as <-. unfold exponential_delay.
    pose proof (Hpow (S k) k' Hk) as Hs.
    rewrite Nat2Z.inj_succ, Z.pow_succ_r in Hs by lia.
    pose proof (Hpos k). unfold seconds in *. lia.
  - intros k k' draws Hk Hk'. split.
    + apply List.Forall_forall. intros u _.
      split; apply backoff_delay_in_range; lia.
    + induction draws as [|u draws IH]; simpl; [lia|].
      pose proof (Hpow k k' Hk). unfold exponential_delay at 1 3. unfold seconds in *. lia.
  - intros now. split; [reflexivity|]. now rewrite backoff_in_range by (simpl; lia).
  - intros Hk. rewrite backoff_overflow by exact Hk. now split.
  - intros cap backoff_s jitters Hlen h'.
    assert (Hc : error_count h' = 1024%nat).
    { subst h'. rewrite backoff_counts_up; simpl; lia. }
    split; [exact Hc|]. rewrite backoff_overflow by lia. now split.
Qed.

(** The analyzer's throttle after 1024 failures in a row, half a second
    of jitter. *)
Lemma backoff_delay_properties_witness :
  raised (backoff 500000 (mkRateLimitHandler 5 [] false None (seconds 60) 1024))
  = Some (Exn OverflowError "int too large to convert to float") /\
  sleeps (backoff 500000 (mkRateLimitHandler 5 [] false None (seconds 60) 1024)) = [] /\
  sleeps (backoff 500000 (handler (backoff 0 (init 5 60)))) = [2500000].
Proof.
  assert (Hj : 0 <= 500000 <= seconds 1) by (unfold seconds; lia).
  assert (Hm : 0 <= seconds 60) by (unfold seconds; lia).
  pose proof (backoff_delay_properties
                (mkRateLimitHandler 5 [] false None (seconds 60) 1024) 500000 Hj Hm)
    as (_ & _ & _ & _ & _ & Hover & _).
  pose proof (backoff_delay_properties (handler (backoff 0 (init 5 60))) 500000 Hj Hm)
    as (Hin & _).
  destruct Hover as (Hr & Hs & _); [simpl; lia|].
  destruct Hin as (_ & Hs' & _); [simpl; lia|].
  exact (conj Hr (conj Hs Hs')).
Defined.

End Throttle.

(** ** The snippet extractor *)

Section SnippetFacts.
Import PyStr Soup.

Lemma slice_to_length (n : nat) (s : string) : (String.length (slice_to n s) <= n)%nat.
Proof.
  revert s. induction n as [|n IH]; intros [|c s]; simpl; try lia.
  specialize (IH s). lia.
Qed.

Lemma slice_to_nonempty (n : nat) (s : string) :
  nonempty s = true -> nonempty (slice_to (S n) s) = true.
Proof. now destruct s. Qed.

Local Arguments slice_to : simpl never.

Lemma lower_nonempty (s : string) : nonempty (lower s) = nonempty s.
Proof. now destruct s. Qed.

Lemma contains_nonempty (kw s : string) :
  nonempty kw = true -> contains kw s = true -> nonempty s = true.
Proof. destruct kw; [discriminate|]. now destruct s. Qed.

(** Every keyword of every category is a non-empty string. *)
Lemma keywords_nonempty (category : string) :
  forallb nonempty (keywords_of category) = true.
Proof.
  unfold keywords_of. destruct (CATEGORY_KEYWORDS !! category) as [kws|] eqn:E; [|reflexivity].
  apply elem_of_list_to_map_2 in E. simpl.
  repeat (apply elem_of_cons in E as [E|E]; [injection E as -> ->; reflexivity|]).
  now apply elem_of_nil in E.
Qed.

Lemma any_in_nonempty (keywords : list string) (text : string) :
  forallb nonempty keywords = true -> any_in keywords text = true -> nonempty text = true.
Proof.
  unfold any_in. induction keywords as [|kw kws IH]; simpl; [discriminate|].
  intros [Hkw Hkws]%andb_prop [H|H]%orb_prop; eauto using contains_nonempty.
Qed.

Lemma snippet_from_headings_length keywords elems s :
  snippet_from_headings keywords elems = Some s -> (String.length s <= 500)%nat.
Proof.
  induction elems as [|e elems IH]; simpl; [discriminate|].
  destruct (_ && _); [|exact IH]. intros [= <-]. apply slice_to_length.
Qed.

Lemma snippet_from_container_length keywords c s :
  snippet_from_container keywords c = Some s -> (String.length s <= 500)%nat.
Proof.
  destruct c as [el|]; simpl; [|discriminate].
  destruct (any_in _ _); [|discriminate]. intros [= <-]. apply slice_to_length.
Qed.

Lemma snippet_from_classes_length keywords soup classes s :
  snippet_from_classes keywords soup classes = Some s -> (String.length s <= 500)%nat.
Proof.
  induction classes as [|cls classes IH]; simpl; [discriminate|].
  destruct (snippet_from_container _ _) as [s'|] eqn:E; [|exact IH].
  intros [= <-]. eauto using snippet_from_container_length.
Qed.

Lemma extract_snippet_length (html : markup) (category : string) :
  (String.length (extract_snippet html category) <= 500)%nat.
Proof.
  unfold extract_snippet.
  destruct (snippet_from_headings _ _) eqn:E1; [eauto using snippet_from_headings_length|].
  destruct (snippet_from_container _ (find "article" _)) eqn:E2;
    [eauto using snippet_from_container_length|].
  destruct (snippet_from_container _ (find "main" _)) eqn:E3;
    [eauto using snippet_from_container_length|].
  destruct (snippet_from_classes _ _ _) eqn:E4;
    [eauto using snippet_from_classes_length|].
  simpl; lia.
Qed.

(** No heading whose text matches: the first tier yields nothing. *)
Lemma snippet_from_headings_none keywords elems :
  existsb (fun t => any_in keywords (lower t))
    (map (get_text " ") (List.filter (is_tag ["h1"; "h2"; "h3"]) elems)) = false ->
  snippet_from_headings keywords elems = None.
Proof.
  induction elems as [|e elems IH]; simpl; [reflexivity|].
  destruct (is_tag _ e) eqn:Et; simpl; [|exact IH].
  intros [-> H]%orb_false_elim. auto.
Qed.

(** A heading whose text matches: the first tier decides, and its result
    is cut from the elements that follow the first such heading. *)
Lemma snippet_from_headings_some keywords elems :
  existsb (fun t => any_in keywords (lower t))
    (map (get_text " ") (List.filter (is_tag ["h1"; "h2"; "h3"]) elems)) = true ->
  exists before heading following,
    elems = before ++ heading :: following /\
    is_tag ["h1"; "h2"; "h3"] heading = true /\
    any_in keywords (lower (get_text " " heading)) = true /\
    snippet_from_headings keywords before = None /\
    snippet_from_headings keywords elems
    = Some (slice_to 500
              (join " " (map (get_text " ")
                           (take 3 (List.filter (is_tag ["p"; "div"]) following))))).
Proof.
  induction elems as [|e elems IH]; simpl; [discriminate|].
  destruct (is_tag _ e) eqn:Et; simpl.
  - destruct (any_in keywords (lower (get_text " " e))) eqn:Em; simpl.
    + intros _. exists [], e, elems. simpl. auto.
    + intros H. destruct (IH H) as (b & h & f & -> & ? & ? & ? & ?).
      exists (e :: b), h, f. simpl. rewrite Et, Em. simpl. auto.
  - intros H. destruct (IH H) as (b & h & f & -> & ? & ? & ? & ?).
    exists (e :: b), h, f. simpl. rewrite Et. simpl. auto.
Qed.

Lemma snippet_from_container_spec keywords c :
  snippet_from_container keywords c
  = match c with
    | Some el =>
        if any_in keywords (lower (get_text " " el))
        then Some (slice_to 500 (get_text " " el)) else None
    | None => None
    end.
Proof. reflexivity. Qed.

Lemma snippet_from_container_nonempty keywords c s :
  forallb nonempty keywords = true ->
  snippet_from_container keywords c = Some s -> nonempty s = true.
Proof.
  intros Hk. destruct c as [el|]; simpl; [|discriminate].
  destruct (any_in _ _) eqn:E; [|discriminate]. intros [= <-].
  apply slice_to_nonempty. rewrite <- lower_nonempty. eauto using any_in_nonempty.
Qed.

Lemma snippet_from_classes_nonempty keywords soup classes s :
  forallb nonempty keywords = true ->
  snippet_from_classes keywords soup classes = Some s -> nonempty s = true.
Proof.
  intros Hk. induction classes as [|cls classes IH]; simpl; [discriminate|].
  destruct (snippet_from_container _ _) as [s'|] eqn:E; [|exact IH].
  intros [= <-]. eauto using snippet_from_container_nonempty.
Qed.

Lemma snippet_from_container_none keywords c :
  snippet_from_container keywords c = None ->
  existsb (fun t => any_in keywords (lower t))
    (match c with Some el => [get_text " " el] | None => [] end) = false.
Proof.
  destruct c as [el|]; simpl; [|reflexivity].
  destruct (any_in _ _); [discriminate|reflexivity].
Qed.

Lemma snippet_from_classes_none keywords soup classes :
  snippet_from_classes keywords soup classes = None ->
  existsb (fun t => any_in keywords (lower t))
    (List.flat_map (fun c => match c with Some el => [get_text " " el] | None => [] end)
       (map (fun cls => find_div_class cls soup) classes)) = false.
Proof.
  induction classes as [|cls classes IH]; simpl; [reflexivity|].
  destruct (snippet_from_container _ _) eqn:E; [discriminate|].
  intros H. rewrite existsb_app, (snippet_from_container_none _ _ E). simpl. auto.
Qed.

(** C6 (amended). [extract_snippet] returns at most 500 characters.  When
    the text of some heading of level 1 to 3 contains a keyword of the
    category, the result is cut from the elements after the first such
    heading: the first 500 characters of the texts of the next three [p]
    or [div] elements, joined by spaces, which is the empty string when
    no such element follows.  When no heading matches and the text of
    the article container, of the main container or of a content-class
    container contains a keyword, the result is not empty. *)
Theorem extract_snippet_tiers (html : markup) (category : string) :
  (String.length (extract_snippet html category) <= 500)%nat /\
  (existsb (matches_keyword category) (heading_texts html) = true ->
   exists before heading following,
     descendants (BeautifulSoup html) = before ++ heading :: following /\
     is_tag ["h1"; "h2"; "h3"] heading = true /\
     matches_keyword category (get_text " " heading) = true /\
     snippet_from_headings (keywords_of category) before = None /\
     extract_snippet html category
     = slice_to 500
         (join " " (map (get_text " ")
                      (take 3 (List.filter (is_tag ["p"; "div"]) following)))) /\
     (List.filter (is_tag ["p"; "div"]) following = [] ->
      extract_snippet html category = EmptyString)) /\
  (existsb (matches_keyword category) (heading_texts html) = false ->
   existsb (matches_keyword category) (container_texts html) = true ->
   nonempty (extract_snippet html category) = true).
Proof.
  split; [apply extract_snippet_length|]. split.
  - intros H. destruct (snippet_from_headings_some _ _ H)
      as (b & h & f & E & Ht & Hm & Hb & Hs).
    exists b, h, f. unfold extract_snippet. rewrite Hs.
    split; [exact E|]. split; [exact Ht|]. split; [exact Hm|]. split; [exact Hb|].
    split; [reflexivity|]. intros Hnone. now rewrite Hnone.
  - intros Hh Hc. pose proof (keywords_nonempty category) as Hk.
    unfold extract_snippet.
    rewrite (snippet_from_headings_none _ _ Hh).
    destruct (snippet_from_container _ (find "article" _)) eqn:E2;
      [eauto using snippet_from_container_nonempty|].
    destruct (snippet_from_container _ (find "main" _)) eqn:E3;
      [eauto using snippet_from_container_nonempty|].
    destruct (snippet_from_classes _ _ _) eqn:E4;
      [eauto using snippet_from_classes_nonempty|].
    exfalso. unfold container_texts, containers in Hc.
    rewrite flat_map_app in Hc. cbn [List.flat_map] in Hc.
    rewrite app_nil_r, !existsb_app in Hc.
    unfold matches_keyword in Hc.
    rewrite (snippet_from_container_none _ _ E2),
            (snippet_from_container_none _ _ E3),
            (snippet_from_classes_none _ _ _ E4) in Hc.
    discriminate.
Qed.

(** An article that tells "our story", under a heading that does not. *)
Lemma extract_snippet_tiers_witness :
  nonempty
    (extract_snippet
       [Tag "h1" [] [NavigableString "Welcome"];
        Tag "article" [] [NavigableString "Our story began in a garage."]]
       "About Us") = true.
Proof.
  apply (extract_snippet_tiers
           [Tag "h1" [] [NavigableString "Welcome"];
            Tag "article" [] [NavigableString "Our story began in a garage."]]
           "About Us"); reflexivity.
Defined.

(** C6, as stated, fails: a heading that names the category and is
    followed by no paragraph or block yields the empty string. *)
Lemma extract_snippet_nonempty_counterexample :
  ~ (forall (html : markup) (category : string),
        existsb (matches_keyword category) (heading_texts html ++ container_texts html) = true ->
        nonempty (extract_snippet html category) = true).
Proof.
  intros H.
  specialize (H [Tag "h1" [] [NavigableString "About Us"]] "About Us").
  vm_compute in H. specialize (H eq_refl). discriminate.
Qed.

End SnippetFacts.

(** ** The link associator *)

Section LinkFacts.
Import PyStr.
Context (env : Env).

Lemma member_In (k : string) (keys : list string) : member k keys = true <-> In k keys.
Proof.
  unfold member. rewrite existsb_exists. split.
  - intros (x & Hx & E). apply String.eqb_eq in E. now subst.
  - intros H. exists k. split; [exact H | apply String.eqb_refl].
Qed.

Lemma filter_twice {A : Type} (f g : A -> bool) (l : list A) :
  List.filter f (List.filter g l) = List.filter (fun x => g x && f x) l.
Proof.
  induction l as [|x l IH]; simpl; [reflexivity|].
  destruct (g x); simpl; [destruct (f x)|]; now rewrite IH.
Qed.

Lemma member_app (k : string) (a b : list string) :
  member k (a ++ b) = member k a || member k b.
Proof. apply existsb_app. Qed.

Lemma member_singleton (y k : string) : member y [k] = String.eqb y k.
Proof. unfold member. simpl. apply orb_false_r. Qed.

Lemma fromkeys_fold_in (l acc : list string) (x : string) :
  In x (fold_left insert_key l acc) <-> In x acc \/ In x l.
Proof.
  revert acc. induction l as [|k l IH]; intros acc; simpl; [tauto|].
  rewrite IH. unfold insert_key. destruct (member k acc) eqn:E.
  - apply member_In in E. split; [tauto|]. intros [H|[<-|H]]; auto.
  - rewrite in_app_iff. simpl. tauto.
Qed.

Lemma insert_key_NoDup (acc : list string) (k : string) :
  List.NoDup acc -> List.NoDup (insert_key acc k).
Proof.
  intros Hacc. unfold insert_key. destruct (member k acc) eqn:E; [exact Hacc|].
  assert (Hk : ~ In k acc) by (rewrite <- member_In; congruence).
  clear E. induction acc as [|a acc IHa]; simpl.
  - constructor; [intros []|constructor].
  - inversion Hacc; subst. constructor.
    + rewrite in_app_iff. simpl. intros [H|[H|[]]]; [auto|]. subst. apply Hk. now left.
    + apply IHa; [assumption|]. intros H. apply Hk. now right.
Qed.

Lemma fromkeys_fold_NoDup (l acc : list string) :
  List.NoDup acc -> List.NoDup (fold_left insert_key l acc).
Proof.
  revert acc. induction l as [|k l IH]; intros acc Hacc; simpl; [exact Hacc|].
  apply IH. now apply insert_key_NoDup.
Qed.

(** Keys come out in the order of their first insertion. *)
Lemma fromkeys_fold_order (l acc : list string) :
  fold_left insert_key l acc
  = acc ++ List.filter (fun y => negb (member y acc)) (dict_fromkeys l).
Proof.
  unfold dict_fromkeys.
  revert acc. induction l as [|k l IH]; intros acc; cbn [fold_left].
  - simpl. now rewrite app_nil_r.
  - rewrite (IH (insert_key acc k)), (IH (insert_key [] k)).
    change (insert_key [] k) with [k]. unfold insert_key.
    rewrite List.filter_app. cbn [List.filter]. rewrite filter_twice.
    destruct (member k acc) eqn:E; cbn [negb app].
    + f_equal. apply List.filter_ext. intros y.
      rewrite member_singleton.
      destruct (member y acc) eqn:Ey; destruct (String.eqb_spec y k) as [Heq|Hne];
        simpl; try reflexivity. subst. congruence.
    + rewrite <- app_assoc. cbn [app]. do 2 f_equal.
      apply List.filter_ext. intros y.
      rewrite member_app, member_singleton, negb_orb. apply andb_comm.
Qed.

Lemma dict_fromkeys_cons (x : string) (l : list string) :
  dict_fromkeys (x :: l) = x :: List.filter (fun y => negb (String.eqb y x)) (dict_fromkeys l).
Proof.
  unfold dict_fromkeys at 1. cbn [fold_left]. change (insert_key [] x) with [x].
  rewrite fromkeys_fold_order. cbn [app]. f_equal.
  apply List.filter_ext. intros y. now rewrite member_singleton.
Qed.

Lemma dict_fromkeys_NoDup (l : list string) : List.NoDup (dict_fromkeys l).
Proof. apply fromkeys_fold_NoDup. constructor. Qed.

Lemma dict_fromkeys_In (l : list string) (x : string) : In x (dict_fromkeys l) <-> In x l.
Proof. unfold dict_fromkeys. rewrite fromkeys_fold_in. simpl. tauto. Qed.

Lemma collect_matches_same_site base_url domain keywords anchors :
  forall matches result,
    collect_matches env base_url domain keywords anchors matches = inr result ->
    Forall (same_site env domain) matches ->
    Forall (same_site env domain) result.
Proof.
  induction anchors as [|a anchors IH]; intros matches result; simpl.
  - now intros [= <-].
  - destruct (get_attribute a) as [e|href]; simpl; [discriminate|].
    destruct (inner_text a) as [e|text]; simpl; [discriminate|].
    destruct href as [[|c href]|]; [apply IH| |apply IH].
    destruct (urljoin env base_url (String c href)) as [e|abs_url]; simpl; [discriminate|].
    destruct (urlparse env abs_url) as [e|parsed] eqn:Ep; simpl; [discriminate|].
    destruct (nonempty (netloc parsed) && negb (String.eqb (netloc parsed) domain)) eqn:Eh;
      [apply IH|].
    destruct (any_in _ _); [|apply IH].
    intros Hc Hm. apply (IH _ _ Hc). apply Forall_app. split; [exact Hm|].
    constructor; [|constructor]. exists parsed. split; [exact Ep|].
    apply andb_false_iff in Eh as [Eh|Eh].
    + left. now destruct (netloc parsed).
    + right. apply negb_false_iff in Eh. now apply String.eqb_eq.
Qed.

Lemma take_In {A : Type} (n : nat) (l : list A) (x : A) : In x (take n l) -> In x l.
Proof.
  revert l. induction n as [|n IH]; intros [|y l]; simpl; try tauto.
  intros [H|H]; auto.
Qed.

Lemma take_NoDup {A : Type} (n : nat) (l : list A) : List.NoDup l -> List.NoDup (take n l).
Proof.
  revert l. induction n as [|n IH]; intros [|y l] H; simpl; try constructor.
  - inversion H; subst. intros Hin. apply take_In in Hin. contradiction.
  - inversion H; subst. now apply IH.
Qed.

Lemma take_length_le {A : Type} (n : nat) (l : list A) : (length (take n l) <= n)%nat.
Proof. revert l. induction n as [|n IH]; intros [|y l]; simpl; try lia. specialize (IH l). lia. Qed.

(** C7 (amended). [associate_links] returns at most 5 URLs, without
    duplicates: the first five keys, in order of first insertion, of the
    URLs the loop kept.  Every returned URL parses, and either has no
    host (an empty [netloc], as a [mailto:] reference has) or has the
    [netloc] of the base URL. *)
Theorem associate_links_bounded (page : Page) (base_url category : string) :
  let links := associate_links env page base_url category in
  (length links <= 5)%nat /\
  List.NoDup links /\
  Forall (fun u => exists base, urlparse env base_url = inr base /\
                                same_site env (netloc base) u) links /\
  match query_selector_all page, urlparse env base_url with
  | inr anchors, inr base =>
      match collect_matches env base_url (netloc base) (keywords_of category) anchors [] with
      | inr matches => links = take 5 (dict_fromkeys matches)
      | inl _ => links = []
      end
  | _, _ => links = []
  end /\
  (forall x l, dict_fromkeys (x :: l)
               = x :: List.filter (fun y => negb (String.eqb y x)) (dict_fromkeys l)).
Proof.
  unfold associate_links, associate_links_try.
  destruct (query_selector_all page) as [e|anchors]; simpl.
  { repeat split; auto using dict_fromkeys_cons; try constructor; simpl; lia. }
  destruct (urlparse env base_url) as [e|base]; simpl.
  { repeat split; auto using dict_fromkeys_cons; try constructor; simpl; lia. }
  destruct (collect_matches _ _ _ _ _ _) as [e|matches] eqn:Ec; simpl.
  { repeat split; auto using dict_fromkeys_cons; try constructor; simpl; lia. }
  split; [apply take_length_le|].
  split; [apply take_NoDup, dict_fromkeys_NoDup|].
  split; [|split; [reflexivity|apply dict_fromkeys_cons]].
  apply List.Forall_forall. intros u Hu.
  apply take_In in Hu. apply (proj1 (dict_fromkeys_In _ _)) in Hu.
  pose proof (collect_matches_same_site _ _ _ _ _ _ Ec (List.Forall_nil _)) as Hall.
  rewrite List.Forall_forall in Hall. exists base. split; [reflexivity|]. now apply Hall.
Qed.

End LinkFacts.

(** C7, as stated, fails: a [mailto:] reference that matches a keyword is
    returned, and its host is not the host of the base URL. *)
Lemma associate_links_host_counterexample :
  ~ (forall (env : Env) (page : Page) (base_url category u : string) (base parsed : ParseResult),
        In u (associate_links env page base_url category) ->
        urlparse env base_url = inr base ->
        urlparse env u = inr parsed ->
        netloc parsed = netloc base).
Proof.
  intros H.
  specialize (H (reference_env prose_llm (fun _ => support_page)) support_page
                "https://example.com/" "Contact/Support" "mailto:support@example.com"
                {| scheme := "https"; netloc := "example.com" |}
                {| scheme := "mailto"; netloc := EmptyString |}).
  assert (Hin : In "mailto:support@example.com"
                  (associate_links (reference_env prose_llm (fun _ => support_page))
                     support_page "https://example.com/" "Contact/Support")).
  { vm_compute. now left. }
  specialize (H Hin eq_refl eq_refl). discriminate.
Qed.

(** ** The classification calls *)

Section ClassifyFacts.
Import PyStr RateLimit.
Context (env : Env).

Lemma window_block_frame (now : Z) (h : RateLimitHandler) :
  max_requests_per_minute (handler (window_block now h)) = max_requests_per_minute h /\
  quota_exceeded (handler (window_block now h)) = quota_exceeded h /\
  quota_reset_time (handler (window_block now h)) = quota_reset_time h.
Proof.
  unfold window_block. destruct (_ >=? _); [|now simpl].
  destruct (py_min _); [now simpl|]. now destruct (_ >? _).
Qed.

Lemma window_block_returns (now : Z) (h : RateLimitHandler) :
  1 <= max_requests_per_minute h -> raised (window_block now h) = None.
Proof.
  intros Hcap. unfold window_block.
  destruct (Z.geb_spec (Z.of_nat (length (prune now (requests_timestamps h))))
              (max_requests_per_minute h)) as [Hge|]; [|reflexivity].
  destruct (prune now (requests_timestamps h)) as [|t kept]; [simpl in Hge; lia|].
  simpl. now destruct (_ >? _).
Qed.

Lemma cooldown_block_frame (now : Z) (h : RateLimitHandler) :
  max_requests_per_minute (fst (cooldown_block now h)) = max_requests_per_minute h /\
  (quota_exceeded h = false -> fst (cooldown_block now h) = h).
Proof.
  unfold cooldown_block. destruct (quota_exceeded h); [|now split].
  destruct (quota_reset_time h); [|now split].
  destruct (now <? z); now split.
Qed.

Lemma wait_if_needed_frame (now : Z) (h : RateLimitHandler) :
  max_requests_per_minute (handler (RateLimit.wait_if_needed now h))
    = max_requests_per_minute h /\
  (quota_exceeded h = false ->
   quota_exceeded (handler (RateLimit.wait_if_needed now h)) = false /\
   quota_reset_time (handler (RateLimit.wait_if_needed now h)) = quota_reset_time h) /\
  (1 <= max_requests_per_minute h -> raised (RateLimit.wait_if_needed now h) = None).
Proof.
  unfold RateLimit.wait_if_needed.
  destruct (cooldown_block_frame now h) as [Hc Hq].
  destruct (cooldown_block now h) as [h1 s1]. simpl in *.
  destruct (window_block_frame now h1) as (Hm & Hqe & Hqr).
  split; [congruence|]. split.
  - intros Hf. rewrite (Hq Hf) in *. split; congruence.
  - intros Hcap. apply window_block_returns. lia.
Qed.

Lemma wait_if_needed_keeps_backoff (now : Z) (h : RateLimitHandler) :
  error_count (handler (RateLimit.wait_if_needed now h)) = error_count h /\
  max_backoff (handler (RateLimit.wait_if_needed now h)) = max_backoff h.
Proof.
  unfold RateLimit.wait_if_needed, cooldown_block, window_block.
  destruct (quota_exceeded h); [destruct (quota_reset_time h) as [reset|];
    [destruct (now <? reset)|]|];
    simpl; destruct (_ >=? _); simpl; try (now split);
    destruct (py_min _); simpl; try (now split); destruct (_ >? _); now split.
Qed.

Lemma preserved_refl (w : World) : preserved w w.
Proof. unfold preserved. auto. Qed.

Lemma preserved_trans (w1 w2 w3 : World) :
  preserved w1 w2 -> preserved w2 w3 -> preserved w1 w3.
Proof.
  unfold preserved. intros (A1 & B1 & C1 & D1) (A2 & B2 & C2 & D2).
  split; [congruence|]. split; [congruence|]. split; [congruence|].
  intros Hq. destruct (D1 Hq) as [E1 F1]. destruct (D2 E1) as [E2 F2].
  split; congruence.
Qed.

Lemma wait_preserved (w : World) : preserved w (snd (limiter_wait_if_needed w)).
Proof.
  unfold preserved, limiter_wait_if_needed, cap. simpl.
  destruct (wait_if_needed_frame (clock w) (rate_limiter w)) as (A & B & _). auto.
Qed.

Lemma wait_returns (w : World) :
  1 <= cap w -> fst (limiter_wait_if_needed w) = inr tt.
Proof.
  intros Hcap. unfold limiter_wait_if_needed. simpl.
  destruct (wait_if_needed_frame (clock w) (rate_limiter w)) as (_ & _ & C).
  now rewrite (C Hcap).
Qed.

Lemma invoke_preserved (prompt : string) (w : World) : preserved w (snd (invoke env prompt w)).
Proof. unfold preserved, invoke, cap. simpl. auto. Qed.

Lemma record_preserved (w : World) : preserved w (snd (limiter_record_request w)).
Proof. unfold preserved, limiter_record_request, cap. simpl. auto. Qed.

Lemma backoff_preserved (w : World) : preserved w (snd (limiter_backoff env w)).
Proof.
  unfold preserved, limiter_backoff, cap, RateLimit.backoff.
  destruct (backoff_delay _ _ _); simpl; auto.
Qed.

Lemma wait_error_count (w : World) :
  error_count (rate_limiter (snd (limiter_wait_if_needed w))) = error_count (rate_limiter w) /\
  max_backoff (rate_limiter (snd (limiter_wait_if_needed w))) = max_backoff (rate_limiter w).
Proof. unfold limiter_wait_if_needed. simpl. apply wait_if_needed_keeps_backoff. Qed.

(** Below a count of 1024, [backoff] sleeps its delay and counts the
    error. *)
Lemma limiter_backoff_returns (w : World) :
  (error_count (rate_limiter w) < 1024)%nat ->
  limiter_backoff env w
  = (inr tt,
     mkWorld
       (clock w
        + Z.max 0 (exponential_delay (error_count (rate_limiter w))
                     (random_uniform env (backoffs w)) (max_backoff (rate_limiter w))))
       (mkRateLimitHandler (max_requests_per_minute (rate_limiter w))
          (requests_timestamps (rate_limiter w)) (quota_exceeded (rate_limiter w))
          (quota_reset_time (rate_limiter w)) (max_backoff (rate_limiter w))
          (S (error_count (rate_limiter w))))
       (llm_calls w) (S (backoffs w))
       (slept w ++ [exponential_delay (error_count (rate_limiter w))
                      (random_uniform env (backoffs w)) (max_backoff (rate_limiter w))])
       (pages_created w) (open_pages w)).
Proof.
  intros Hk. unfold limiter_backoff. cbv zeta.
  rewrite backoff_in_range by exact Hk. simpl. now rewrite Z.add_0_r.
Qed.

(** From a count of 1024 on, [backoff] takes its draw and raises. *)
Lemma limiter_backoff_raises (w : World) :
  (1024 <= error_count (rate_limiter w))%nat ->
  limiter_backoff env w
  = (inl (Exn OverflowError "int too large to convert to float"),
     mkWorld (clock w) (rate_limiter w) (llm_calls w) (S (backoffs w)) (slept w)
       (pages_created w) (open_pages w)).
Proof.
  intros Hk. unfold limiter_backoff. cbv zeta.
  rewrite backoff_overflow by exact Hk. simpl. now rewrite Z.add_0_r, app_nil_r.
Qed.

(** The handler of the loops: the next attempt follows a [backoff] that
    returns; one that raises ends the call. *)
Lemma backoff_then_returns {A : Type} (next : M A) (w : World) :
  (error_count (rate_limiter w) < 1024)%nat ->
  (_ <- limiter_backoff env ;; next) w = next (snd (limiter_backoff env w)).
Proof. intros Hk. unfold bind. now rewrite (limiter_backoff_returns w Hk). Qed.

Lemma backoff_then_raises {A : Type} (next : M A) (w : World) :
  (1024 <= error_count (rate_limiter w))%nat ->
  (_ <- limiter_backoff env ;; next) w
  = (inl (Exn OverflowError "int too large to convert to float"),
     snd (limiter_backoff env w)).
Proof. intros Hk. unfold bind. now rewrite (limiter_backoff_raises w Hk). Qed.

Lemma backoff_then_preserved {A : Type} (next : M A) (w : World) :
  (forall w', preserved w' (snd (next w'))) ->
  preserved w (snd ((_ <- limiter_backoff env ;; next) w)).
Proof.
  intros Hnext. unfold bind. pose proof (backoff_preserved w) as Hb.
  destruct (limiter_backoff env w) as [[e|[]] w']; simpl in *; [exact Hb|].
  eapply preserved_trans; [exact Hb|apply Hnext].
Qed.

(** One turn of the loop, spelled out. *)
Lemma classify_unfold (n : nat) (prompt : string) (parse : string -> exn + json)
    (fallback : json) (w : World) :
  classify env (S n) prompt parse fallback w
  = match limiter_wait_if_needed w with
    | (inl e, w1) => (inl e, w1)
    | (inr _, w1) =>
        match llm_invoke env (llm_calls w1) prompt with
        | inl _ =>
            (_ <- limiter_backoff env ;; classify env n prompt parse fallback)
              (snd (invoke env prompt w1))
        | inr response =>
            match parse response with
            | inl _ =>
                (_ <- limiter_backoff env ;; classify env n prompt parse fallback)
                  (snd (limiter_record_request (snd (invoke env prompt w1))))
            | inr v => (inr v, snd (limiter_record_request (snd (invoke env prompt w1))))
            end
        end
    end.
Proof.
  cbn [classify]. unfold bind, try_except, lift.
  destruct (limiter_wait_if_needed w) as [[e|[]] w1]; [reflexivity|].
  unfold invoke at 1. cbn [fst snd].
  destruct (llm_invoke env (llm_calls w1) prompt) as [e|response]; cbn [fst snd].
  - reflexivity.
  - unfold limiter_record_request at 1. cbn [fst snd].
    destruct (parse response); reflexivity.
Qed.

(** The two loops of the source are instances of the shared shape. *)
Lemma get_categories_loop_classify (text : string) :
  forall (n : nat) (w : World),
    get_categories_loop env n text w
    = classify env n (categories_prompt text) (parse_categories env) (JArr []) w.
Proof.
  induction n as [|n IH]; intros w; [reflexivity|].
  cbn [get_categories_loop classify]. unfold bind, try_except, lift, ret, parse_categories.
  destruct (limiter_wait_if_needed w) as [[e|[]] w1]; [reflexivity|].
  destruct (invoke env (categories_prompt text) w1) as [[e|response] w2].
  - destruct (limiter_backoff env w2) as [[e'|[]] w3]; [reflexivity|apply IH].
  - destruct (limiter_record_request w2) as [[e|[]] w3].
    + destruct (limiter_backoff env w3) as [[e'|[]] w4]; [reflexivity|apply IH].
    + destruct (Re.search _ _ _) as [group|]; [|reflexivity].
      destruct (json_loads env group); [|reflexivity].
      destruct (limiter_backoff env w3) as [[e'|[]] w4]; [reflexivity|apply IH].
Qed.

Lemma get_site_type_loop_classify (text : string) :
  forall (n : nat) (w : World),
    get_site_type_loop env n text w
    = classify env n (site_type_prompt text) (parse_site_type env) (JStr "other") w.
Proof.
  induction n as [|n IH]; intros w; [reflexivity|].
  cbn [get_site_type_loop classify].
  unfold bind, try_except, lift, ret, parse_site_type, and_then.
  destruct (limiter_wait_if_needed w) as [[e|[]] w1]; [reflexivity|].
  destruct (invoke env (site_type_prompt text) w1) as [[e|response] w2].
  - destruct (limiter_backoff env w2) as [[e'|[]] w3]; [reflexivity|apply IH].
  - destruct (limiter_record_request w2) as [[e|[]] w3].
    + destruct (limiter_backoff env w3) as [[e'|[]] w4]; [reflexivity|apply IH].
    + destruct (Re.search _ _ _) as [group|]; [|reflexivity].
      destruct (json_loads env group) as [e|decoded].
      * destruct (limiter_backoff env w3) as [[e'|[]] w4]; [reflexivity|apply IH].
      * destruct (PyJson.get decoded "site_type" (JStr "other")); [|reflexivity].
        destruct (limiter_backoff env w3) as [[e'|[]] w4]; [reflexivity|apply IH].
Qed.

Lemma classify_preserved (n : nat) (prompt : string) (parse : string -> exn + json)
    (fallback : json) :
  forall w, preserved w (snd (classify env n prompt parse fallback w)).
Proof.
  induction n as [|n IH]; intros w; [apply preserved_refl|].
  rewrite classify_unfold.
  pose proof (wait_preserved w) as Hw.
  destruct (limiter_wait_if_needed w) as [[e|[]] w1]; simpl in Hw; [exact Hw|].
  pose proof (invoke_preserved prompt w1) as Hi.
  pose proof (record_preserved (snd (invoke env prompt w1))) as Hr.
  destruct (llm_invoke env (llm_calls w1) prompt) as [e|response].
  - eapply preserved_trans; [exact Hw|]. eapply preserved_trans; [exact Hi|].
    apply backoff_then_preserved, IH.
  - destruct (parse response).
    + eapply preserved_trans; [exact Hw|]. eapply preserved_trans; [exact Hi|].
      eapply preserved_trans; [exact Hr|].
      apply backoff_then_preserved, IH.
    + simpl. eapply preserved_trans; [exact Hw|]. eapply preserved_trans; eauto.
Qed.

Lemma wait_counts (w : World) :
  llm_calls (snd (limiter_wait_if_needed w)) = llm_calls w /\
  backoffs (snd (limiter_wait_if_needed w)) = backoffs w.
Proof. now unfold limiter_wait_if_needed. Qed.

(** A failed attempt: one call, one [backoff], and the loop goes on. *)
Lemma classify_fail_step (n : nat) (prompt : string) (parse : string -> exn + json)
    (fallback : json) (w : World) :
  1 <= cap w ->
  (error_count (rate_limiter w) < 1024)%nat ->
  attempt_raises env parse (llm_calls w) prompt = true ->
  exists w1,
    classify env (S n) prompt parse fallback w = classify env n prompt parse fallback w1 /\
    llm_calls w1 = S (llm_calls w) /\ backoffs w1 = S (backoffs w) /\ preserved w w1 /\
    (error_count (rate_limiter w1) <= S (error_count (rate_limiter w)))%nat.
Proof.
  intros Hcap Hcount Hfail. rewrite classify_unfold.
  pose proof (wait_returns w Hcap) as Hret.
  pose proof (wait_preserved w) as Hw.
  destruct (wait_counts w) as [Hc Hb].
  destruct (wait_error_count w) as [He _].
  destruct (limiter_wait_if_needed w) as [[e|[]] w1]; simpl in *; [discriminate|].
  unfold attempt_raises in Hfail. rewrite <- Hc in Hfail.
  pose proof (invoke_preserved prompt w1) as Hi.
  pose proof (record_preserved (snd (invoke env prompt w1))) as Hr.
  destruct (llm_invoke env (llm_calls w1) prompt) as [e|response].
  - rewrite backoff_then_returns by (simpl; lia).
    eexists. split; [reflexivity|]. split; [simpl; congruence|]. split; [simpl; congruence|].
    split.
    + eapply preserved_trans; [exact Hw|]. eapply preserved_trans; [exact Hi|].
      apply backoff_preserved.
    + rewrite limiter_backoff_returns by (simpl; lia). simpl. lia.
  - destruct (parse response); [|discriminate].
    rewrite backoff_then_returns by (simpl; lia).
    eexists. split; [reflexivity|]. split; [simpl; congruence|]. split; [simpl; congruence|].
    split.
    + eapply preserved_trans; [exact Hw|]. eapply preserved_trans; [exact Hi|].
      eapply preserved_trans; [exact Hr|]. apply backoff_preserved.
    + rewrite limiter_backoff_returns by (simpl; lia). simpl. lia.
Qed.

(** A call that raises at a count of 1024 or more: [backoff] raises out
    of the handler, and out of the loop. *)
Lemma classify_overflow_step (n : nat) (prompt : string) (parse : string -> exn + json)
    (fallback : json) (w : World) (e : exn) :
  1 <= cap w ->
  (1024 <= error_count (rate_limiter w))%nat ->
  llm_invoke env (llm_calls w) prompt = inl e ->
  fst (classify env (S n) prompt parse fallback w)
  = inl (Exn OverflowError "int too large to convert to float") /\
  llm_calls (snd (classify env (S n) prompt parse fallback w)) = S (llm_calls w) /\
  error_count (rate_limiter (snd (classify env (S n) prompt parse fallback w)))
  = error_count (rate_limiter w).
Proof.
  intros Hcap Hcount Hraise. rewrite classify_unfold.
  pose proof (wait_returns w Hcap) as Hret.
  destruct (wait_counts w) as [Hc Hb].
  destruct (wait_error_count w) as [He _].
  destruct (limiter_wait_if_needed w) as [[e'|[]] w1]; simpl in *; [discriminate|].
  rewrite Hc, Hraise.
  rewrite backoff_then_raises by (simpl; lia).
  rewrite limiter_backoff_raises by (simpl; lia). simpl. auto.
Qed.

(** An attempt whose response parses: one call, no [backoff], and the
    parsed value is returned. *)
Lemma classify_ok_step (n : nat) (prompt : string) (parse : string -> exn + json)
    (fallback : json) (w : World) (response : string) (v : json) :
  1 <= cap w ->
  llm_invoke env (llm_calls w) prompt = inr response ->
  parse response = inr v ->
  exists w1,
    classify env (S n) prompt parse fallback w = (inr v, w1) /\
    llm_calls w1 = S (llm_calls w) /\ backoffs w1 = backoffs w /\ preserved w w1.
Proof.
  intros Hcap Hresp Hparse. rewrite classify_unfold.
  pose proof (wait_returns w Hcap) as Hret.
  pose proof (wait_preserved w) as Hw.
  destruct (wait_counts w) as [Hc Hb].
  destruct (limiter_wait_if_needed w) as [[e|[]] w1]; simpl in *; [discriminate|].
  rewrite Hc, Hresp, Hparse.
  eexists. split; [reflexivity|]. split; [simpl; congruence|]. split; [simpl; congruence|].
  exact (preserved_trans _ _ _ Hw
           (preserved_trans _ _ _ (invoke_preserved prompt w1) (record_preserved _))).
Qed.

Lemma classify_retries (prompt : string) (parse : string -> exn + json) (fallback : json)
    (response : string) (v : json) :
  forall (k n : nat) (w : World),
    (k < n)%nat ->
    1 <= cap w ->
    (error_count (rate_limiter w) + k <= 1024)%nat ->
    (forall i, (i < k)%nat -> attempt_raises env parse (llm_calls w + i) prompt = true) ->
    llm_invoke env (llm_calls w + k) prompt = inr response ->
    parse response = inr v ->
    exists w',
      classify env n prompt parse fallback w = (inr v, w') /\
      llm_calls w' = (llm_calls w + S k)%nat /\ backoffs w' = (backoffs w + k)%nat /\
      preserved w w'.
Proof.
  induction k as [|k IH]; intros n w Hk Hcap Hcount Hfail Hresp Hparse.
  - destruct n as [|n]; [lia|]. rewrite Nat.add_0_r in Hresp.
    destruct (classify_ok_step n prompt parse fallback w response v Hcap Hresp Hparse)
      as (w1 & E & Hc & Hb & Hp).
    exists w1. rewrite E. split; [reflexivity|]. split; [lia|]. split; [lia|exact Hp].
  - destruct n as [|n]; [lia|].
    destruct (classify_fail_step n prompt parse fallback w Hcap)
      as (w1 & E & Hc & Hb & Hp & He); [lia| |].
    { specialize (Hfail 0%nat). rewrite Nat.add_0_r in Hfail. apply Hfail. lia. }
    destruct (IH n w1) as (w' & E' & Hc' & Hb' & Hp').
    + lia.
    + destruct Hp as [-> _]. exact Hcap.
    + lia.
    + intros i Hi. rewrite Hc. replace (S (llm_calls w) + i)%nat with (llm_calls w + S i)%nat by lia.
      apply Hfail. lia.
    + rewrite Hc. replace (S (llm_calls w) + k)%nat with (llm_calls w + S k)%nat by lia.
      exact Hresp.
    + exact Hparse.
    + exists w'. rewrite E, E'. split; [reflexivity|]. split; [lia|]. split; [lia|].
      eapply preserved_trans; eauto.
Qed.

Lemma classify_exhausts (prompt : string) (parse : string -> exn + json) (fallback : json) :
  forall (n : nat) (w : World),
    1 <= cap w ->
    (error_count (rate_limiter w) + n <= 1024)%nat ->
    (forall i, (i < n)%nat -> attempt_raises env parse (llm_calls w + i) prompt = true) ->
    exists w',
      classify env n prompt parse fallback w = (inr fallback, w') /\
      llm_calls w' = (llm_calls w + n)%nat /\ backoffs w' = (backoffs w + n)%nat /\
      preserved w w'.
Proof.
  induction n as [|n IH]; intros w Hcap Hcount Hfail.
  - exists w. simpl. unfold ret. split; [reflexivity|]. split; [lia|]. split; [lia|].
    apply preserved_refl.
  - destruct (classify_fail_step n prompt parse fallback w Hcap)
      as (w1 & E & Hc & Hb & Hp & He); [lia| |].
    { specialize (Hfail 0%nat). rewrite Nat.add_0_r in Hfail. apply Hfail. lia. }
    destruct (IH w1) as (w' & E' & Hc' & Hb' & Hp').
    + destruct Hp as [-> _]. exact Hcap.
    + lia.
    + intros i Hi. rewrite Hc. replace (S (llm_calls w) + i)%nat with (llm_calls w + S i)%nat by lia.
      apply Hfail. lia.
    + exists w'. rewrite E, E'. split; [reflexivity|]. split; [lia|]. split; [lia|].
      eapply preserved_trans; eauto.
Qed.

(** Whatever the model raises, the loop treats it alike: the first
    attempt is spent, [backoff] runs, and no cooldown is entered, neither
    then nor later in the loop. *)
Lemma classify_enters_no_cooldown (n : nat) (prompt : string)
    (parse : string -> exn + json) (fallback : json) (w : World) (e : exn) :
  1 <= cap w ->
  llm_invoke env (llm_calls w) prompt = inl e ->
  quota_exceeded (rate_limiter w) = false ->
  ((error_count (rate_limiter w) < 1024)%nat ->
   exists w1,
      classify env (S n) prompt parse fallback w = classify env n prompt parse fallback w1 /\
      llm_calls w1 = S (llm_calls w) /\ backoffs w1 = S (backoffs w) /\
      quota_exceeded (rate_limiter w1) = false /\
      quota_reset_time (rate_limiter w1) = quota_reset_time (rate_limiter w)) /\
  ((1024 <= error_count (rate_limiter w))%nat ->
   fst (classify env (S n) prompt parse fallback w)
   = inl (Exn OverflowError "int too large to convert to float")) /\
  quota_exceeded (rate_limiter (snd (classify env (S n) prompt parse fallback w))) = false /\
  quota_reset_time (rate_limiter (snd (classify env (S n) prompt parse fallback w)))
  = quota_reset_time (rate_limiter w).
Proof.
  intros Hcap Hraise Hq. split; [|split].
  - intros Hcount.
    destruct (classify_fail_step n prompt parse fallback w Hcap Hcount)
      as (w1 & E & Hc & Hb & Hp & _).
    { unfold attempt_raises. now rewrite Hraise. }
    destruct Hp as (_ & _ & _ & Hp). destruct (Hp Hq) as [Hq1 Hr1].
    exists w1. auto.
  - intros Hcount.
    apply (classify_overflow_step n prompt parse fallback w e Hcap Hcount Hraise).
  - destruct (classify_preserved (S n) prompt parse fallback w) as (_ & _ & _ & Hp).
    exact (Hp Hq).
Qed.

(** C1.  The specification has a quota error of the model enter the
    throttle's cooldown.  The code does not: when the model raises a
    quota error, [get_categories] and [get_site_type] call [backoff]
    and retry, the failed call having spent one attempt (from a count
    of 1024 errors on, [backoff] raises and the call ends there), but
    [handle_quota_error] is not called: on every path the flag stays
    unset and the expiry unchanged, for the rest of the call as well. *)
Theorem quota_error_only_backs_off (text : string) (w : World) (e : exn) :
  1 <= cap w ->
  exn_kind e = QuotaError ->
  quota_exceeded (rate_limiter w) = false ->
  (llm_invoke env (llm_calls w) (categories_prompt text) = inl e ->
   ((error_count (rate_limiter w) < 1024)%nat ->
    exists w1,
       get_categories env text w
       = get_categories_loop env 2 text w1 /\
       llm_calls w1 = S (llm_calls w) /\ backoffs w1 = S (backoffs w) /\
       quota_exceeded (rate_limiter w1) = false /\
       quota_reset_time (rate_limiter w1) = quota_reset_time (rate_limiter w)) /\
   ((1024 <= error_count (rate_limiter w))%nat ->
    fst (get_categories env text w)
    = inl (Exn OverflowError "int too large to convert to float")) /\
   quota_exceeded (rate_limiter (snd (get_categories env text w))) = false /\
   quota_reset_time (rate_limiter (snd (get_categories env text w)))
   = quota_reset_time (rate_limiter w)) /\
  (llm_invoke env (llm_calls w) (site_type_prompt text) = inl e ->
   ((error_count (rate_limiter w) < 1024)%nat ->
    exists w1,
       get_site_type env text w
       = get_site_type_loop env 2 text w1 /\
       llm_calls w1 = S (llm_calls w) /\ backoffs w1 = S (backoffs w) /\
       quota_exceeded (rate_limiter w1) = false /\
       quota_reset_time (rate_limiter w1) = quota_reset_time (rate_limiter w)) /\
   ((1024 <= error_count (rate_limiter w))%nat ->
    fst (get_site_type env text w)
    = inl (Exn OverflowError "int too large to convert to float")) /\
   quota_exceeded (rate_limiter (snd (get_site_type env text w))) = false /\
   quota_reset_time (rate_limiter (snd (get_site_type env text w)))
   = quota_reset_time (rate_limiter w)).
Proof.
  intros Hcap _ Hq. split; intros Hraise.
  - unfold get_categories. rewrite get_categories_loop_classify.
    destruct (classify_enters_no_cooldown 2 _ (parse_categories env) (JArr []) w e
                Hcap Hraise Hq) as (H1 & H2 & H3).
    split; [|split; [exact H2|exact H3]].
    intros Hcount. destruct (H1 Hcount) as (w1 & E & H1').
    exists w1. now rewrite get_categories_loop_classify.
  - unfold get_site_type. rewrite get_site_type_loop_classify.
    destruct (classify_enters_no_cooldown 2 _ (parse_site_type env) (JStr "other") w e
                Hcap Hraise Hq) as (H1 & H2 & H3).
    split; [|split; [exact H2|exact H3]].
    intros Hcount. destruct (H1 Hcount) as (w1 & E & H1').
    exists w1. now rewrite get_site_type_loop_classify.
Qed.

(** C3 (amended).  In [get_categories] and [get_site_type] an attempt
    fails when the call raises or when parsing the response raises, that
    is when the bracketed fragment does not decode (or, for the site
    type, decodes to something that is no object).  While the count of
    errors in a row stays within 1024, so that [backoff] can compute its
    delay, every failed attempt is followed by [backoff] and, while
    fewer than 3 attempts were made, by another attempt; the first
    attempt that does not fail ends the call with its value; after 3
    failed attempts, and 3 calls of [backoff], the call returns the
    empty list, respectively ["other"].  A response without any
    bracketed fragment is no failure: it ends the call at once with the
    empty list, respectively ["other"], without [backoff] or retry. *)
Theorem classification_retries (text : string) (w : World) :
  1 <= cap w ->
  (error_count (rate_limiter w) + 3 <= 1024)%nat ->
  ((forall (k : nat) (response : string) (v : json),
       (k < 3)%nat ->
       (forall i, (i < k)%nat ->
          attempt_raises env (parse_categories env) (llm_calls w + i)
            (categories_prompt text) = true) ->
       llm_invoke env (llm_calls w + k) (categories_prompt text) = inr response ->
       parse_categories env response = inr v ->
       exists w', get_categories env text w = (inr v, w') /\
                  llm_calls w' = (llm_calls w + S k)%nat /\
                  backoffs w' = (backoffs w + k)%nat) /\
   ((forall i, (i < 3)%nat ->
       attempt_raises env (parse_categories env) (llm_calls w + i)
         (categories_prompt text) = true) ->
    exists w', get_categories env text w = (inr (JArr []), w') /\
               llm_calls w' = (llm_calls w + 3)%nat /\
               backoffs w' = (backoffs w + 3)%nat) /\
   (forall response,
       parse_categories env response
       = match Re.search "["%char "]"%char (strip response) with
         | Some group => json_loads env group
         | None => inr (JArr [])
         end)) /\
  ((forall (k : nat) (response : string) (v : json),
       (k < 3)%nat ->
       (forall i, (i < k)%nat ->
          attempt_raises env (parse_site_type env) (llm_calls w + i)
            (site_type_prompt text) = true) ->
       llm_invoke env (llm_calls w + k) (site_type_prompt text) = inr response ->
       parse_site_type env response = inr v ->
       exists w', get_site_type env text w = (inr v, w') /\
                  llm_calls w' = (llm_calls w + S k)%nat /\
                  backoffs w' = (backoffs w + k)%nat) /\
   ((forall i, (i < 3)%nat ->
       attempt_raises env (parse_site_type env) (llm_calls w + i)
         (site_type_prompt text) = true) ->
    exists w', get_site_type env text w = (inr (JStr "other"), w') /\
               llm_calls w' = (llm_calls w + 3)%nat /\
               backoffs w' = (backoffs w + 3)%nat) /\
   (forall response,
       parse_site_type env response
       = match Re.search "{"%char "}"%char (strip response) with
         | Some group =>
             match json_loads env group with
             | inr decoded => PyJson.get decoded "site_type" (JStr "other")
             | inl e => inl e
             end
         | None => inr (JStr "other")
         end)).
Proof.
  intros Hcap Hcount. unfold get_categories, get_site_type.
  rewrite get_categories_loop_classify, get_site_type_loop_classify.
  split; (split; [|split]).
  - intros k response v Hk Hfail Hresp Hparse.
    destruct (classify_retries (categories_prompt text) (parse_categories env) (JArr [])
                response v k 3 w Hk Hcap) as (w' & E & Hc & Hb & _);
      [lia|exact Hfail|exact Hresp|exact Hparse|].
    exists w'. auto.
  - intros Hfail.
    destruct (classify_exhausts _ _ (JArr []) 3 w Hcap Hcount Hfail) as (w' & E & Hc & Hb & _).
    exists w'. auto.
  - reflexivity.
  - intros k response v Hk Hfail Hresp Hparse.
    destruct (classify_retries (site_type_prompt text) (parse_site_type env) (JStr "other")
                response v k 3 w Hk Hcap)
      as (w' & E & Hc & Hb & _); [lia|exact Hfail|exact Hresp|exact Hparse|].
    exists w'. auto.
  - intros Hfail.
    destruct (classify_exhausts _ _ (JStr "other") 3 w Hcap Hcount Hfail)
      as (w' & E & Hc & Hb & _).
    exists w'. auto.
  - intros response. unfold parse_site_type.
    destruct (Re.search _ _ _); [|reflexivity]. now destruct (json_loads env _).
Qed.

End ClassifyFacts.

(** A model that always reports an exhausted quota, on the analyzer's
    default throttle. *)
Lemma quota_error_only_backs_off_witness :
  RateLimit.quota_exceeded
    (rate_limiter
       (snd (get_categories (reference_env quota_llm (fun _ => support_page))
               "Welcome" (start 5)))) = false.
Proof.
  refine (proj1 (proj2 (proj2 (proj1
    (quota_error_only_backs_off (reference_env quota_llm (fun _ => support_page))
       "Welcome" (start 5)
       (Exn QuotaError "429 Resource has been exhausted (e.g. check quota).")
       _ _ _) _)))).
  - unfold cap; simpl; lia.
  - reflexivity.
  - reflexivity.
  - reflexivity.
Defined.

(** A model that always fails: three attempts, three backoffs, the empty
    list. *)
Lemma classification_retries_witness :
  exists w',
    get_categories (reference_env failing_llm (fun _ => support_page)) "Welcome" (start 5)
    = (inr (JArr []), w') /\
    llm_calls w' = (llm_calls (start 5) + 3)%nat /\
    backoffs w' = (backoffs (start 5) + 3)%nat.
Proof.
  refine (proj1 (proj2 (proj1
    (classification_retries (reference_env failing_llm (fun _ => support_page))
       "Welcome" (start 5) _ _))) _).
  - unfold cap; simpl; lia.
  - simpl; lia.
  - intros i _. reflexivity.
Defined.

(** C3, as stated, fails: a response without a bracketed fragment is not
    retried; the empty list comes back after one attempt, without
    [backoff]. *)
Lemma classification_no_fragment_counterexample :
  ~ (forall (env : Env) (text : string) (w : World),
        1 <= cap w ->
        (forall n, failed_attempt env "["%char "]"%char n (categories_prompt text) = true) ->
        exists w', get_categories env text w = (inr (JArr []), w') /\
                   llm_calls w' = (llm_calls w + 3)%nat /\
                   backoffs w' = (backoffs w + 3)%nat).
Proof.
  intros H.
  destruct (H (reference_env prose_llm (fun _ => support_page)) "Welcome" (start 5))
    as (w' & E & Hc & _).
  - unfold cap; simpl; lia.
  - intros n. reflexivity.
  - vm_compute in E. injection E as <-. discriminate.
Qed.

(** ** The orchestrator *)

Section AnalyzerFacts.
Import PyStr Soup.
Context (env : Env).

Lemma get_categories_preserved (text : string) (w : World) :
  preserved w (snd (get_categories env text w)).
Proof.
  unfold get_categories. rewrite get_categories_loop_classify. apply classify_preserved.
Qed.

Lemma get_site_type_preserved (text : string) (w : World) :
  preserved w (snd (get_site_type env text w)).
Proof.
  unfold get_site_type. rewrite get_site_type_loop_classify. apply classify_preserved.
Qed.

(** Every way through the body of [analyze_url]: what it returns or
    raises, and which page handles it leaves open. *)
Lemma analyze_url_try_cases (target : string) (w : World) :
  let page := page_for env target in
  let handle := pages_created w in
  match analyze_url_try env target w with
  | (inr result, w') =>
      (validate_url env target = inr false /\
       result = error_result target "Invalid URL" /\ w' = w) \/
      (validate_url env target = inr true /\
       new_page env handle = inr tt /\
       goto page = inr tt /\
       page_close page = inr tt /\
       pages_created w' = S handle /\
       open_pages w'
       = List.filter (fun h => negb (Nat.eqb h handle)) (handle :: open_pages w) /\
       exists html categories site items structured,
         page_content page = inr html /\
         PyJson.iter categories = inr items /\
         assemble env html page (page_url page) items [] = inr structured /\
         result = {| URL := page_url page; site_type := site;
                     extracted_web_content := clean_text html;
                     content := structured; errors := None |})
  | (inl e, w') =>
      (validate_url env target = inl e /\ w' = w) \/
      (validate_url env target = inr true /\ new_page env handle = inl e /\ w' = w) \/
      (validate_url env target = inr true /\
       new_page env handle = inr tt /\
       pages_created w' = S handle /\
       open_pages w' = handle :: open_pages w /\
       (goto page = inl e \/ goto page = inr tt))
  end.
Proof.
  intros page handle. unfold analyze_url_try, bind, lift, ret.
  destruct (validate_url env target) as [e|[|]] eqn:Ev; cbn [negb];
    [now left| |now left].
  unfold context_new_page. fold handle.
  destruct (new_page env handle) as [e|[]] eqn:En; [right; left; auto|].
  fold page.
  destruct (goto page) as [e|[]] eqn:Eg; [right; right; simpl; auto 10|].
  unfold advance. cbn [clock rate_limiter llm_calls backoffs slept pages_created open_pages].
  destruct (wait_for_timeout page) as [e|[]]; [right; right; simpl; auto 10|].
  cbn [clock rate_limiter llm_calls backoffs slept pages_created open_pages].
  destruct (page_content page) as [e|html] eqn:Eh; [right; right; simpl; auto 10|].
  match goal with
  | |- context [get_categories env ?t ?w0] =>
      pose proof (get_categories_preserved t w0) as (_ & Hc1 & Ho1 & _);
      destruct (get_categories env t w0) as [[e|categories] w1]
  end; cbn [snd pages_created open_pages] in Hc1, Ho1;
    [right; right; auto 10|].
  pose proof (get_site_type_preserved (clean_text html) w1) as (_ & Hc2 & Ho2 & _).
  destruct (get_site_type env (clean_text html) w1) as [[e|site] w2];
    cbn [snd] in Hc2, Ho2; [right; right; repeat split; auto; congruence|].
  destruct (PyJson.iter categories) as [e|items] eqn:Ei;
    [right; right; repeat split; auto; congruence|].
  destruct (assemble env html page (page_url page) items []) as [e|structured] eqn:Ea;
    [right; right; repeat split; auto; congruence|].
  unfold close.
  destruct (page_close page) as [e|[]] eqn:Ecl;
    [right; right; repeat split; auto; congruence|].
  right. cbn [pages_created open_pages].
  split; [reflexivity|]. split; [reflexivity|]. split; [reflexivity|].
  split; [reflexivity|]. split; [congruence|]. split; [congruence|].
  exists html, categories, site, items, structured. auto.
Qed.

(** C2.  [analyze_url] always returns one record and never raises.  The
    record is either a success, with the final URL of the page, the
    inferred site type, the cleaned text, the assembled content and no
    error; or a failure, with the URL as given, the site type ["other"],
    an empty text, an empty content list and the description of the
    failure: ["Invalid URL"] for a scheme that is not http or https, and
    otherwise the text of the exception that the body raised. *)
Theorem analyze_url_well_formed (target : string) (w : World) :
  let result := fst (analyze_url env target w) in
  (errors result = None /\
   validate_url env target = inr true /\
   exists html site structured,
     page_content (page_for env target) = inr html /\
     result = {| URL := page_url (page_for env target); site_type := site;
                 extracted_web_content := clean_text html;
                 content := structured; errors := None |}) \/
  (exists description,
     errors result = Some description /\
     URL result = target /\ site_type result = JStr "other" /\
     extracted_web_content result = EmptyString /\ content result = [] /\
     ((description = "Invalid URL" /\ validate_url env target = inr false) \/
      (exists e w', analyze_url_try env target w = (inl e, w') /\
                    description = exn_str e))).
Proof.
  unfold analyze_url. pose proof (analyze_url_try_cases target w) as H. cbv zeta in H.
  destruct (analyze_url_try env target w) as [[e|result] w']; cbn [fst].
  - right. exists (exn_str e). repeat split; eauto.
  - destruct H as [(Hv & -> & _)|(Hv & _ & _ & _ & _ & _ & html & cats & site & items & sc
                                   & Hh & _ & _ & ->)].
    + right. exists "Invalid URL". repeat split; auto.
    + left. repeat split; eauto.
Qed.

(** C8.  The specification has every path of [analyze_url] close the
    page handle it acquired.  The code does not: only the success path
    closes it.  Whenever the body raises after the handle was acquired,
    be it the navigation or any later stage, the handle is still open
    when the error record is returned. *)
Theorem failure_leaves_page_open (target : string) (w : World) :
  validate_url env target = inr true ->
  new_page env (pages_created w) = inr tt ->
  let handle := pages_created w in
  let result := fst (analyze_url env target w) in
  let w' := snd (analyze_url env target w) in
  ((errors result = None /\ ~ In handle (open_pages w')) \/
   (exists e, errors result = Some (exn_str e) /\
              fst (analyze_url_try env target w) = inl e /\
              open_pages w' = handle :: open_pages w)) /\
  (forall e, goto (page_for env target) = inl e ->
             errors result = Some (exn_str e) /\
             open_pages w' = handle :: open_pages w).
Proof.
  intros Hv Hn handle result w'. subst handle result w'. unfold analyze_url.
  pose proof (analyze_url_try_cases target w) as H. cbv zeta in H.
  assert (Hgoto : forall e, goto (page_for env target) = inl e ->
            analyze_url_try env target w
            = (inl e, mkWorld (clock w) (rate_limiter w) (llm_calls w) (backoffs w)
                        (slept w) (S (pages_created w))
                        (pages_created w :: open_pages w))).
  { intros e Hg. unfold analyze_url_try, bind, lift, context_new_page.
    rewrite Hv. cbn [negb]. now rewrite Hn, Hg. }
  destruct (analyze_url_try env target w) as [[e|result] w'] eqn:E; cbn [fst snd].
  - destruct H as [(Hv' & _)|[(_ & Hn' & _)|(_ & _ & _ & Ho & _)]];
      [congruence|congruence|].
    split; [right; exists e; auto|].
    intros e' Hg. specialize (Hgoto e' Hg). injection Hgoto as -> _. auto.
  - destruct H as [(Hv' & _)|(_ & _ & Hg & _ & _ & Ho & html & cats & site & items & sc
                               & _ & _ & _ & ->)]; [congruence|].
    split.
    + left. split; [reflexivity|]. rewrite Ho. rewrite filter_In.
      intros [_ Hne]. now rewrite Nat.eqb_refl in Hne.
    + intros e' Hg'. congruence.
Qed.

Lemma snippet_from_headings_no_keywords elems : snippet_from_headings [] elems = None.
Proof.
  induction elems as [|e elems IH]; simpl; [reflexivity|].
  now rewrite andb_false_r.
Qed.

Lemma snippet_from_classes_no_keywords soup classes :
  snippet_from_classes [] soup classes = None.
Proof.
  induction classes as [|cls classes IH]; simpl; [reflexivity|].
  now destruct (find_div_class cls soup).
Qed.

Lemma extract_snippet_no_keywords (html : markup) (category : string) :
  keywords_of category = [] -> extract_snippet html category = EmptyString.
Proof.
  intros Hk. unfold extract_snippet. rewrite Hk, snippet_from_headings_no_keywords.
  assert (Hc : forall c, snippet_from_container [] c = None) by (intros [el|]; reflexivity).
  now rewrite !Hc, snippet_from_classes_no_keywords.
Qed.

Lemma collect_matches_no_keywords base_url domain anchors :
  forall matches result,
    collect_matches env base_url domain [] anchors matches = inr result -> result = matches.
Proof.
  induction anchors as [|a anchors IH]; intros matches result; simpl.
  - now intros [= <-].
  - destruct (get_attribute a) as [e|href]; simpl; [discriminate|].
    destruct (inner_text a) as [e|text]; simpl; [discriminate|].
    destruct href as [[|c href]|]; [apply IH| |apply IH].
    destruct (urljoin env base_url (String c href)) as [e|abs_url]; simpl; [discriminate|].
    destruct (urlparse env abs_url) as [e|parsed]; simpl; [discriminate|].
    destruct (_ && _); apply IH.
Qed.

Lemma associate_links_no_keywords (page : Page) (base_url category : string) :
  keywords_of category = [] -> associate_links env page base_url category = [].
Proof.
  intros Hk. unfold associate_links, associate_links_try. rewrite Hk.
  destruct (query_selector_all page) as [e|anchors]; simpl; [reflexivity|].
  destruct (urlparse env base_url) as [e|base]; simpl; [reflexivity|].
  destruct (collect_matches _ _ _ _ _ _) as [e|matches] eqn:Ec; simpl; [reflexivity|].
  now rewrite (collect_matches_no_keywords _ _ _ _ _ Ec).
Qed.

(** What [assemble] appends has a snippet or a link. *)
Lemma assemble_entries html page final_url categories :
  forall structured result entry,
    assemble env html page final_url categories structured = inr result ->
    In entry result ->
    In entry structured \/
    (entry_text entry = extract_snippet html (entry_name entry) /\
     entry_links entry = associate_links env page final_url (entry_name entry) /\
     (nonempty (entry_text entry) = true \/ entry_links entry <> [])).
Proof.
  induction categories as [|cat categories IH]; intros structured result entry; simpl.
  - intros [= <-]. auto.
  - unfold assemble_one.
    destruct (PyJson.getitem cat "category_name") as [e|name]; simpl; [discriminate|].
    destruct name as [| | |name| |]; simpl; try discriminate; try apply IH.
    destruct (nonempty (extract_snippet html name)
              || negb (bool_decide (associate_links env page final_url name = []))) eqn:Ekeep;
      [|apply IH].
    intros Ha Hin. destruct (IH _ _ _ Ha Hin) as [Hold|Hnew]; [|auto].
    apply in_app_or in Hold as [Hold|[<-|[]]]; [auto|].
    right. simpl. split; [reflexivity|]. split; [reflexivity|].
    apply orb_prop in Ekeep as [Hs|Hl]; [auto|].
    right. apply negb_true_iff, bool_decide_eq_false in Hl. exact Hl.
Qed.

(** C10.  A category without keywords, as ["Other"] and every name that
    is no key of [CATEGORY_KEYWORDS], gets the empty snippet and no
    links, whatever the markup and the page, and is never an entry of
    the content of a successful result. *)
Theorem empty_keyword_category_yields_nothing (category : string) :
  keywords_of category = [] ->
  (forall html, extract_snippet html category = EmptyString) /\
  (forall page base_url, associate_links env page base_url category = []) /\
  (forall target w entry,
      errors (fst (analyze_url env target w)) = None ->
      In entry (content (fst (analyze_url env target w))) ->
      entry_name entry <> category) /\
  keywords_of "Other" = [] /\
  (forall name, CATEGORY_KEYWORDS !! name = None -> keywords_of name = []).
Proof.
  intros Hk.
  split; [intros; now apply extract_snippet_no_keywords|].
  split; [intros; now apply associate_links_no_keywords|].
  split; [|split; [reflexivity|intros name Hn; unfold keywords_of; now rewrite Hn]].
  intros target w entry. unfold analyze_url.
  pose proof (analyze_url_try_cases target w) as H. cbv zeta in H.
  destruct (analyze_url_try env target w) as [[e|result] w']; cbn [fst]; [discriminate|].
  destruct H as [(_ & -> & _)|(_ & _ & _ & _ & _ & _ & html & cats & site & items & sc
                                & _ & _ & Ha & ->)]; [discriminate|].
  cbn [content]. intros _ Hin Hname.
  destruct (assemble_entries _ _ _ _ _ _ _ Ha Hin) as [[]|(Ht & Hl & Hkeep)].
  rewrite Hname in Ht, Hl.
  rewrite (extract_snippet_no_keywords html category Hk) in Ht.
  rewrite (associate_links_no_keywords _ _ category Hk) in Hl.
  destruct Hkeep as [Hs|Hs]; [rewrite Ht in Hs; discriminate|contradiction].
Qed.

End AnalyzerFacts.

(** A navigation that times out: the error record is returned and the
    handle of the page stays open. *)
Lemma failure_leaves_page_open_witness :
  errors (fst (analyze_url (reference_env failing_llm timeout_page)
                 "https://example.com/" (start 5)))
  = Some "Timeout 30000ms exceeded." /\
  open_pages (snd (analyze_url (reference_env failing_llm timeout_page)
                     "https://example.com/" (start 5)))
  = [0%nat].
Proof.
  refine (proj2 (failure_leaves_page_open (reference_env failing_llm timeout_page)
                   "https://example.com/" (start 5) _ _)
            (Exn NavigationError "Timeout 30000ms exceeded.") _);
    reflexivity.
Defined.

(** ["Other"] on a page whose heading and links mention it. *)
Lemma empty_keyword_category_yields_nothing_witness :
  extract_snippet
    [Soup.Tag "h1" [] [Soup.NavigableString "Other news"];
     Soup.Tag "p" [] [Soup.NavigableString "More to read."]] "Other" = EmptyString /\
  associate_links (reference_env prose_llm (fun _ => support_page))
    support_page "https://example.com/" "Other" = [].
Proof.
  pose proof (empty_keyword_category_yields_nothing
                (reference_env prose_llm (fun _ => support_page)) "Other" eq_refl)
    as (Hs & Hl & _).
  exact (conj (Hs _) (Hl _ _)).
Defined.

(** ** End-to-end scenarios *)

Section Scenarios.

Example about_us_scenario :
  fst (analyze_url (reference_env about_llm (fun _ => about_page))
         "https://example.com/about" (start 5))
  = {| URL := "https://example.com/about";
       site_type := JStr "company";
       extracted_web_content := "About Us We build things.";
       content := [{| entry_name := "About Us"; entry_text := "We build things.";
                      entry_links := ["https://example.com/company"] |}];
       errors := None |}.
Proof. vm_compute. reflexivity. Qed.

Example invalid_url_scenario :
  analyze_url (reference_env about_llm (fun _ => about_page)) "ftp://x" (start 5)
  = (error_result "ftp://x" "Invalid URL", start 5).
Proof. vm_compute. reflexivity. Qed.

End Scenarios.

(** ** The throttle over a run of requests *)

Section ThrottleRun.
Import RateLimit.

Lemma prune_app (now : Z) (a b : list Z) : prune now (a ++ b) = prune now a ++ prune now b.
Proof. apply List.filter_app. Qed.

Lemma prune_prune (now now' : Z) (l : list Z) :
  now <= now' -> prune now' (prune now l) = prune now' l.
Proof.
  intros Hle. unfold prune. rewrite filter_twice. apply List.filter_ext. intros u.
  destruct (Z.ltb_spec (now' - seconds 60) u); destruct (Z.ltb_spec (now - seconds 60) u);
    simpl; try reflexivity; lia.
Qed.

Lemma prune_length_le (now : Z) (l : list Z) : (length (prune now l) <= length l)%nat.
Proof. apply List.filter_length_le. Qed.

Lemma prune_later_shorter (now now' : Z) (l : list Z) :
  now <= now' -> (length (prune now' l) <= length (prune now l))%nat.
Proof. intros Hle. rewrite <- (prune_prune now now' l Hle). apply prune_length_le. Qed.

Lemma filter_drops_one {A : Type} (f : A -> bool) (l : list A) (x : A) :
  In x l -> f x = false -> (length (List.filter f l) < length l)%nat.
Proof.
  induction l as [|y l IH]; simpl; [contradiction|].
  intros [->|Hin] Hf.
  - rewrite Hf. pose proof (List.filter_length_le f l). lia.
  - specialize (IH Hin Hf). destruct (f y); simpl; lia.
Qed.

Lemma window_is_prune (t : Z) (past : list Z) :
  (forall u, In u past -> u <= t) -> List.filter (in_window t) past = prune t past.
Proof.
  intros Hpast. unfold prune. apply List.filter_ext_in. intros u Hu.
  unfold in_window. specialize (Hpast u Hu).
  destruct (Z.leb_spec u t); [apply andb_true_r|lia].
Qed.

Lemma requests_in_window_snoc (t called : Z) (past : list Z) :
  requests_in_window t (past ++ [called])
  = (requests_in_window t past + if in_window t called then 1 else 0)%nat.
Proof.
  unfold requests_in_window. rewrite List.filter_app, length_app. simpl.
  now destruct (in_window t called).
Qed.

Lemma record_request_quota (t : Z) (h : RateLimitHandler) :
  quota_exceeded (record_request t h) = quota_exceeded h.
Proof. reflexivity. Qed.

Lemma record_request_cap (t : Z) (h : RateLimitHandler) :
  max_requests_per_minute (record_request t h) = max_requests_per_minute h.
Proof. reflexivity. Qed.

Lemma record_request_timestamps (t : Z) (h : RateLimitHandler) :
  requests_timestamps (record_request t h) = requests_timestamps h ++ [t].
Proof. reflexivity. Qed.

(** One request: the slot is awaited, the call takes [latency], the
    request is recorded, [gap] passes. *)
Lemma throttled_step (past : list Z) (now : Z) (h : RateLimitHandler) (latency gap : nat) :
  quota_exceeded h = false ->
  1 <= max_requests_per_minute h ->
  throttled past now h ->
  let w := RateLimit.wait_if_needed now h in
  let called := now + total (sleeps w) + Z.of_nat latency in
  raised w = None /\
  quota_exceeded (record_request called (handler w)) = false /\
  max_requests_per_minute (record_request called (handler w)) = max_requests_per_minute h /\
  throttled (past ++ [called]) (called + Z.of_nat gap) (record_request called (handler w)).
Proof.
  intros Hq Hcap (Hpast & Hsame & Hyoung & Hrate & Hlen) w called.
  set (cap := max_requests_per_minute h) in *.
  set (kept := prune now (requests_timestamps h)) in *.
  assert (Hw : handler w = handler (window_block now h) /\
               sleeps w = sleeps (window_block now h) /\
               raised w = raised (window_block now h)).
  { subst w. unfold RateLimit.wait_if_needed. now rewrite (cooldown_block_idle now h Hq). }
  destruct Hw as (Hh & Hs & Hr).
  pose proof (window_block_kept now h) as Hkept. fold kept in Hkept.
  destruct (window_block_frame now h) as (Hm & Hqe & _).
  assert (Hkeptlen : Z.of_nat (length kept) <= cap) by (rewrite <- Hsame; exact Hyoung).
  (* how long the wait slept, and what that leaves of the window *)
  assert (Hwait : 0 <= total (sleeps w) /\
                  Z.of_nat (length (prune (now + total (sleeps w)) kept)) + 1 <= cap).
  { rewrite Hs.
    destruct (Z.lt_ge_cases (Z.of_nat (length kept)) cap) as [Hlt|Hge].
    - destruct (window_block_below now h Hlt) as [-> _]. simpl.
      split; [lia|]. pose proof (prune_length_le (now + 0) kept). lia.
    - assert (Hne : kept <> []).
      { intros E. rewrite E in Hge. simpl in Hge. lia. }
      destruct (window_block_full now h Hge Hne) as (oldest & Hin & _ & -> & _ & Hpos & Hout).
      fold kept in Hin, Hout. simpl. split; [lia|].
      rewrite Z.add_0_r.
      assert (Hdrop : (length (prune (now + (oldest + seconds 60 - now)) kept)
                       < length kept)%nat).
      { apply (filter_drops_one _ kept oldest Hin).
        destruct (Z.ltb_spec (now + (oldest + seconds 60 - now) - seconds 60) oldest);
          [lia|reflexivity]. }
      lia. }
  destruct Hwait as [Hslept Hroom].
  assert (Hcalled : now + total (sleeps w) <= called) by (subst called; lia).
  assert (Hnow : now <= called) by lia.
  (* the requests younger than 60 seconds when the new one is recorded *)
  assert (Hcount : Z.of_nat (length (prune called (past ++ [called]))) <= cap).
  { rewrite prune_app, length_app.
    rewrite <- (prune_prune now called past Hnow), Hsame.
    pose proof (prune_later_shorter (now + total (sleeps w)) called kept Hcalled).
    assert (length (prune called [called]) = 1%nat) as ->.
    { unfold prune. simpl.
      destruct (Z.ltb_spec (called - seconds 60) called); [reflexivity|unfold seconds in *; lia]. }
    lia. }
  split; [now rewrite Hr, (window_block_returns now h Hcap)|].
  split; [rewrite record_request_quota, Hh, Hqe; exact Hq|].
  split; [rewrite record_request_cap, Hh, Hm; reflexivity|].
  unfold throttled. rewrite record_request_cap, record_request_timestamps, Hh, Hkept, Hm.
  split; [|split; [|split; [|split]]].
  - intros u Hu. apply in_app_or in Hu as [Hu|[<-|[]]]; [specialize (Hpast u Hu)|]; lia.
  - rewrite !prune_app. f_equal.
    assert (Hlater : now <= called + Z.of_nat gap) by lia.
    rewrite <- (prune_prune now _ past Hlater), Hsame. fold kept. reflexivity.
  - pose proof (prune_later_shorter called (called + Z.of_nat gap) (past ++ [called])).
    lia.
  - intros t Ht.
    assert (Hself : forall t', t' = called ->
              Z.of_nat (requests_in_window t' (past ++ [called])) <= cap).
    { intros t' ->. unfold requests_in_window.
      rewrite window_is_prune; [exact Hcount|].
      intros u Hu. apply in_app_or in Hu as [Hu|[<-|[]]]; [specialize (Hpast u Hu)|]; lia. }
    apply in_app_or in Ht as [Ht|[<-|[]]].
    + destruct (in_window t called) eqn:Ein.
      * unfold in_window in Ein. apply andb_prop in Ein as [_ Hle%Z.leb_le].
        specialize (Hpast t Ht). apply Hself. lia.
      * rewrite requests_in_window_snoc, Ein. specialize (Hrate t Ht). lia.
    + now apply Hself.
  - rewrite length_app. simpl. lia.
Qed.

(** A run of requests keeps the throttle's invariant and never raises. *)
Lemma throttled_burst (sched : list (nat * nat)) :
  forall (past : list Z) (now : Z) (h : RateLimitHandler),
    quota_exceeded h = false ->
    1 <= max_requests_per_minute h ->
    throttled past now h ->
    exists now' h' sl,
      burst sched now h = inr (now', h', sl) /\
      max_requests_per_minute h' = max_requests_per_minute h /\
      length (burst_log sched now h) = length sched /\
      throttled (past ++ burst_log sched now h) now' h'.
Proof.
  induction sched as [|[latency gap] sched IH]; intros past now h Hq Hcap Hinv.
  - exists now, h, []. simpl. rewrite app_nil_r. auto.
  - destruct (throttled_step past now h latency gap Hq Hcap Hinv) as (Hr & Hq' & Hm & Hinv').
    cbn [burst burst_log]. rewrite Hr.
    set (w := RateLimit.wait_if_needed now h) in *.
    set (called := now + total (sleeps w) + Z.of_nat latency) in *.
    destruct (IH (past ++ [called]) (called + Z.of_nat gap) (record_request called (handler w)))
      as (now' & h' & sl & Hb & Hm' & Hl & Hinv''); [exact Hq'|lia|exact Hinv'|].
    exists now', h', (sleeps w ++ sl). rewrite Hb.
    split; [reflexivity|]. split; [congruence|]. split; [simpl; now rewrite Hl|].
    rewrite <- app_assoc in Hinv''. exact Hinv''.
Qed.

Lemma list_has_max (l : list Z) :
  l <> [] -> exists t, In t l /\ forall u, In u l -> u <= t.
Proof.
  induction l as [|x l IH]; [congruence|]. intros _.
  destruct l as [|y l].
  - exists x. split; [now left|]. intros u [<-|[]]. lia.
  - destruct IH as (t & Hin & Hmax); [discriminate|].
    destruct (Z.le_gt_cases x t).
    + exists t. split; [now right|]. intros u [<-|Hu]; auto.
    + exists x. split; [now left|]. intros u [<-|Hu]; [lia|]. specialize (Hmax u Hu). lia.
Qed.

Lemma filter_length_incl {A : Type} (f g : A -> bool) (l : list A) :
  (forall x, In x l -> f x = true -> g x = true) ->
  (length (List.filter f l) <= length (List.filter g l))%nat.
Proof.
  induction l as [|x l IH]; intros H; simpl; [lia|].
  assert (IH' : (length (List.filter f l) <= length (List.filter g l))%nat).
  { apply IH. intros y Hy. apply H. now right. }
  destruct (f x) eqn:Ef.
  - rewrite (H x (or_introl eq_refl) Ef). simpl. lia.
  - destruct (g x); simpl; lia.
Qed.

(** X1.  A throttle that starts empty with a cap of at least one lets
    every request of a run through, whatever the calls' latencies and the
    pauses between them, and never lets more than the cap be recorded
    within 60 seconds: neither in the 60 seconds up to a request nor in
    any other interval of 60 seconds.  Its list of timestamps never holds
    more than the cap plus one. *)
Theorem throttle_enforces_cap (cap backoff_s t0 : Z) (sched : list (nat * nat)) :
  1 <= cap ->
  let log := burst_log sched t0 (init cap backoff_s) in
  exists now' h' sl,
    burst sched t0 (init cap backoff_s) = inr (now', h', sl) /\
    length log = length sched /\
    (forall t, In t log -> Z.of_nat (requests_in_window t log) <= cap) /\
    (forall a, Z.of_nat (requests_between a (a + seconds 60) log) <= cap) /\
    Z.of_nat (length (requests_timestamps h')) <= cap + 1.
Proof.
  intros Hcap log.
  destruct (throttled_burst sched [] t0 (init cap backoff_s))
    as (now' & h' & sl & Hb & Hm & Hl & Hpast & _ & _ & Hrate & Hlen).
  { reflexivity. }
  { exact Hcap. }
  { unfold throttled. simpl. repeat split; try lia. all: intros ? []. }
  simpl in Hm, Hrate, Hlen. fold log in Hrate, Hl. rewrite Hm in *.
  exists now', h', sl. split; [exact Hb|]. split; [exact Hl|].
  split; [exact Hrate|]. split; [|exact Hlen].
  intros a. unfold requests_between.
  destruct (List.filter (fun u => (a <? u) && (u <=? a + seconds 60)) log) as [|x l] eqn:E;
    [simpl; lia|].
  destruct (list_has_max (x :: l)) as (t & Hin & Hmax); [discriminate|].
  rewrite <- E in Hin, Hmax |- *.
  apply filter_In in Hin as [Hin Ht]. apply andb_prop in Ht as [Ha%Z.ltb_lt Hb'%Z.leb_le].
  specialize (Hrate t Hin). unfold requests_in_window in Hrate.
  assert (Hincl : Nat.le
            (length (List.filter (fun u => (a <? u) && (u <=? a + seconds 60)) log))
            (length (List.filter (in_window t) log))).
  { apply (@filter_length_incl Z). intros u Hu Hf.
    assert (Hu' : In u (List.filter (fun u => (a <? u) && (u <=? a + seconds 60)) log))
      by (apply filter_In; auto).
    specialize (Hmax u Hu').
    apply andb_prop in Hf as [Hua%Z.ltb_lt _].
    unfold in_window. apply andb_true_intro. split; [apply Z.ltb_lt|apply Z.leb_le]; lia. }
  lia.
Qed.

(** A cap of two and five requests, some slow, some at once. *)
Lemma throttle_enforces_cap_witness :
  exists now' h' sl,
    burst [(0%nat, 0%nat); (3%nat, 0%nat); (0%nat, 7%nat); (0%nat, 0%nat); (1%nat, 1%nat)]
      0 (init 2 60) = inr (now', h', sl) /\
    Z.of_nat (length (requests_timestamps h')) <= 2 + 1.
Proof.
  destruct (throttle_enforces_cap 2 60 0
              [(0%nat, 0%nat); (3%nat, 0%nat); (0%nat, 7%nat); (0%nat, 0%nat); (1%nat, 1%nat)])
    as (now' & h' & sl & Hb & _ & _ & _ & Hlen); [lia|].
  exists now', h', sl. exact (conj Hb Hlen).
Defined.

End ThrottleRun.

(** ** Backoff across attempts and calls *)

Section BackoffRun.
Import PyStr RateLimit.
Context (env : Env).

(** An attempt whose call raises: the count of errors grows by one and
    the delay slept is the one of the count before. *)
Lemma classify_raise_step (n : nat) (prompt : string) (parse : string -> exn + json)
    (fallback : json) (w : World) (e : exn) :
  1 <= cap w ->
  (error_count (rate_limiter w) < 1024)%nat ->
  llm_invoke env (llm_calls w) prompt = inl e ->
  exists w1,
    classify env (S n) prompt parse fallback w = classify env n prompt parse fallback w1 /\
    llm_calls w1 = S (llm_calls w) /\ backoffs w1 = S (backoffs w) /\
    cap w1 = cap w /\
    error_count (rate_limiter w1) = S (error_count (rate_limiter w)) /\
    max_backoff (rate_limiter w1) = max_backoff (rate_limiter w) /\
    exists before,
      slept w1 = before ++ [exponential_delay (error_count (rate_limiter w))
                              (random_uniform env (backoffs w))
                              (max_backoff (rate_limiter w))].
Proof.
  intros Hcap Hcount Hraise. rewrite classify_unfold.
  pose proof (wait_returns w Hcap) as Hret.
  destruct (wait_preserved w) as (Hc & _).
  destruct (wait_counts w) as [Hcalls Hbk].
  destruct (wait_error_count w) as [He Hm].
  destruct (limiter_wait_if_needed w) as [[e'|[]] w0]; cbn [fst snd] in *; [discriminate|].
  rewrite Hcalls, Hraise.
  rewrite backoff_then_returns by (simpl; lia).
  rewrite limiter_backoff_returns by (simpl; lia).
  eexists. split; [reflexivity|].
  unfold invoke, cap in *. cbn [snd llm_calls backoffs rate_limiter slept error_count
                                  max_backoff max_requests_per_minute].
  rewrite He, Hm, Hbk, Hcalls. repeat split; auto.
  eexists. reflexivity.
Qed.

(** An attempt whose response arrives and does not parse: the request is
    recorded, which sets the count of errors back to zero, before
    [backoff] runs; the delay slept is the first of the schedule. *)
Lemma classify_parse_fail_step (n : nat) (prompt : string) (parse : string -> exn + json)
    (fallback : json) (w : World) (response : string) (e : exn) :
  1 <= cap w ->
  llm_invoke env (llm_calls w) prompt = inr response ->
  parse response = inl e ->
  exists w1,
    classify env (S n) prompt parse fallback w = classify env n prompt parse fallback w1 /\
    llm_calls w1 = S (llm_calls w) /\ backoffs w1 = S (backoffs w) /\
    cap w1 = cap w /\
    error_count (rate_limiter w1) = 1%nat /\
    max_backoff (rate_limiter w1) = max_backoff (rate_limiter w) /\
    (exists before,
        slept w1 = before ++ [exponential_delay 0 (random_uniform env (backoffs w))
                                (max_backoff (rate_limiter w))]) /\
    exists kept called,
      requests_timestamps (rate_limiter w1) = kept ++ [called] /\ clock w <= called.
Proof.
  intros Hcap Hresp Hparse. rewrite classify_unfold.
  pose proof (wait_returns w Hcap) as Hret.
  destruct (wait_preserved w) as (Hc & _).
  destruct (wait_counts w) as [Hcalls Hbk].
  destruct (wait_error_count w) as [He Hm].
  assert (Hslept : 0 <= total (sleeps (RateLimit.wait_if_needed (clock w) (rate_limiter w)))).
  { unfold RateLimit.wait_if_needed, cooldown_block, window_block.
    destruct (quota_exceeded (rate_limiter w)); [destruct (quota_reset_time (rate_limiter w)) as [reset|];
      [destruct (Z.ltb_spec (clock w) reset)|]|];
      simpl; destruct (_ >=? _); simpl; try lia;
      destruct (py_min _); simpl; try lia;
      match goal with |- context [?a >? 0] => destruct (Z.gtb_spec a 0) end; simpl; lia. }
  assert (Hclock : clock w <= clock (snd (limiter_wait_if_needed w))).
  { unfold limiter_wait_if_needed. cbn [snd clock]. lia. }
  destruct (limiter_wait_if_needed w) as [[e'|[]] w0]; cbn [fst snd] in *; [discriminate|].
  rewrite Hcalls, Hresp, Hparse.
  rewrite backoff_then_returns by (simpl; lia).
  rewrite limiter_backoff_returns by (simpl; lia).
  eexists. split; [reflexivity|].
  unfold limiter_record_request, invoke, cap in *.
  cbn [snd llm_calls backoffs rate_limiter slept error_count clock
         max_backoff max_requests_per_minute requests_timestamps
         record_request reset_backoff].
  rewrite Hm, Hbk, Hcalls. repeat split; auto.
  - eexists. reflexivity.
  - eexists _, _. split; [reflexivity|]. lia.
Qed.

(** Calls that raise, one after the other: the count of errors grows
    with each, and the last delay slept is the one of the count before
    the last attempt. *)
Lemma classify_all_raise (prompt : string) (parse : string -> exn + json) (fallback : json) :
  forall (n : nat) (w : World),
    1 <= cap w ->
    (error_count (rate_limiter w) + n <= 1024)%nat ->
    (forall i, (i < n)%nat -> exists e, llm_invoke env (llm_calls w + i) prompt = inl e) ->
    exists w',
      classify env n prompt parse fallback w = (inr fallback, w') /\
      llm_calls w' = (llm_calls w + n)%nat /\ backoffs w' = (backoffs w + n)%nat /\
      cap w' = cap w /\
      error_count (rate_limiter w') = (error_count (rate_limiter w) + n)%nat /\
      max_backoff (rate_limiter w') = max_backoff (rate_limiter w) /\
      forall m, n = S m ->
        exists before,
          slept w' = before ++ [exponential_delay (error_count (rate_limiter w) + m)
                                  (random_uniform env (backoffs w + m))
                                  (max_backoff (rate_limiter w))].
Proof.
  induction n as [|n IH]; intros w Hcap Hcount Hraise.
  - exists w. simpl. unfold ret.
    split; [reflexivity|]. split; [lia|]. split; [lia|]. split; [reflexivity|].
    split; [lia|]. split; [reflexivity|]. intros m [=].
  - destruct (Hraise 0%nat) as [e He]; [lia|]. rewrite Nat.add_0_r in He.
    destruct (classify_raise_step n prompt parse fallback w e Hcap)
      as (w1 & E & Hc & Hb & Hcap1 & Herr & Hmax & before & Hs); [lia|exact He|].
    destruct (IH w1) as (w' & E' & Hc' & Hb' & Hcap' & Herr' & Hmax' & Hlast).
    + now rewrite Hcap1.
    + lia.
    + intros i Hi. rewrite Hc.
      replace (S (llm_calls w) + i)%nat with (llm_calls w + S i)%nat by lia.
      apply Hraise. lia.
    + exists w'. rewrite E, E'. split; [reflexivity|].
      split; [lia|]. split; [lia|]. split; [congruence|]. split; [lia|].
      split; [congruence|].
      intros m [= <-]. destruct n as [|n'].
      * simpl in E'. unfold ret in E'. injection E' as <-.
        exists before. now rewrite Hs, !Nat.add_0_r.
      * destruct (Hlast n' eq_refl) as (before' & Hs').
        exists before'. rewrite Hs', Herr, Hb, Hmax.
        replace (S (error_count (rate_limiter w)) + n')%nat
          with (error_count (rate_limiter w) + S n')%nat by lia.
        replace (S (backoffs w) + n')%nat with (backoffs w + S n')%nat by lia.
        reflexivity.
Qed.

(** X2.  Nothing but a recorded request sets the count of errors back:
    when the three calls of [get_categories] and then the three calls of
    [get_site_type] all raise and the count of errors stays within 1024,
    both return their fallback, the count has grown by six, and the
    sixth delay slept is the one of the count plus five,
    [min(2^(count+5) + jitter, max_backoff)].  Once the count has
    reached 1024 it grows no more: the first failing call makes
    [get_categories] raise [OverflowError] out of [backoff], with the
    count as it was. *)
Theorem failures_accumulate_across_calls (text : string) (w : World) :
  1 <= cap w ->
  (forall i, (i < 3)%nat ->
     exists e, llm_invoke env (llm_calls w + i) (categories_prompt text) = inl e) ->
  (forall i, (i < 3)%nat ->
     exists e, llm_invoke env (llm_calls w + 3 + i) (site_type_prompt text) = inl e) ->
  ((error_count (rate_limiter w) + 6 <= 1024)%nat ->
   exists w1 w2,
     get_categories env text w = (inr (JArr []), w1) /\
     get_site_type env text w1 = (inr (JStr "other"), w2) /\
     error_count (rate_limiter w1) = (error_count (rate_limiter w) + 3)%nat /\
     error_count (rate_limiter w2) = (error_count (rate_limiter w) + 6)%nat /\
     exists before,
       slept w2 = before ++ [Z.min (seconds (2 ^ Z.of_nat (error_count (rate_limiter w) + 5))
                                    + random_uniform env (backoffs w + 5))
                               (max_backoff (rate_limiter w))]) /\
  ((1024 <= error_count (rate_limiter w))%nat ->
   fst (get_categories env text w)
   = inl (Exn OverflowError "int too large to convert to float") /\
   llm_calls (snd (get_categories env text w)) = S (llm_calls w) /\
   error_count (rate_limiter (snd (get_categories env text w)))
   = error_count (rate_limiter w)).
Proof.
  intros Hcap H1 H2. unfold get_categories, get_site_type. split; intros Hcount.
  - destruct (classify_all_raise (categories_prompt text) (parse_categories env) (JArr [])
                3 w Hcap) as (w1 & E1 & Hc1 & Hb1 & Hcap1 & He1 & Hm1 & _); [lia|exact H1|].
    destruct (classify_all_raise (site_type_prompt text) (parse_site_type env) (JStr "other")
                3 w1) as (w2 & E2 & Hc2 & Hb2 & Hcap2 & He2 & Hm2 & Hlast).
    { now rewrite Hcap1. }
    { lia. }
    { intros i Hi. rewrite Hc1. now apply H2. }
    exists w1, w2. rewrite get_categories_loop_classify, E1, get_site_type_loop_classify, E2.
    split; [reflexivity|]. split; [reflexivity|]. split; [exact He1|]. split; [lia|].
    destruct (Hlast 2%nat eq_refl) as (before & Hs). exists before.
    rewrite Hs, He1, Hb1, Hm1.
    replace (error_count (rate_limiter w) + 3 + 2)%nat
      with (error_count (rate_limiter w) + 5)%nat by lia.
    replace (backoffs w + 3 + 2)%nat with (backoffs w + 5)%nat by lia.
    reflexivity.
  - rewrite get_categories_loop_classify.
    destruct (H1 0%nat) as [e He]; [lia|]. rewrite Nat.add_0_r in He.
    exact (classify_overflow_step env 2 _ (parse_categories env) (JArr []) w e
             Hcap Hcount He).
Qed.

(** X3.  A response that arrives but whose fragment does not decode
    still counts as a request: it is recorded in the window, which sets
    the count of errors back to zero before [backoff] runs.  Whatever the
    count was, the delay slept is the first of the schedule,
    [min(1 + jitter, max_backoff)], the count is 1 afterwards, and the
    call goes on with its two other attempts. *)
Theorem undecodable_response_restarts_backoff (text : string) (w : World) :
  1 <= cap w ->
  (forall response e,
      llm_invoke env (llm_calls w) (categories_prompt text) = inr response ->
      parse_categories env response = inl e ->
      exists w1,
        get_categories env text w = get_categories_loop env 2 text w1 /\
        error_count (rate_limiter w1) = 1%nat /\
        (exists before,
            slept w1 = before ++ [Z.min (seconds 1 + random_uniform env (backoffs w))
                                    (max_backoff (rate_limiter w))]) /\
        exists kept called,
          requests_timestamps (rate_limiter w1) = kept ++ [called] /\ clock w <= called) /\
  (forall response e,
      llm_invoke env (llm_calls w) (site_type_prompt text) = inr response ->
      parse_site_type env response = inl e ->
      exists w1,
        get_site_type env text w = get_site_type_loop env 2 text w1 /\
        error_count (rate_limiter w1) = 1%nat /\
        (exists before,
            slept w1 = before ++ [Z.min (seconds 1 + random_uniform env (backoffs w))
                                    (max_backoff (rate_limiter w))]) /\
        exists kept called,
          requests_timestamps (rate_limiter w1) = kept ++ [called] /\ clock w <= called).
Proof.
  intros Hcap. split; intros response e Hresp Hparse.
  - destruct (classify_parse_fail_step 2 _ _ (JArr []) w response e Hcap Hresp Hparse)
      as (w1 & E & _ & _ & _ & He & _ & Hs & Hrec).
    exists w1. unfold get_categories.
    rewrite !get_categories_loop_classify. auto.
  - destruct (classify_parse_fail_step 2 _ _ (JStr "other") w response e Hcap Hresp Hparse)
      as (w1 & E & _ & _ & _ & He & _ & Hs & Hrec).
    exists w1. unfold get_site_type.
    rewrite !get_site_type_loop_classify. auto.
Qed.

End BackoffRun.

(** A model that always fails, for categories and site type in turn. *)
Lemma failures_accumulate_across_calls_witness :
  exists w1 w2,
    get_categories (reference_env failing_llm (fun _ => support_page)) "Welcome" (start 5)
    = (inr (JArr []), w1) /\
    get_site_type (reference_env failing_llm (fun _ => support_page)) "Welcome" w1
    = (inr (JStr "other"), w2) /\
    RateLimit.error_count (rate_limiter w2) = 6%nat.
Proof.
  destruct (failures_accumulate_across_calls
              (reference_env failing_llm (fun _ => support_page)) "Welcome" (start 5))
    as [Hgrow _].
  - unfold cap; simpl; lia.
  - intros i _. eexists. reflexivity.
  - intros i _. eexists. reflexivity.
  - destruct Hgrow as (w1 & w2 & E1 & E2 & _ & He & _); [simpl; lia|].
    exists w1, w2. exact (conj E1 (conj E2 He)).
Defined.

(** A fragment that is no JSON, after four earlier failures. *)
Lemma undecodable_response_restarts_backoff_witness :
  exists w1,
    get_categories (reference_env garbled_llm (fun _ => support_page)) "Welcome"
      (mkWorld 0 (RateLimit.mkRateLimitHandler 5 [] false None 60000000 4) 0 0 [] 0 [])
    = get_categories_loop (reference_env garbled_llm (fun _ => support_page)) 2 "Welcome" w1 /\
    RateLimit.error_count (rate_limiter w1) = 1%nat.
Proof.
  destruct (proj1 (undecodable_response_restarts_backoff
                     (reference_env garbled_llm (fun _ => support_page)) "Welcome"
                     (mkWorld 0 (RateLimit.mkRateLimitHandler 5 [] false None 60000000 4)
                        0 0 [] 0 [])
                     ltac:(unfold cap; simpl; lia))
              "Sure: [About Us, Other] and {site_type: blog}"
              (Exn JSONDecodeError "Expecting value") eq_refl eq_refl)
    as (w1 & E & He & _).
  exists w1. exact (conj E He).
Defined.

(** ** What a page costs *)

Section Cost.
Import PyStr Soup RateLimit.
Context (env : Env).

Lemma wait_sleeps_nonneg (now : Z) (h : RateLimitHandler) :
  0 <= total (sleeps (RateLimit.wait_if_needed now h)).
Proof.
  unfold RateLimit.wait_if_needed, cooldown_block, window_block.
  destruct (quota_exceeded h); [destruct (quota_reset_time h) as [reset|];
    [destruct (Z.ltb_spec now reset)|]|];
    simpl; destruct (_ >=? _); simpl; try lia;
    destruct (py_min _); simpl; try lia;
    match goal with |- context [?a >? 0] => destruct (Z.gtb_spec a 0) end; simpl; lia.
Qed.

Lemma spent_refl (w : World) : spent 0 w w.
Proof. unfold spent. lia. Qed.

Lemma spent_trans (a b : nat) (w1 w2 w3 : World) :
  spent a w1 w2 -> spent b w2 w3 -> spent (a + b) w1 w3.
Proof. unfold spent. lia. Qed.

Lemma spent_more (a b : nat) (w w' : World) : (a <= b)%nat -> spent a w w' -> spent b w w'.
Proof. unfold spent. lia. Qed.

Lemma classify_spent (prompt : string) (parse : string -> exn + json) (fallback : json) :
  forall (n : nat) (w : World), spent n w (snd (classify env n prompt parse fallback w)).
Proof.
  induction n as [|n IH]; intros w; [apply spent_refl|].
  rewrite classify_unfold.
  pose proof (wait_sleeps_nonneg (clock w) (rate_limiter w)) as Hs.
  assert (Hw : spent 0 w (snd (limiter_wait_if_needed w))).
  { unfold spent, limiter_wait_if_needed. simpl. lia. }
  destruct (limiter_wait_if_needed w) as [[e|[]] w1]; cbn [snd] in Hw;
    [eapply spent_more; [|exact Hw]; lia|].
  destruct (llm_invoke env (llm_calls w1) prompt) as [e|response].
  - unfold bind.
    assert (H12 : spent 1 w1 (snd (limiter_backoff env (snd (invoke env prompt w1)))))
      by (unfold spent, limiter_backoff, invoke; simpl; lia).
    destruct (limiter_backoff env (snd (invoke env prompt w1))) as [[e'|[]] w2];
      cbn [snd] in *.
    + apply (spent_more 1); [lia|]. apply (spent_trans 0 1 _ _ _ Hw H12).
    + apply (spent_trans 0 (S n) _ _ _ Hw). apply (spent_trans 1 n _ _ _ H12 (IH w2)).
  - destruct (parse response).
    + unfold bind.
      assert (H12 : spent 1 w1
                (snd (limiter_backoff env
                        (snd (limiter_record_request (snd (invoke env prompt w1)))))))
        by (unfold spent, limiter_backoff, limiter_record_request, invoke; simpl; lia).
      destruct (limiter_backoff env
                  (snd (limiter_record_request (snd (invoke env prompt w1)))))
        as [[e'|[]] w2]; cbn [snd] in *.
      * apply (spent_more 1); [lia|]. apply (spent_trans 0 1 _ _ _ Hw H12).
      * apply (spent_trans 0 (S n) _ _ _ Hw). apply (spent_trans 1 n _ _ _ H12 (IH w2)).
    + cbn [snd].
      match goal with |- spent _ _ ?w2 =>
        assert (H12 : spent 1 w1 w2)
          by (unfold spent, limiter_record_request, invoke; simpl; lia)
      end.
      apply (spent_more 1); [lia|]. apply (spent_trans 0 1 _ _ _ Hw H12).
Qed.

Lemma get_categories_spent (text : string) (w : World) :
  spent 3 w (snd (get_categories env text w)).
Proof. unfold get_categories. rewrite get_categories_loop_classify. apply classify_spent. Qed.

Lemma get_site_type_spent (text : string) (w : World) :
  spent 3 w (snd (get_site_type env text w)).
Proof. unfold get_site_type. rewrite get_site_type_loop_classify. apply classify_spent. Qed.

Lemma analyze_url_try_spent (target : string) (w : World) :
  spent 6 w (snd (analyze_url_try env target w)) /\
  (pages_created w <= pages_created (snd (analyze_url_try env target w))
   <= pages_created w + 1)%nat.
Proof.
  unfold analyze_url_try, bind, lift, ret.
  destruct (validate_url env target) as [e|[|]]; cbn [negb snd];
    [split; [apply (spent_more 0); [lia|apply spent_refl]|lia]| |
     split; [apply (spent_more 0); [lia|apply spent_refl]|lia]].
  unfold context_new_page.
  destruct (new_page env (pages_created w)) as [e|[]];
    [split; [apply (spent_more 0); [lia|apply spent_refl]|cbn; lia]|].
  set (w0 := mkWorld (clock w) (rate_limiter w) (llm_calls w) (backoffs w) (slept w)
               (S (pages_created w)) (pages_created w :: open_pages w)).
  assert (H0 : spent 0 w w0) by (unfold spent; simpl; lia).
  destruct (goto (page_for env target)) as [e|[]];
    [split; [apply (spent_more 0); [lia|exact H0]|cbn; lia]|].
  unfold advance. cbn [clock rate_limiter llm_calls backoffs slept pages_created open_pages].
  destruct (wait_for_timeout (page_for env target)) as [e|[]].
  { split; [apply (spent_more 0); [lia|]; unfold spent; simpl; lia|cbn; lia]. }
  cbn [clock rate_limiter llm_calls backoffs slept pages_created open_pages].
  destruct (page_content (page_for env target)) as [e|html].
  { split; [apply (spent_more 0); [lia|]; unfold spent, seconds; simpl; lia|cbn; lia]. }
  match goal with
  | |- context [get_categories env ?t ?wa] =>
      assert (Ha : spent 0 w wa) by (unfold spent, seconds; simpl; lia);
      assert (Hpa : pages_created wa = S (pages_created w)) by reflexivity;
      pose proof (get_categories_spent t wa) as H1;
      pose proof (get_categories_preserved env t wa) as (_ & Hp1 & _);
      destruct (get_categories env t wa) as [[e|categories] w1]
  end; cbn [snd] in H1, Hp1.
  { split; [apply (spent_more 3); [lia|apply (spent_trans 0 3 _ _ _ Ha H1)]|cbn; lia]. }
  pose proof (get_site_type_spent (clean_text html) w1) as H2.
  pose proof (get_site_type_preserved env (clean_text html) w1) as (_ & Hp2 & _).
  assert (H12 : spent 6 w (snd (get_site_type env (clean_text html) w1))).
  { apply (spent_trans 0 6 _ _ _ Ha). apply (spent_trans 3 3 _ _ _ H1 H2). }
  destruct (get_site_type env (clean_text html) w1) as [[e|site] w2]; cbn [snd] in *;
    [split; [exact H12|lia]|].
  destruct (PyJson.iter categories) as [e|items]; [split; [exact H12|cbn; lia]|].
  destruct (assemble env html (page_for env target) _ items []) as [e|structured];
    [split; [exact H12|cbn; lia]|].
  unfold close.
  destruct (page_close (page_for env target)) as [e|[]]; [split; [exact H12|cbn; lia]|].
  split; [|cbn; lia]. unfold spent in *. simpl. lia.
Qed.

(** X5.  One page costs at most six calls of the model, three for the
    categories and three for the site type; there are never more
    backoffs than calls; at most one page handle is created; and the
    clock never runs backwards. *)
Theorem page_costs_at_most_six_calls (target : string) (w : World) :
  let w' := snd (analyze_url env target w) in
  (llm_calls w <= llm_calls w' <= llm_calls w + 6)%nat /\
  (backoffs w <= backoffs w')%nat /\
  (backoffs w' - backoffs w <= llm_calls w' - llm_calls w)%nat /\
  (pages_created w <= pages_created w' <= pages_created w + 1)%nat /\
  clock w <= clock w'.
Proof.
  unfold analyze_url.
  destruct (analyze_url_try_spent target w) as [(Hc & Hb & Hbc & Ht) Hp].
  destruct (analyze_url_try env target w) as [[e|result] w']; cbn [snd] in *; auto.
Qed.

(** X4.  A URL that does not validate, because its scheme is neither
    http nor https or because parsing it raises, is answered with the
    error record at once: no page is opened, the model is not called,
    nothing is slept; the state of the run is untouched. *)
Theorem rejected_url_touches_nothing (target : string) (w : World) :
  validate_url env target <> inr true ->
  snd (analyze_url env target w) = w /\
  exists description,
    fst (analyze_url env target w) = error_result target description /\
    (validate_url env target = inr false -> description = "Invalid URL") /\
    (forall e, validate_url env target = inl e -> description = exn_str e).
Proof.
  intros Hv. unfold analyze_url, analyze_url_try, bind, lift, ret.
  destruct (validate_url env target) as [e|[|]]; cbn [negb fst snd]; [|congruence|].
  - split; [reflexivity|]. exists (exn_str e).
    split; [reflexivity|]. split; [discriminate|]. now intros e' [= <-].
  - split; [reflexivity|]. exists "Invalid URL".
    split; [reflexivity|]. split; [reflexivity|]. discriminate.
Qed.

End Cost.

(** An ftp URL. *)
Lemma rejected_url_touches_nothing_witness :
  snd (analyze_url (reference_env about_llm (fun _ => about_page)) "ftp://x" (start 5))
  = start 5.
Proof.
  refine (proj1 (rejected_url_touches_nothing
                   (reference_env about_llm (fun _ => about_page)) "ftp://x" (start 5) _)).
  discriminate.
Defined.

(** ** Which links are returned *)

Section LinkSelection.
Import PyStr.
Context (env : Env).

Lemma collect_matches_sound base_url domain keywords anchors :
  forall matches result u,
    collect_matches env base_url domain keywords anchors matches = inr result ->
    In u result ->
    In u matches \/ exists a, In a anchors /\ kept_as env base_url domain keywords a u.
Proof.
  induction anchors as [|a anchors IH]; intros matches result u; simpl.
  - intros [= <-]. auto.
  - destruct (get_attribute a) as [e|href] eqn:Eh; simpl; [discriminate|].
    destruct (inner_text a) as [e|text] eqn:Et; simpl; [discriminate|].
    assert (Hskip : collect_matches env base_url domain keywords anchors matches = inr result ->
              In u result ->
              In u matches \/
              exists a0, (a = a0 \/ In a0 anchors) /\ kept_as env base_url domain keywords a0 u).
    { intros Hc Hu. destruct (IH _ _ _ Hc Hu) as [?|(a0 & ? & ?)]; eauto. }
    destruct href as [[|c href]|]; [exact Hskip| |exact Hskip].
    destruct (urljoin env base_url (String c href)) as [e|abs_url] eqn:Ej; simpl; [discriminate|].
    destruct (urlparse env abs_url) as [e|parsed] eqn:Ep; simpl; [discriminate|].
    destruct (nonempty (netloc parsed) && negb (String.eqb (netloc parsed) domain)) eqn:Ehost;
      [exact Hskip|].
    destruct (any_in keywords _) eqn:Ek; [|exact Hskip].
    intros Hc Hu. destruct (IH _ _ _ Hc Hu) as [Hm|(a0 & ? & ?)]; [|eauto].
    apply in_app_or in Hm as [Hm|[<-|[]]]; [auto|].
    right. exists a. split; [now left|].
    exists (String c href), text, parsed. repeat split; auto.
Qed.

Lemma collect_matches_grows base_url domain keywords anchors :
  forall matches result u,
    collect_matches env base_url domain keywords anchors matches = inr result ->
    In u matches -> In u result.
Proof.
  induction anchors as [|a anchors IH]; intros matches result u; simpl.
  - now intros [= <-].
  - destruct (get_attribute a) as [e|href]; simpl; [discriminate|].
    destruct (inner_text a) as [e|text]; simpl; [discriminate|].
    destruct href as [[|c href]|]; [apply IH| |apply IH].
    destruct (urljoin env base_url (String c href)) as [e|abs_url]; simpl; [discriminate|].
    destruct (urlparse env abs_url) as [e|parsed]; simpl; [discriminate|].
    destruct (_ && _); [apply IH|].
    destruct (any_in _ _); [|apply IH].
    intros Hc Hu. apply (IH _ _ _ Hc). apply in_or_app. now left.
Qed.

Lemma collect_matches_complete base_url domain keywords anchors :
  forall matches result a u,
    collect_matches env base_url domain keywords anchors matches = inr result ->
    In a anchors -> kept_as env base_url domain keywords a u -> In u result.
Proof.
  induction anchors as [|a0 anchors IH]; intros matches result a u; simpl; [tauto|].
  destruct (get_attribute a0) as [e|href] eqn:Eh; simpl; [discriminate|].
  destruct (inner_text a0) as [e|text] eqn:Et; simpl; [discriminate|].
  intros Hc [<-|Hin] Hk.
  - destruct Hk as (href' & text' & parsed' & Hh & Hne & Ht & Hj & Hp & Hhost & Hkw).
    rewrite Eh in Hh. injection Hh as ->. rewrite Et in Ht. injection Ht as ->.
    destruct href' as [|c href']; [discriminate|].
    rewrite Hj in Hc. cbn [and_then] in Hc. rewrite Hp in Hc. cbn [and_then] in Hc.
    rewrite Hhost, Hkw in Hc.
    apply (collect_matches_grows _ _ _ _ _ _ _ Hc). apply in_or_app. right. now left.
  - destruct href as [[|c href]|]; [eapply IH; eauto| |eapply IH; eauto].
    destruct (urljoin env base_url (String c href)) as [e|abs_url]; simpl in Hc; [discriminate|].
    destruct (urlparse env abs_url) as [e|parsed]; simpl in Hc; [discriminate|].
    destruct (_ && _); [eapply IH; eauto|].
    destruct (any_in _ _); eapply IH; eauto.
Qed.

Lemma collect_matches_raises base_url domain keywords anchors :
  forall matches a,
    In a anchors ->
    (exists e, get_attribute a = inl e) \/ (exists e, inner_text a = inl e) ->
    exists e, collect_matches env base_url domain keywords anchors matches = inl e.
Proof.
  induction anchors as [|a0 anchors IH]; intros matches a; simpl; [tauto|].
  intros [<-|Hin] Hraise.
  - destruct Hraise as [[e ->]|[e He]]; simpl; [eauto|].
    destruct (get_attribute a0); simpl; [eauto|]. rewrite He. simpl. eauto.
  - destruct (get_attribute a0) as [e|href]; simpl; [eauto|].
    destruct (inner_text a0) as [e|text]; simpl; [eauto|].
    destruct href as [[|c href]|]; [eapply IH; eauto| |eapply IH; eauto].
    destruct (urljoin env base_url (String c href)) as [e|abs_url]; simpl; [eauto|].
    destruct (urlparse env abs_url) as [e|parsed]; simpl; [eauto|].
    destruct (_ && _); [eapply IH; eauto|].
    destruct (any_in _ _); eapply IH; eauto.
Qed.

(** X6.  Every link that [associate_links] returns is the resolution of
    an anchor of the page that has a reference, on the site of the base
    URL, whose lower-cased reference or text holds a keyword of the
    category.  When nothing raises and the anchors kept resolve to at
    most five different URLs, every such anchor's URL is returned. *)
Theorem associate_links_selects_matching_anchors (page : Page) (base_url category : string) :
  (forall u, In u (associate_links env page base_url category) ->
     exists anchors base a,
       query_selector_all page = inr anchors /\
       urlparse env base_url = inr base /\
       In a anchors /\
       kept_as env base_url (netloc base) (keywords_of category) a u) /\
  (forall anchors base matches a u,
     query_selector_all page = inr anchors ->
     urlparse env base_url = inr base ->
     collect_matches env base_url (netloc base) (keywords_of category) anchors [] = inr matches ->
     (length (dict_fromkeys matches) <= 5)%nat ->
     In a anchors ->
     kept_as env base_url (netloc base) (keywords_of category) a u ->
     In u (associate_links env page base_url category)).
Proof.
  unfold associate_links, associate_links_try. split.
  - intros u.
    destruct (query_selector_all page) as [e|anchors]; simpl; [tauto|].
    destruct (urlparse env base_url) as [e|base]; simpl; [tauto|].
    destruct (collect_matches _ _ _ _ _ _) as [e|matches] eqn:Ec; simpl; [tauto|].
    intros Hu. apply take_In in Hu. apply (proj1 (dict_fromkeys_In _ _)) in Hu.
    destruct (collect_matches_sound _ _ _ _ _ _ _ Ec Hu) as [[]|(a & Hin & Hk)].
    exists anchors, base, a. auto.
  - intros anchors base matches a u -> -> Hc Hlen Hin Hk. simpl. rewrite Hc. simpl.
    rewrite take_ge by exact Hlen. apply dict_fromkeys_In.
    eapply collect_matches_complete; eauto.
Qed.

(** X7.  One anchor that fails takes all links with it: when listing the
    anchors raises, when the base URL does not parse, or when reading
    the reference or the text of any single anchor raises, the result is
    the empty list, whatever the other anchors matched. *)
Theorem failing_anchor_empties_links (page : Page) (base_url category : string) :
  ((exists e, query_selector_all page = inl e) \/
   (exists e, urlparse env base_url = inl e) \/
   (exists anchors a,
       query_selector_all page = inr anchors /\ In a anchors /\
       ((exists e, get_attribute a = inl e) \/ (exists e, inner_text a = inl e)))) ->
  associate_links env page base_url category = [].
Proof.
  unfold associate_links, associate_links_try.
  intros [[e ->]|[[e He]|(anchors & a & -> & Hin & Hraise)]]; simpl; [reflexivity| |].
  - destruct (query_selector_all page); simpl; [reflexivity|]. now rewrite He.
  - destruct (urlparse env base_url) as [e|base]; simpl; [reflexivity|].
    destruct (collect_matches_raises base_url (netloc base) (keywords_of category)
                anchors [] a Hin Hraise) as [e ->].
    reflexivity.
Qed.

End LinkSelection.

(** A stale anchor after one that matches. *)
Lemma failing_anchor_empties_links_witness :
  associate_links (reference_env prose_llm (fun _ => stale_page)) stale_page
    "https://example.com/" "Contact/Support" = [].
Proof.
  apply (failing_anchor_empties_links (reference_env prose_llm (fun _ => stale_page))).
  right. right. eexists _, _. split; [reflexivity|]. split; [right; left; reflexivity|].
  right. eexists. reflexivity.
Defined.

(** ** Which tier gives the snippet *)

Section SnippetOrder.
Import PyStr Soup.

Lemma snippet_from_classes_find (keywords : list string) (soup : node) (classes : list string) :
  snippet_from_classes keywords soup classes
  = match List.find (fun t => any_in keywords (lower t))
            (List.flat_map
               (fun c => match c with Some el => [get_text " " el] | None => [] end)
               (map (fun cls => find_div_class cls soup) classes)) with
    | Some t => Some (slice_to 500 t)
    | None => None
    end.
Proof.
  induction classes as [|cls classes IH]; [reflexivity|].
  cbn [snippet_from_classes map List.flat_map].
  destruct (find_div_class cls soup) as [el|]; cbn [snippet_from_container app List.find].
  - destruct (any_in keywords (lower (get_text " " el))); [reflexivity|exact IH].
  - exact IH.
Qed.

(** X8.  When no heading of level 1 to 3 holds a keyword, the snippet is
    cut from the first container, in the order article, main,
    [post-content], [entry-content], [article-body], [content], whose
    text holds a keyword: its first 500 characters; a later container
    that matches as well is not looked at.  When none matches, the
    snippet is empty. *)
Theorem extract_snippet_takes_first_container (html : markup) (category : string) :
  existsb (matches_keyword category) (heading_texts html) = false ->
  extract_snippet html category
  = match List.find (matches_keyword category) (container_texts html) with
    | Some text => slice_to 500 text
    | None => EmptyString
    end.
Proof.
  intros Hh. unfold extract_snippet.
  rewrite (snippet_from_headings_none _ _ Hh).
  unfold container_texts, containers, matches_keyword.
  rewrite flat_map_app. cbn [List.flat_map]. rewrite app_nil_r.
  rewrite snippet_from_classes_find.
  destruct (find "article" (BeautifulSoup html)) as [a|];
    destruct (find "main" (BeautifulSoup html)) as [m|];
    cbn [snippet_from_container app List.find];
    repeat match goal with
           | |- context [any_in ?k (lower (get_text " " ?el))] =>
               destruct (any_in k (lower (get_text " " el)))
           end; try reflexivity;
    now destruct (List.find _ _).
Qed.

(** An article and a main container that both tell "our story". *)
Lemma extract_snippet_takes_first_container_witness :
  extract_snippet
    [Tag "main" [] [NavigableString "Our story, in short."];
     Tag "article" [] [NavigableString "Our story began in a garage."]] "About Us"
  = "Our story began in a garage.".
Proof.
  exact (extract_snippet_takes_first_container
           [Tag "main" [] [NavigableString "Our story, in short."];
            Tag "article" [] [NavigableString "Our story began in a garage."]]
           "About Us" eq_refl).
Defined.

End SnippetOrder.

(** ** The cleaned text *)

Section CleanText.
Import PyStr Soup.

Lemma node_induction (P : node -> Prop) :
  (forall s, P (NavigableString s)) ->
  (forall name attrs contents, Forall P contents -> P (Tag name attrs contents)) ->
  forall n, P n.
Proof.
  intros Hs Ht. fix IH 1. intros [s|name attrs contents].
  - apply Hs.
  - apply Ht. induction contents as [|c contents IHc]; constructor; [apply IH|apply IHc].
Qed.

Lemma is_tag_remove_tag (names : list string) (tag : string) (n : node) :
  is_tag names (remove_tag tag n) = is_tag names n.
Proof. now destruct n. Qed.

(** What is left below a node after [tag] was removed: descendants of
    the node, none of them a [tag] element, with [tag] removed below. *)
Lemma descendants_remove_tag (tag : string) :
  forall n x,
    In x (descendants (remove_tag tag n)) ->
    exists d, In d (descendants n) /\ x = remove_tag tag d /\ is_tag [tag] d = false.
Proof.
  induction n as [s|name attrs contents IH] using node_induction; intros x; [intros []|].
  cbn [remove_tag descendants].
  induction contents as [|c contents IHc]; [intros []|].
  apply Forall_cons in IH as [IHhead IHtail]. specialize (IHc IHtail).
  cbn [List.flat_map].
  destruct (is_tag [tag] c) eqn:Ec.
  - intros Hx. destruct (IHc Hx) as (d & Hd & ? & ?).
    exists d. split; [|auto]. apply in_or_app. now right.
  - cbn [List.flat_map]. intros Hx. apply in_app_or in Hx as [[<-|Hx]|Hx].
    + exists c. split; [now left|]. auto.
    + destruct (IHhead x Hx) as (d & Hd & ? & ?).
      exists d. split; [|auto]. right. apply in_or_app. now left.
    + destruct (IHc Hx) as (d & Hd & ? & ?).
      exists d. split; [|auto]. apply in_or_app. now right.
Qed.

Lemma decomposed_free (tags : list string) :
  forall (gone : list string) (soup : node),
    (forall x t, In x (descendants soup) -> In t gone -> is_tag [t] x = false) ->
    forall x t, In x (descendants (decomposed tags soup)) -> In t (gone ++ tags) ->
                is_tag [t] x = false.
Proof.
  induction tags as [|tag tags IH]; intros gone soup Hfree x t.
  - rewrite app_nil_r. apply Hfree.
  - cbn [decomposed fold_left]. fold (decomposed tags (remove_tag tag soup)).
    replace (gone ++ tag :: tags) with ((gone ++ [tag]) ++ tags) by now rewrite <- app_assoc.
    apply IH. clear x t. intros x t Hx Ht.
    destruct (descendants_remove_tag tag soup x Hx) as (d & Hd & -> & Hnot).
    rewrite is_tag_remove_tag.
    apply in_app_or in Ht as [Ht|[<-|[]]]; [now apply Hfree|exact Hnot].
Qed.

Lemma is_tag_any (names : list string) (x : node) :
  (forall t, In t names -> is_tag [t] x = false) -> is_tag names x = false.
Proof.
  destruct x as [s|name attrs contents]; [reflexivity|]. simpl. intros H.
  induction names as [|t names IH]; [reflexivity|]. simpl.
  specialize (H t (or_introl eq_refl)) as Ht. rewrite orb_false_r in Ht. rewrite Ht. simpl.
  apply IH. intros t' Ht'. apply H. now right.
Qed.

(** X9.  The text given to the model is read from a document in which
    no [script], [style], [nav], [footer] or [aside] element is left, at
    any depth. *)
Theorem clean_text_reads_no_noise (html : markup) :
  clean_text html
  = collapse_whitespace (get_text " " (decomposed noise_tags (BeautifulSoup html))) /\
  find_all noise_tags (decomposed noise_tags (BeautifulSoup html)) = [] /\
  forall x, In x (descendants (decomposed noise_tags (BeautifulSoup html))) ->
            is_tag noise_tags x = false.
Proof.
  assert (Hfree : forall x, In x (descendants (decomposed noise_tags (BeautifulSoup html))) ->
                            is_tag noise_tags x = false).
  { intros x Hx. apply is_tag_any. intros t Ht.
    apply (decomposed_free noise_tags [] (BeautifulSoup html)); auto.
    intros ? ? _ []. }
  split; [reflexivity|]. split; [|exact Hfree].
  unfold find_all.
  induction (descendants (decomposed noise_tags (BeautifulSoup html))) as [|x l IH];
    [reflexivity|].
  simpl. rewrite (Hfree x (or_introl eq_refl)). apply IH.
  intros y Hy. apply Hfree. now right.
Qed.

Lemma collapse_single_spaced (s : string) :
  forall b, single_spaced_from b (collapse_from b s) = true.
Proof.
  induction s as [|c s IH]; intros b; [reflexivity|]. simpl.
  destruct (is_space c) eqn:Ec.
  - destruct b; [apply IH|]. simpl. apply IH.
  - simpl. rewrite Ec. apply IH.
Qed.

Lemma lstrip_head (s : string) : starts_with_space (lstrip s) = false.
Proof.
  induction s as [|c s IH]; [reflexivity|]. simpl.
  destruct (is_space c) eqn:Ec; [exact IH|]. simpl. exact Ec.
Qed.

Lemma rstrip_tail (s : string) : ends_with_space (rstrip s) = false.
Proof.
  induction s as [|c s IH]; [reflexivity|]. simpl.
  destruct (rstrip s) as [|c' r] eqn:Er.
  - destruct (is_space c) eqn:Ec; [reflexivity|]. simpl. exact Ec.
  - exact IH.
Qed.

Lemma rstrip_head (s : string) :
  starts_with_space s = false -> starts_with_space (rstrip s) = false.
Proof.
  destruct s as [|c s]; [reflexivity|]. simpl. intros Ec.
  destruct (rstrip s); [rewrite Ec|]; exact Ec.
Qed.

Lemma strip_trimmed (s : string) :
  starts_with_space (strip s) = false /\ ends_with_space (strip s) = false.
Proof.
  unfold strip. split; [apply rstrip_head, lstrip_head|apply rstrip_tail].
Qed.

Lemma starts_with_space_app (a b : string) :
  nonempty a = true -> starts_with_space (a +:+ b) = starts_with_space a.
Proof. now destruct a. Qed.

Lemma ends_with_space_app (a b : string) :
  nonempty b = true -> ends_with_space (a +:+ b) = ends_with_space b.
Proof.
  intros Hb. induction a as [|c a IH]; [reflexivity|].
  change (String c a +:+ b) with (String c (a +:+ b)).
  destruct (a +:+ b) as [|c' r] eqn:E.
  - destruct a; destruct b; discriminate.
  - exact IH.
Qed.

Lemma nonempty_app_r (a b : string) : nonempty b = true -> nonempty (a +:+ b) = true.
Proof. destruct a; [auto|reflexivity]. Qed.

(** Pieces without whitespace at their ends, joined by single spaces. *)
Lemma join_trimmed (pieces : list string) :
  Forall (fun p => nonempty p = true /\ starts_with_space p = false
                   /\ ends_with_space p = false) pieces ->
  starts_with_space (join " " pieces) = false /\ ends_with_space (join " " pieces) = false /\
  (pieces <> [] -> nonempty (join " " pieces) = true).
Proof.
  unfold join. induction 1 as [|p pieces (Hne & Hs & He) Hall IH]; [now repeat split|].
  destruct IH as (IHs & IHe & IHn).
  destruct pieces as [|q pieces].
  - simpl. auto.
  - change (String.concat " " (p :: q :: pieces))
      with (p +:+ " " +:+ String.concat " " (q :: pieces)).
    assert (Hrest : nonempty (String.concat " " (q :: pieces)) = true)
      by (apply IHn; discriminate).
    split; [now rewrite starts_with_space_app|].
    split.
    + rewrite ends_with_space_app by (apply nonempty_app_r; exact Hrest).
      rewrite ends_with_space_app by exact Hrest. exact IHe.
    + intros _. destruct p; [discriminate|reflexivity].
Qed.

Lemma get_text_trimmed (n : node) :
  starts_with_space (get_text " " n) = false /\ ends_with_space (get_text " " n) = false.
Proof.
  unfold get_text.
  destruct (join_trimmed (List.filter nonempty (map strip (all_strings n)))) as (Hs & He & _);
    [|auto].
  apply List.Forall_forall. intros p Hp. apply filter_In in Hp as [Hp Hne].
  apply in_map_iff in Hp as (s & <- & _).
  destruct (strip_trimmed s). auto.
Qed.

Lemma collapse_head (s : string) (b : bool) :
  starts_with_space s = false -> starts_with_space (collapse_from b s) = false.
Proof. destruct s as [|c s]; [reflexivity|]. simpl. intros Ec. rewrite Ec. exact Ec. Qed.

Lemma collapse_nonempty (s : string) :
  forall b, nonempty s = true -> ends_with_space s = false ->
            nonempty (collapse_from b s) = true.
Proof.
  induction s as [|c s IH]; intros b; [discriminate|]. intros _ He.
  simpl. destruct (is_space c) eqn:Ec.
  - destruct s as [|c' s']; [simpl in He; congruence|].
    destruct b; [|reflexivity]. apply IH; [reflexivity|exact He].
  - reflexivity.
Qed.

Lemma collapse_tail (s : string) :
  forall b, ends_with_space s = false -> ends_with_space (collapse_from b s) = false.
Proof.
  induction s as [|c s IH]; intros b He; [reflexivity|].
  destruct s as [|c' s'].
  - simpl in *. rewrite He. simpl. exact He.
  - assert (He' : ends_with_space (String c' s') = false) by exact He.
    set (rest := String c' s') in *.
    change (collapse_from b (String c rest))
      with (if is_space c
            then (if b then collapse_from true rest
                  else String " "%char (collapse_from true rest))
            else String c (collapse_from false rest)).
    destruct (is_space c) eqn:Ec.
    + destruct b; [now apply IH|].
      pose proof (collapse_nonempty rest true eq_refl He') as Hne.
      pose proof (IH true He') as Ht.
      destruct (collapse_from true rest) eqn:E; [discriminate|exact Ht].
    + pose proof (collapse_nonempty rest false eq_refl He') as Hne.
      pose proof (IH false He') as Ht.
      destruct (collapse_from false rest) eqn:E; [discriminate|exact Ht].
Qed.

(** X10.  The cleaned text has its whitespace in normal form: its only
    whitespace characters are single spaces, never two in a row, and it
    neither starts nor ends with one. *)
Theorem clean_text_whitespace (html : markup) :
  single_spaced (clean_text html) = true /\
  starts_with_space (clean_text html) = false /\
  ends_with_space (clean_text html) = false.
Proof.
  unfold clean_text, collapse_whitespace.
  match goal with |- context [get_text " " ?soup] =>
    destruct (get_text_trimmed soup) as [Hs He]
  end.
  split; [apply collapse_single_spaced|].
  split; [now apply collapse_head|now apply collapse_tail].
Qed.

End CleanText.

(** ** The fragment that is decoded *)

Section Fragment.
Import PyStr.

Lemma from_first_spec (c : ascii) (s t : string) :
  Re.from_first c s = Some t ->
  exists before rest,
    s = before +:+ t /\ t = String c rest /\ Urllib.has_char c before = false.
Proof.
  revert t. induction s as [|a s IH]; intros t; simpl; [discriminate|].
  destruct (Ascii.eqb_spec a c) as [->|Hne].
  - intros [= <-]. exists EmptyString, s. auto.
  - intros H. destruct (IH t H) as (before & rest & -> & -> & Hb).
    exists (String a before), rest. simpl. rewrite Hb.
    destruct (Ascii.eqb_spec a c); [contradiction|auto].
Qed.

Lemma from_first_none (c : ascii) (s : string) :
  Re.from_first c s = None -> Urllib.has_char c s = false.
Proof.
  induction s as [|a s IH]; simpl; [reflexivity|].
  destruct (Ascii.eqb a c); [discriminate|]. exact IH.
Qed.

Lemma upto_last_none (c : ascii) (s : string) :
  Re.upto_last c s = None -> Urllib.has_char c s = false.
Proof.
  induction s as [|a s IH]; simpl; [reflexivity|].
  destruct (Re.upto_last c s); [discriminate|].
  destruct (Ascii.eqb a c); [discriminate|]. intros _. now apply IH.
Qed.

Lemma upto_last_spec (c : ascii) (s r : string) :
  Re.upto_last c s = Some r ->
  exists inner after,
    s = r +:+ after /\ r = inner +:+ String c EmptyString /\ Urllib.has_char c after = false.
Proof.
  revert r. induction s as [|a s IH]; intros r; simpl; [discriminate|].
  destruct (Re.upto_last c s) as [r'|] eqn:E.
  - intros [= <-]. destruct (IH r' eq_refl) as (inner & after & -> & -> & Ha).
    exists (String a inner), after. auto.
  - destruct (Ascii.eqb_spec a c) as [->|]; [|discriminate].
    intros [= <-]. exists EmptyString, s. simpl. split; [reflexivity|].
    split; [reflexivity|]. now apply upto_last_none.
Qed.

(** X11.  The fragment handed to [json.loads] is the span from the
    first opening bracket of the response to the last closing bracket
    after it: what comes before holds no opening bracket, what comes
    after holds no closing one, and everything between is taken, other
    brackets included.  There is no fragment exactly when the response
    has no opening bracket, or no closing bracket after the first. *)
Theorem fragment_is_widest_span (opening closing : ascii) (s : string) :
  match Re.search opening closing s with
  | Some group =>
      exists before inner after,
        s = before +:+ group +:+ after /\
        group = String opening inner +:+ String closing EmptyString /\
        Urllib.has_char opening before = false /\
        Urllib.has_char closing after = false
  | None =>
      Urllib.has_char opening s = false \/
      exists before rest,
        s = before +:+ String opening rest /\
        Urllib.has_char opening before = false /\
        Urllib.has_char closing rest = false
  end.
Proof.
  unfold Re.search.
  destruct (Re.from_first opening s) as [t|] eqn:Ef.
  - destruct (from_first_spec _ _ _ Ef) as (before & rest & -> & -> & Hb).
    destruct (Re.upto_last closing rest) as [body|] eqn:Eu.
    + destruct (upto_last_spec _ _ _ Eu) as (inner & after & -> & -> & Ha).
      exists before, inner, after. repeat split; auto.
    + right. exists before, rest. repeat split; auto. now apply upto_last_none.
  - left. now apply from_first_none.
Qed.

End Fragment.

(** ** What the assembly keeps *)

Section Assembly.
Import PyStr Soup.
Context (env : Env).

Lemma category_names_cons (cat : json) (categories : list json) :
  category_names (cat :: categories)
  = match PyJson.getitem cat "category_name" with
    | inr (JStr name) => [name]
    | _ => []
    end ++ category_names categories.
Proof. reflexivity. Qed.

Lemma assemble_keeps (html : markup) (page : Page) (final_url : string)
    (categories : list json) :
  forall structured result,
    assemble env html page final_url categories structured = inr result ->
    result = structured
             ++ map (entry_for env html page final_url)
                  (List.filter (found_something env html page final_url)
                     (category_names categories)) /\
    Forall (fun cat => ~ unusable cat) categories.
Proof.
  induction categories as [|cat categories IH]; intros structured result.
  - simpl. intros [= <-]. rewrite app_nil_r. auto.
  - cbn [assemble]. unfold assemble_one. rewrite category_names_cons.
    assert (Hskip : forall name : json,
              PyJson.getitem cat "category_name" = inr name ->
              (forall s, name <> JStr s) -> ~ unusable cat ->
              assemble env html page final_url categories structured = inr result ->
              result = structured
                       ++ map (entry_for env html page final_url)
                            (List.filter (found_something env html page final_url)
                               (match name with JStr n => [n] | _ => [] end
                                ++ category_names categories)) /\
              Forall (fun cat => ~ unusable cat) (cat :: categories)).
    { intros name Hg Hname Hu H. destruct (IH _ _ H) as [-> Hall].
      split; [|constructor; assumption].
      destruct name; try reflexivity. now destruct (Hname s). }
    destruct (PyJson.getitem cat "category_name") as [e|name] eqn:Eg;
      cbn [and_then]; [discriminate|].
    assert (Hu : forall s, name = JStr s \/ name = JNull \/ (exists b, name = JBool b)
                           \/ (exists n, name = JNum n) -> ~ unusable cat).
    { intros s Hn Hunusable. unfold unusable in Hunusable. rewrite Eg in Hunusable.
      destruct Hn as [->|[->|[[b ->]|[n ->]]]]; exact Hunusable. }
    destruct name as [|b|n|name|items|members]; try discriminate.
    + apply (Hskip JNull eq_refl); [discriminate|]. apply (Hu EmptyString). auto.
    + apply (Hskip (JBool b) eq_refl); [discriminate|]. apply (Hu EmptyString). eauto.
    + apply (Hskip (JNum n) eq_refl); [discriminate|]. apply (Hu EmptyString). eauto 6.
    + fold (found_something env html page final_url name).
      cbn [app List.filter].
      destruct (found_something env html page final_url name);
        intros H; destruct (IH _ _ H) as [-> Hall];
        (split; [|constructor; [apply (Hu name); auto|exact Hall]]).
      * cbn [map]. now rewrite <- app_assoc.
      * reflexivity.
Qed.

Lemma assemble_raises (html : markup) (page : Page) (final_url : string)
    (categories : list json) :
  forall structured e,
    assemble env html page final_url categories structured = inl e ->
    Exists unusable categories.
Proof.
  induction categories as [|cat categories IH]; intros structured e; simpl; [discriminate|].
  unfold assemble_one.
  destruct (PyJson.getitem cat "category_name") as [e'|name] eqn:Eg; simpl.
  - intros _. left. unfold unusable. now rewrite Eg.
  - destruct name as [| | |name| |]; simpl;
      try (intros H; right; eapply IH; exact H);
      try (intros _; left; unfold unusable; now rewrite Eg).
    destruct (_ || _); intros H; right; eapply IH; exact H.
Qed.

(** X12.  The content list holds, in the order in which the model named
    them and as often as it named them, the categories for which a
    snippet or a link was found, each with that snippet and those links;
    a name with neither is skipped.  The assembly raises, and the page
    fails, exactly when some category is no object with a string under
    ["category_name"] that can be a key: nothing is kept then. *)
Theorem assembly_keeps_found_categories (html : markup) (page : Page) (final_url : string)
    (categories : list json) :
  match assemble env html page final_url categories [] with
  | inr structured =>
      structured
      = map (entry_for env html page final_url)
          (List.filter (found_something env html page final_url)
             (category_names categories)) /\
      Forall (fun cat => ~ unusable cat) categories
  | inl _ => Exists unusable categories
  end.
Proof.
  destruct (assemble env html page final_url categories []) as [e|structured] eqn:E.
  - eapply assemble_raises; exact E.
  - apply (assemble_keeps _ _ _ _ [] structured E).
Qed.

End Assembly.

(** ** The batch driver *)

Section Batch.
Import PyStr Soup.

Lemma lstrip_id (s : string) : starts_with_space s = false -> lstrip s = s.
Proof. destruct s as [|c s]; [reflexivity|]. simpl. now intros ->. Qed.

Lemma rstrip_id (s : string) : ends_with_space s = false -> rstrip s = s.
Proof.
  induction s as [|c s IH]; [reflexivity|]. intros He.
  destruct s as [|c' s'].
  - simpl in *. now rewrite He.
  - change (rstrip (String c (String c' s')))
      with (match rstrip (String c' s') with
            | EmptyString => if is_space c then EmptyString else String c EmptyString
            | r => String c r
            end).
    now rewrite (IH He).
Qed.

Lemma strip_strip (s : string) : strip (strip s) = strip s.
Proof.
  destruct (strip_trimmed s) as [Hs He].
  unfold strip at 1. now rewrite (lstrip_id _ Hs), (rstrip_id _ He).
Qed.

(** X13.  The URLs read from a file are its lines without the blank
    ones, in order, each stripped: no entry is empty or starts or ends
    with whitespace, and stripping an entry again changes nothing.  A
    file that exists but holds only blank lines gives the empty list,
    not the defaults; the ten default URLs are returned when no path is
    given, when it is empty, or when no file is there. *)
Theorem load_urls_strips_and_drops_blanks
    (files : string -> option (exn + list string)) (path : string) (lines : list string) :
  nonempty path = true ->
  files path = Some (inr lines) ->
  exists urls,
    load_urls files (Some path) = inr urls /\
    urls = map strip (List.filter (fun l => nonempty (strip l)) lines) /\
    Forall (fun u => nonempty u = true /\ starts_with_space u = false /\
                     ends_with_space u = false /\ strip u = u) urls /\
    (length urls <= length lines)%nat /\
    (Forall (fun l => nonempty (strip l) = false) lines -> urls = []) /\
    (forall other, files other = None -> load_urls files (Some other) = inr default_urls) /\
    load_urls files None = inr default_urls /\
    load_urls files (Some EmptyString) = inr default_urls.
Proof.
  intros Hp Hf. eexists. unfold load_urls. rewrite Hp, Hf. cbn [and_then].
  split; [reflexivity|]. split; [reflexivity|]. split; [|split; [|split; [|split; [|split]]]].
  - apply List.Forall_forall. intros u Hu.
    apply in_map_iff in Hu as (l & <- & Hl). apply filter_In in Hl as [_ Hne].
    destruct (strip_trimmed l). auto using strip_strip.
  - rewrite length_map. apply List.filter_length_le.
  - intros Hblank. induction lines as [|l lines' IH]; [reflexivity|].
    apply Forall_cons in Hblank as [Hl Hrest]. simpl. rewrite Hl.
    clear -Hrest. induction lines' as [|l' lines'' IH']; [reflexivity|].
    apply Forall_cons in Hrest as [Hl' Hrest']. simpl. rewrite Hl'. now apply IH'.
  - intros other Ho. rewrite Ho. now destruct (nonempty other).
  - reflexivity.
  - reflexivity.
Qed.

(** A file with two URLs, padding and blank lines. *)
Lemma load_urls_strips_and_drops_blanks_witness :
  load_urls (one_file "urls.txt"
               ["  https://example.com/ " +:+ newline; newline; "https://example.org" +:+ newline;
                "   "])
    (Some "urls.txt")
  = inr ["https://example.com/"; "https://example.org"].
Proof.
  destruct (load_urls_strips_and_drops_blanks
              (one_file "urls.txt"
                 ["  https://example.com/ " +:+ newline; newline;
                  "https://example.org" +:+ newline; "   "])
              "urls.txt"
              ["  https://example.com/ " +:+ newline; newline;
               "https://example.org" +:+ newline; "   "] eq_refl eq_refl)
    as (urls & E & -> & _).
  exact E.
Defined.

Context (env : Env).

Lemma analyze_url_spent (target : string) (w : World) :
  spent 6 w (snd (analyze_url env target w)).
Proof.
  unfold analyze_url. destruct (analyze_url_try_spent env target w) as [H _].
  now destruct (analyze_url_try env target w) as [[e|result] w'].
Qed.

Lemma analyze_url_record (target : string) (w : World) :
  record_of env target (fst (analyze_url env target w)).
Proof.
  unfold analyze_url, record_of.
  pose proof (analyze_url_try_cases env target w) as H. cbv zeta in H.
  destruct (analyze_url_try env target w) as [[e|result] w']; cbn [fst].
  - right. eexists. split; reflexivity.
  - destruct H as [(_ & -> & _)|(_ & _ & _ & _ & _ & _ & html & cats & site & items & sc
                                 & _ & _ & _ & ->)].
    + right. eexists. split; reflexivity.
    + left. split; reflexivity.
Qed.

Lemma process_urls_appends (urls : list string) :
  forall (results : list PageResult) (w : World),
    process_urls env urls results w
    = (results ++ fst (process_urls env urls [] w), snd (process_urls env urls [] w)).
Proof.
  induction urls as [|target urls IH]; intros results w.
  - simpl. now rewrite app_nil_r.
  - cbn [process_urls]. destruct (analyze_url env target w) as [result w1].
    destruct (advance (seconds 2) w1) as [u w2].
    rewrite (IH (results ++ [result])), (IH ([] ++ [result])). cbn [fst snd].
    now rewrite <- app_assoc.
Qed.

Lemma success_count_le (results : list PageResult) :
  (success_count results <= length results)%nat.
Proof. apply List.filter_length_le. Qed.

(** X14.  The batch loop gives one record per URL, in the order of the
    URLs: for each URL a success under the page's final URL, or a
    failure under the URL as given; a page that fails does not stop the
    loop.  The whole run makes at most six calls of the model per URL
    and takes at least two seconds per URL; the counts of successes and
    failures add up to the number of URLs. *)
Theorem batch_gives_one_record_per_url (urls : list string) (w : World) :
  let results := fst (process_urls env urls [] w) in
  let w' := snd (process_urls env urls [] w) in
  length results = length urls /\
  Forall2 (record_of env) urls results /\
  (llm_calls w <= llm_calls w' <= llm_calls w + 6 * length urls)%nat /\
  clock w + seconds 2 * Z.of_nat (length urls) <= clock w' /\
  (success_count results + failure_count results = length urls)%nat.
Proof.
  cbv zeta.
  assert (Main : forall urls w,
            length (fst (process_urls env urls [] w)) = length urls /\
            Forall2 (record_of env) urls (fst (process_urls env urls [] w)) /\
            (llm_calls w <= llm_calls (snd (process_urls env urls [] w))
             <= llm_calls w + 6 * length urls)%nat /\
            clock w + seconds 2 * Z.of_nat (length urls)
            <= clock (snd (process_urls env urls [] w))).
  { clear urls w. induction urls as [|target urls IH]; intros w.
    - simpl. repeat split; try lia. constructor.
    - cbn [process_urls].
      pose proof (analyze_url_record target w) as Hrec.
      pose proof (analyze_url_spent target w) as ((Hc1 & Hc2) & _ & _ & Ht).
      destruct (analyze_url env target w) as [result w1]. cbn [fst snd] in *.
      unfold advance. cbn [app].
      rewrite process_urls_appends. cbn [fst snd].
      match goal with |- context [process_urls env urls [] ?w2] =>
        destruct (IH w2) as (Hl & Hall & (Hc3 & Hc4) & Ht')
      end.
      cbn [clock llm_calls] in *.
      split; [simpl; now rewrite Hl|]. split; [constructor; assumption|].
      split; [simpl length; lia|]. simpl length. unfold seconds in *. lia. }
  destruct (Main urls w) as (Hl & Hall & Hc & Ht).
  split; [exact Hl|]. split; [exact Hall|]. split; [exact Hc|]. split; [exact Ht|].
  unfold failure_count.
  pose proof (success_count_le (fst (process_urls env urls [] w))). lia.
Qed.

(** X15.  The summary counts a record as failed only when its error
    description is a non-empty string.  A page that fails with an
    exception whose text is empty gets the empty description: it is
    counted among the successes. *)
Theorem wordless_failure_counts_as_success (target : string) (w w' : World) (e : exn) :
  analyze_url_try env target w = (inl e, w') ->
  exn_str e = EmptyString ->
  errors (fst (analyze_url env target w)) = Some EmptyString /\
  counted_as_success (fst (analyze_url env target w)) = true /\
  success_count (fst (process_urls env [target] [] w)) = 1%nat /\
  failure_count (fst (process_urls env [target] [] w)) = 0%nat /\
  (forall r, counted_as_success r = false <->
             exists description, errors r = Some description /\ nonempty description = true).
Proof.
  intros Hraise Hstr.
  assert (Hr : fst (analyze_url env target w) = error_result target EmptyString).
  { unfold analyze_url. now rewrite Hraise, Hstr. }
  assert (Hcount : success_count (fst (process_urls env [target] [] w)) = 1%nat).
  { cbn [process_urls]. destruct (analyze_url env target w) as [result w1].
    cbn [fst] in Hr. subst result. reflexivity. }
  rewrite Hr. split; [reflexivity|]. split; [reflexivity|]. split; [exact Hcount|].
  split.
  - unfold failure_count. rewrite Hcount.
    cbn [process_urls]. destruct (analyze_url env target w) as [result w1]. reflexivity.
  - intros r. unfold counted_as_success. destruct (errors r) as [d|].
    + split.
      * intros Hn. exists d. split; [reflexivity|]. now apply negb_false_iff in Hn.
      * intros (d' & [= <-] & Hd). now rewrite Hd.
    + split; [discriminate|]. intros (d & [=] & _).
Qed.

End Batch.

(** A page whose content cannot be read, the exception having no text. *)
Lemma wordless_failure_counts_as_success_witness :
  success_count
    (fst (process_urls (reference_env prose_llm wordless_page) ["https://example.com/"] []
            (start 5))) = 1%nat.
Proof.
  refine (proj1 (proj2 (proj2
    (wordless_failure_counts_as_success (reference_env prose_llm wordless_page)
       "https://example.com/" (start 5)
       (mkWorld 2000000 (RateLimit.init 5 60) 0 0 [] 1 [0%nat])
       (Exn PlaywrightError EmptyString) _ _)))); reflexivity.
Defined.

(** ** Page handles over a batch *)

Section Handles.
Context (env : Env).

Lemma filter_other_handles (h : nat) (open : list nat) :
  (forall x, In x open -> (x < h)%nat) ->
  List.filter (fun x => negb (Nat.eqb x h)) (h :: open) = open.
Proof.
  intros Hlt. simpl. rewrite Nat.eqb_refl. simpl.
  induction open as [|x open IH]; [reflexivity|]. simpl.
  assert (Hx : (x < h)%nat) by (apply Hlt; now left).
  destruct (Nat.eqb_spec x h); [lia|]. simpl. f_equal. apply IH.
  intros y Hy. apply Hlt. now right.
Qed.

Lemma analyze_url_handles (target : string) (w : World) :
  handles_known w ->
  handles_known (snd (analyze_url env target w)) /\
  (length (open_pages (snd (analyze_url env target w)))
   <= length (open_pages w) + if failed (fst (analyze_url env target w)) then 1 else 0)%nat /\
  (failed (fst (analyze_url env target w)) = false ->
   open_pages (snd (analyze_url env target w)) = open_pages w).
Proof.
  intros Hk. unfold analyze_url.
  pose proof (analyze_url_try_cases env target w) as H. cbv zeta in H.
  destruct (analyze_url_try env target w) as [[e|result] w']; cbn [fst snd].
  - assert (Hf : failed (error_result target (exn_str e)) = true) by reflexivity.
    rewrite Hf.
    destruct H as [(_ & ->)|[(_ & _ & ->)|(_ & _ & Hc & Ho & _)]].
    + split; [exact Hk|]. split; [lia|discriminate].
    + split; [exact Hk|]. split; [lia|discriminate].
    + split; [|split; [rewrite Ho; simpl; lia|discriminate]].
      intros h Hh. rewrite Ho in Hh. rewrite Hc.
      destruct Hh as [<-|Hh]; [lia|]. specialize (Hk h Hh). lia.
  - destruct H as [(_ & -> & ->)|(_ & _ & _ & _ & Hc & Ho & html & cats & site & items & sc
                                  & _ & _ & _ & ->)].
    + split; [exact Hk|]. split; [simpl; lia|discriminate].
    + rewrite (filter_other_handles _ _ Hk) in Ho.
      split; [|split; [rewrite Ho; simpl; lia|intros _; exact Ho]].
      intros h Hh. rewrite Ho in Hh. rewrite Hc. specialize (Hk h Hh). lia.
Qed.

Lemma filter_failed_app (a b : list PageResult) :
  length (List.filter failed (a ++ b))
  = (length (List.filter failed a) + length (List.filter failed b))%nat.
Proof. now rewrite List.filter_app, length_app. Qed.

(** X16.  Over a batch, a page that succeeds leaves no handle behind,
    so that the handles left open are at most as many as the pages that
    failed; a run without failure leaves the open handles as they were. *)
Theorem batch_leaves_handles_of_failures_only (urls : list string) (w : World) :
  handles_known w ->
  let results := fst (process_urls env urls [] w) in
  let w' := snd (process_urls env urls [] w) in
  handles_known w' /\
  (length (open_pages w') <= length (open_pages w) + length (List.filter failed results))%nat /\
  (List.filter failed results = [] -> open_pages w' = open_pages w).
Proof.
  revert w. induction urls as [|target urls IH]; intros w Hk; cbv zeta.
  - simpl. split; [exact Hk|]. split; [lia|reflexivity].
  - cbn [process_urls].
    destruct (analyze_url_handles target w Hk) as (Hk1 & Hl1 & Hs1).
    destruct (analyze_url env target w) as [result w1]. cbn [fst snd] in *.
    unfold advance. cbn [app]. rewrite process_urls_appends. cbn [fst snd].
    match goal with |- context [process_urls env urls [] ?w2] =>
      destruct (IH w2) as (Hk2 & Hl2 & Hs2); [exact Hk1|]
    end.
    cbn [open_pages] in *.
    split; [exact Hk2|]. split.
    + change (result :: ?l) with ([result] ++ l). rewrite filter_failed_app.
      simpl length at 3. destruct (failed result); simpl in *; lia.
    + simpl. destruct (failed result) eqn:Ef; [discriminate|].
      intros Hnone. rewrite (Hs2 Hnone). now apply Hs1.
Qed.

End Handles.

(** Three pages, the second of which times out. *)
Lemma batch_leaves_handles_of_failures_only_witness :
  (length (open_pages
             (snd (process_urls
                     (reference_env about_llm
                        (fun target => if String.eqb target "https://slow.example.com/"
                                       then timeout_page target else about_page))
                     ["https://example.com/about"; "https://slow.example.com/";
                      "https://example.com/about"] [] (start 5))))
   <= 1)%nat.
Proof.
  pose proof (batch_leaves_handles_of_failures_only
                (reference_env about_llm
                   (fun target => if String.eqb target "https://slow.example.com/"
                                  then timeout_page target else about_page))
                ["https://example.com/about"; "https://slow.example.com/";
                 "https://example.com/about"] (start 5)) as H.
  destruct H as (_ & Hl & _); [intros h []|].
  exact Hl.
Defined.

(** ** Keywords in references and texts *)

Section KeywordPlace.
Import PyStr.

Lemma prefix_app (kw a b : string) :
  String.prefix kw a = true -> String.prefix kw (a +:+ b) = true.
Proof.
  revert a. induction kw as [|k kw IH]; intros a H; [now destruct (a +:+ b)|].
  destruct a as [|c a]; [discriminate|].
  change (String c a +:+ b) with (String c (a +:+ b)).
  cbn [String.prefix] in *.
  destruct (Ascii.ascii_dec k c); [now apply IH|discriminate].
Qed.

Lemma contains_app_l (kw a b : string) :
  contains kw a = true -> contains kw (a +:+ b) = true.
Proof.
  induction a as [|c a IH].
  - cbn [contains]. rewrite orb_false_r. intros H.
    destruct kw; [now destruct b|discriminate].
  - change (String c a +:+ b) with (String c (a +:+ b)). cbn [contains].
    intros [H|H]%orb_prop.
    + apply orb_true_intro. left. exact (prefix_app _ (String c a) b H).
    + rewrite (IH H). apply orb_true_r.
Qed.

Lemma contains_app_r (kw a b : string) :
  contains kw b = true -> contains kw (a +:+ b) = true.
Proof.
  intros H. induction a as [|c a IH]; [exact H|].
  change (String c a +:+ b) with (String c (a +:+ b)). cbn [contains].
  rewrite IH. apply orb_true_r.
Qed.

Lemma any_in_app (keywords : list string) (a b : string) :
  any_in keywords a = true \/ any_in keywords b = true ->
  any_in keywords (a +:+ b) = true.
Proof.
  unfold any_in. rewrite !existsb_exists.
  intros [(kw & Hin & H)|(kw & Hin & H)]; exists kw; split; auto using contains_app_l, contains_app_r.
Qed.

(** X17.  For a link on the site, a keyword in the reference alone, or
    in the text alone, whatever their case, makes the loop keep the
    link; both are matched in lower case. *)
Theorem keyword_in_reference_or_text_suffices (env : Env) (base_url domain : string)
    (keywords : list string) (a : ElementHandle) (href text u : string)
    (parsed : ParseResult) :
  get_attribute a = inr (Some href) ->
  nonempty href = true ->
  inner_text a = inr text ->
  urljoin env base_url href = inr u ->
  urlparse env u = inr parsed ->
  (netloc parsed = EmptyString \/ netloc parsed = domain) ->
  (any_in keywords (lower href) = true \/ any_in keywords (lower text) = true) ->
  forall anchors others matches,
    In a anchors ->
    collect_matches env base_url domain keywords anchors others = inr matches ->
    In u matches.
Proof.
  intros Hh Hne Ht Hj Hp Hhost Hkw anchors others matches Hin Hc.
  eapply collect_matches_complete; [exact Hc|exact Hin|].
  exists href, text, parsed. repeat split; auto.
  - destruct Hhost as [->| ->]; [reflexivity|].
    rewrite String.eqb_refl. apply andb_false_r.
  - apply any_in_app. destruct Hkw as [H|H]; [now left|right].
    apply any_in_app. now right.
Qed.

End KeywordPlace.

(** A link whose text says nothing and whose reference says "CONTACT". *)
Lemma keyword_in_reference_or_text_suffices_witness :
  In "https://example.com/CONTACT"
    (match
       collect_matches
         (reference_env prose_llm
            (fun _ => static_page "https://example.com/" [] [anchor "/CONTACT" "Click here"]))
         "https://example.com/" "example.com" (keywords_of "Contact/Support")
         [anchor "/CONTACT" "Click here"] []
     with
     | inr matches => matches
     | inl _ => []
     end).
Proof.
  apply (keyword_in_reference_or_text_suffices
           (reference_env prose_llm
              (fun _ => static_page "https://example.com/" []
                          [anchor "/CONTACT" "Click here"]))
           "https://example.com/" "example.com" (keywords_of "Contact/Support")
           (anchor "/CONTACT" "Click here") "/CONTACT" "Click here"
           "https://example.com/CONTACT"
           {| scheme := "https"; netloc := "example.com" |}
           eq_refl eq_refl eq_refl eq_refl eq_refl (or_intror eq_refl) (or_introl eq_refl)
           [anchor "/CONTACT" "Click here"] [] _ (or_introl eq_refl)).
  vm_compute. reflexivity.
Defined.
